(** * Orchestration engine of research-pipeline-sdk: a shallow embedding

    The development follows the TypeScript sources:
    - [src/types/errors.ts]      error classes and [isResearchError]
    - [src/utils/retry.ts]       [executeWithRetry]
    - [src/utils/steps.ts]       [createStep], [wrapStepWithErrorHandling]
    - [src/core/pipeline.ts]     [recordStepExecution], [executeStepWithErrorHandling],
                                 [executeSteps], [executePipeline]
    - [src/steps/track.ts]       [executeTrackStep], [track]
    - [src/steps/parallel.ts]    [executeParallelStep], [defaultMergeFunction]
    - [src/utils/merge.ts]       [ResultMerger.mergeTrackData], [resolveConflict],
                                 [mergeTrackResults], [createMergeFunction]
    - [src/steps/flowControl.ts] [executeEvaluateStep], [evaluate], [repeatUntil]

    Conventions.  An [async] function is a function from the world it runs in
    to a settled outcome and the world it leaves.  Integer-valued JS numbers
    are [Z]; the numbers the merger averages are exact rationals [Q].
    The logger writes to the console and never throws; its calls are left
    out, but not the evaluation of their arguments where that can throw. *)

From Stdlib Require Import List String ZArith QArith Bool Lia Lqa DecimalString
  Permutation.
Import ListNotations.

Local Close Scope Q_scope.
Local Open Scope string_scope.
Local Open Scope list_scope.

(** ** JavaScript values *)

(** A JS number up to rounding: an exact rational, an infinity or NaN.
    Zero is unsigned; the divisions below have a sum started at [0] as
    divisor, which is never [-0]. *)
Inductive Num : Type :=
| Fin (q : Q)
| PInf
| NInf
| NaN.

Module JsNum.

Definition sign (q : Q) : comparison := (Qnum q ?= 0)%Z.

Definition neg (a : Num) : Num :=
  match a with
  | Fin q => Fin (Qopp q)
  | PInf => NInf
  | NInf => PInf
  | NaN => NaN
  end.

(** The infinity carrying the sign of [q], NaN for [q = 0]. *)
Definition scaledInf (q : Q) (inf : Num) : Num :=
  match sign q with
  | Gt => inf
  | Lt => neg inf
  | Eq => NaN
  end.

Definition mul (a b : Num) : Num :=
  match a, b with
  | NaN, _ | _, NaN => NaN
  | Fin x, Fin y => Fin (Qmult x y)
  | Fin x, inf | inf, Fin x => scaledInf x inf
  | PInf, PInf | NInf, NInf => PInf
  | PInf, NInf | NInf, PInf => NInf
  end.

Definition add (a b : Num) : Num :=
  match a, b with
  | NaN, _ | _, NaN => NaN
  | Fin x, Fin y => Fin (Qplus x y)
  | PInf, NInf | NInf, PInf => NaN
  | Fin _, inf | inf, Fin _ => inf
  | PInf, PInf => PInf
  | NInf, NInf => NInf
  end.

Definition sub (a b : Num) : Num := add a (neg b).

Definition div (a b : Num) : Num :=
  match a, b with
  | NaN, _ | _, NaN => NaN
  | Fin x, Fin y =>
      match sign y with
      | Eq => scaledInf x PInf
      | _ => Fin (Qdiv x y)
      end
  | Fin _, _ => Fin 0
  | inf, Fin y =>
      match sign y with
      | Lt => neg inf
      | _ => inf
      end
  | _, _ => NaN
  end.

(** [a > b] *)
Definition gt (a b : Num) : bool :=
  match a, b with
  | NaN, _ | _, NaN => false
  | Fin x, Fin y => match Qcompare x y with Gt => true | _ => false end
  | PInf, PInf | NInf, NInf => false
  | PInf, _ | _, NInf => true
  | _, _ => false
  end.

Definition eqb (a b : Num) : bool :=
  match a, b with
  | Fin x, Fin y => Qeq_bool x y
  | PInf, PInf | NInf, NInf | NaN, NaN => true
  | _, _ => false
  end.

(** Truthiness of a number: [0] and NaN are falsy. *)
Definition truthy (a : Num) : bool :=
  match a with
  | Fin q => negb (Qeq_bool q 0)
  | NaN => false
  | _ => true
  end.

End JsNum.

(** JSON-like values.  An object is the list of its own properties in the
    order of their creation; [Js.keys] lists them as [Object.keys] does.
    [VBuiltin k] is what a plain object inherits from [Object.prototype]
    under the name [k]: a built-in function, or [Object.prototype] itself
    for [__proto__]. *)
#[warnings="-register-all"]
Inductive Value : Type :=
| VUndefined
| VNull
| VBool (b : bool)
| VNum (n : Num)
| VStr (s : string)
| VArr (items : list Value)
| VObj (fields : list (string * Value))
| VBuiltin (name : string).

Definition Obj : Type := list (string * Value).

Module Js.

(** [o[k]] on the own properties of [o]; that is [o[k]] for every name [k]
    that [Object.prototype] does not define. *)
Fixpoint get {A} (k : string) (o : list (string * A)) : option A :=
  match o with
  | [] => None
  | (k', v) :: o' => if String.eqb k k' then Some v else get k o'
  end.

(** [Object.hasOwn(o, k)]; that is [k in o] for every name [k] that
    [Object.prototype] does not define. *)
Definition has {A} (k : string) (o : list (string * A)) : bool :=
  match get k o with Some _ => true | None => false end.

(** [{...o, [k]: v}], the definition of a property: an existing property
    keeps its place, a new one goes last. *)
Fixpoint set {A} (k : string) (v : A) (o : list (string * A)) : list (string * A) :=
  match o with
  | [] => [(k, v)]
  | (k', v') :: o' =>
      if String.eqb k k' then (k, v) :: o' else (k', v') :: set k v o'
  end.

(** [{...a, ...b}] *)
Definition spread {A} (a b : list (string * A)) : list (string * A) :=
  fold_left (fun acc kv => set (fst kv) (snd kv) acc) b a.

(** [const {k: _, ...rest} = o] *)
Definition without {A} (k : string) (o : list (string * A)) : list (string * A) :=
  filter (fun kv => negb (String.eqb k (fst kv))) o.

(** The value of a decimal digit. *)
Definition digit (c : Ascii.ascii) : option N :=
  let n := Ascii.N_of_ascii c in
  if (48 <=? n)%N && (n <=? 57)%N then Some (n - 48)%N else None.

Fixpoint decimal (s : string) (acc : N) : option N :=
  match s with
  | EmptyString => Some acc
  | String c s' =>
      match digit c with
      | Some d => decimal s' (10 * acc + d)%N
      | None => None
      end
  end.

(** An array index: the canonical decimal form of an integer below
    [2^32 - 1]. *)
Definition arrayIndex (k : string) : option N :=
  match k with
  | EmptyString => None
  | String c rest =>
      if Ascii.eqb c (Ascii.ascii_of_nat 48) && negb (String.eqb rest EmptyString)
      then None
      else match decimal k 0 with
           | Some n => if (n <? 4294967295)%N then Some n else None
           | None => None
           end
  end.

Definition isArrayIndex (k : string) : bool :=
  match arrayIndex k with Some _ => true | None => false end.

Fixpoint insertIndexed {A} (i : N) (kv : string * A)
    (sorted : list (N * (string * A))) : list (N * (string * A)) :=
  match sorted with
  | [] => [(i, kv)]
  | (j, kv') :: rest =>
      if (i <? j)%N then (i, kv) :: (j, kv') :: rest
      else (j, kv') :: insertIndexed i kv rest
  end.

(** [Object.entries(o)]: the properties named by array indices in
    ascending order, then the others in the order of their creation. *)
Definition entries {A} (o : list (string * A)) : list (string * A) :=
  map snd (fold_left (fun acc kv =>
                        match arrayIndex (fst kv) with
                        | Some i => insertIndexed i kv acc
                        | None => acc
                        end) o [])
  ++ filter (fun kv => negb (isArrayIndex (fst kv))) o.

(** [Object.keys(o)], [Object.values(o)] *)
Definition keys {A} (o : list (string * A)) : list string := map fst (entries o).
Definition values {A} (o : list (string * A)) : list A := map snd (entries o).

(** The names [Object.prototype] defines: every plain object inherits
    them. *)
Definition objectPrototype : list string :=
  ["constructor"; "__defineGetter__"; "__defineSetter__"; "hasOwnProperty";
   "__lookupGetter__"; "__lookupSetter__"; "isPrototypeOf"; "propertyIsEnumerable";
   "toString"; "valueOf"; "__proto__"; "toLocaleString"].

Definition inherited (k : string) : bool := existsb (String.eqb k) objectPrototype.

(** [k in o] on a plain object. *)
Definition hasProperty {A} (k : string) (o : list (string * A)) : bool :=
  has k o || inherited k.

(** [o[k]] on a plain object, for any name [k]. *)
Definition lookup (k : string) (o : Obj) : Value :=
  match get k o with
  | Some v => v
  | None => if inherited k then VBuiltin k else VUndefined
  end.

(** [o[k] = v] on a plain object.  An assignment to [__proto__] reaches the
    setter inherited from [Object.prototype] and creates no own property
    (it may change the prototype, which does not show in the own
    properties). *)
Definition assign {A} (k : string) (v : A) (o : list (string * A))
    : list (string * A) :=
  if String.eqb k "__proto__" && negb (has k o) then o else set k v o.

(** Member access on any value, [v.k], for a name [k] that no built-in
    prototype defines: [undefined] when absent or when [v] is not an object
    (optional chaining [v?.k] on [undefined] included). *)
Definition field (k : string) (v : Value) : Value :=
  match v with
  | VObj o => match get k o with Some x => x | None => VUndefined end
  | _ => VUndefined
  end.

Definition truthy (v : Value) : bool :=
  match v with
  | VUndefined | VNull => false
  | VBool b => b
  | VNum n => JsNum.truthy n
  | VStr s => negb (String.eqb s EmptyString)
  | VArr _ | VObj _ | VBuiltin _ => true
  end.

(** [a || b] *)
Definition or (a b : Value) : Value := if truthy a then a else b.

(** [typeof v === 'number'] *)
Definition isNumber (v : Value) : bool :=
  match v with VNum _ => true | _ => false end.

(** The index [i] as a property name. *)
Definition indexName (i : nat) : string := NilEmpty.string_of_uint (Nat.to_uint i).

Fixpoint indexFrom {A} (i : nat) (items : list A) : list (string * A) :=
  match items with
  | [] => []
  | x :: rest => (indexName i, x) :: indexFrom (S i) rest
  end.

Fixpoint characters (s : string) : list Value :=
  match s with
  | EmptyString => []
  | String c rest => VStr (String c EmptyString) :: characters rest
  end.

(** The own enumerable properties of a value, as a spread [{...v}] copies
    them: the elements of an array and the characters of a string under
    their indices; a number, a boolean and a function have none. *)
Definition ownProperties (v : Value) : Obj :=
  match v with
  | VObj o => o
  | VArr items => indexFrom 0 items
  | VStr s => indexFrom 0 (characters s)
  | _ => []
  end.

(** [Object.keys(v)] for a [v] other than [null] and [undefined]. *)
Definition ownKeys (v : Value) : list string := keys (ownProperties v).

(** Structural equality of values. *)
Fixpoint eqb (a b : Value) : bool :=
  match a, b with
  | VUndefined, VUndefined | VNull, VNull => true
  | VBool x, VBool y => Bool.eqb x y
  | VNum x, VNum y => JsNum.eqb x y
  | VStr x, VStr y => String.eqb x y
  | VBuiltin x, VBuiltin y => String.eqb x y
  | VArr xs, VArr ys =>
      (fix all2 (xs ys : list Value) : bool :=
         match xs, ys with
         | [], [] => true
         | x :: xs', y :: ys' => eqb x y && all2 xs' ys'
         | _, _ => false
         end) xs ys
  | VObj fs, VObj gs =>
      (fix all2 (fs gs : list (string * Value)) : bool :=
         match fs, gs with
         | [], [] => true
         | (k, x) :: fs', (k', y) :: gs' =>
             String.eqb k k' && eqb x y && all2 fs' gs'
         | _, _ => false
         end) fs gs
  | _, _ => false
  end.

(** What [JSON.stringify] keeps of a value: [undefined] and functions are
    left out of objects and become [null] in arrays, NaN and the infinities
    become [null], and properties come in [Object.keys] order.  At top
    level [undefined] and a function both give [undefined]. *)
Fixpoint jsonForm (v : Value) : Value :=
  match v with
  | VNum (Fin q) => VNum (Fin q)
  | VNum _ => VNull
  | VArr items =>
      VArr (map (fun x => match jsonForm x with VUndefined => VNull | y => y end) items)
  | VObj fields =>
      VObj (filter (fun kv => match snd kv with VUndefined => false | _ => true end)
              (entries (map (fun '(k, x) => (k, jsonForm x)) fields)))
  | VBuiltin k => if String.eqb k "__proto__" then VObj [] else VUndefined
  | other => other
  end.

(** [JSON.stringify(a) === JSON.stringify(b)] *)
Definition sameJson (a b : Value) : bool := eqb (jsonForm a) (jsonForm b).

Section ToNumber.
(** [ToNumber] on strings, arrays, objects and functions is the language's
    own parser; it is a parameter. *)
Variable parseNumber : Value -> Num.

Definition toNumber (v : Value) : Num :=
  match v with
  | VNum n => n
  | VUndefined => NaN
  | VNull => Fin 0
  | VBool true => Fin 1
  | VBool false => Fin 0
  | _ => parseNumber v
  end.
End ToNumber.

End Js.

(** ** Errors ([src/types/errors.ts]) *)

Inductive ErrClass : Type :=
| PlainError            (* [Error], and the built-in [TypeError] the language throws *)
| BaseResearchError
| ConfigurationError
| ValidationError
| PipelineError
| ProcessingError
| TimeoutError
| MaxIterationsError
| ParallelError.        (* [class ParallelError extends ProcessingError] *)

Definition ErrClass_eqb (a b : ErrClass) : bool :=
  match a, b with
  | PlainError, PlainError | BaseResearchError, BaseResearchError
  | ConfigurationError, ConfigurationError | ValidationError, ValidationError
  | PipelineError, PipelineError | ProcessingError, ProcessingError
  | TimeoutError, TimeoutError | MaxIterationsError, MaxIterationsError
  | ParallelError, ParallelError => true
  | _, _ => false
  end.

(** [superclass c] is the class [c] extends, [None] for [Error] itself. *)
Definition superclass (c : ErrClass) : option ErrClass :=
  match c with
  | PlainError => None
  | BaseResearchError => Some PlainError
  | ParallelError => Some ProcessingError
  | _ => Some BaseResearchError
  end.

(** [e instanceof target] for an error object of class [c]; the chain of
    superclasses has length at most three. *)
Definition instanceOf (c target : ErrClass) : bool :=
  ErrClass_eqb c target
  || match superclass c with
     | None => false
     | Some c1 =>
         ErrClass_eqb c1 target
         || match superclass c1 with
            | None => false
            | Some c2 =>
                ErrClass_eqb c2 target
                || match superclass c2 with
                   | None => false
                   | Some c3 => ErrClass_eqb c3 target
                   end
            end
     end.

(** An error object.  [code] is absent on a plain [Error]; [details] keeps
    the scalar entries of the source's [details] (the nested error objects
    and [suggestions] carry no behaviour and are left out). *)
Record Err : Type := mkErr {
  cls : ErrClass;
  message : string;
  code : option string;
  step : option string;
  retry : bool;
  details : Obj
}.

(** What a [throw] can carry: an [Error] object, or any other value, kept as
    its [String(x)] rendering. *)
Inductive Thrown : Type :=
| ThrownError (e : Err)
| ThrownValue (rendered : string).

(** [error instanceof Error ? error.message : String(error)] *)
Definition errorMessageOf (t : Thrown) : string :=
  match t with
  | ThrownError e => message e
  | ThrownValue s => s
  end.

(** [error instanceof C] on a thrown value. *)
Definition thrownInstanceOf (t : Thrown) (target : ErrClass) : bool :=
  match t with
  | ThrownError e => instanceOf (cls e) target
  | ThrownValue _ => false
  end.

(** [isResearchError]: an [Error] with a string [code]. *)
Definition isResearchError (t : Thrown) : bool :=
  match t with
  | ThrownError e => match code e with Some _ => true | None => false end
  | ThrownValue _ => false
  end.

(** [new BaseResearchError({message, code, step, retry})]; [retry ?? false]. *)
Definition newBaseResearchError (msg c : string) (st : option string)
    (r : option bool) : Err :=
  mkErr BaseResearchError msg (Some c) st
        (match r with Some b => b | None => false end) [].

Definition newSubclassError (k : ErrClass) (c msg : string) (st : option string)
    (r : option bool) : Err :=
  mkErr k msg (Some c) st (match r with Some b => b | None => false end) [].

Definition newPipelineError := newSubclassError PipelineError "pipeline_error".
Definition newProcessingError := newSubclassError ProcessingError "processing_error".
Definition newMaxIterationsError :=
  newSubclassError MaxIterationsError "max_iterations_error".
Definition newValidationError := newSubclassError ValidationError "validation_error".
Definition newConfigurationError :=
  newSubclassError ConfigurationError "configuration_error".
(** [ParallelError] calls [super(options)] of [ProcessingError]. *)
Definition newParallelError := newSubclassError ParallelError "processing_error".

(** [new Error(msg)] *)
Definition newError (msg : string) : Err := mkErr PlainError msg None None false [].

(** The same error with its [details]. *)
Definition withDetails (d : Obj) (e : Err) : Err :=
  mkErr (cls e) (message e) (code e) (step e) (retry e) d.

(** A settled promise. *)
Inductive Outcome (T : Type) : Type :=
| Resolved (v : T)
| Rejected (e : Thrown).
Arguments Resolved {T} v.
Arguments Rejected {T} e.

(** The [TypeError] of a call through a property that holds no function. *)
Definition notAFunction (callee : string) : Thrown :=
  ThrownError (newError (callee ++ " is not a function")%string).

(** An error that passes [isResearchError] without being a
    [BaseResearchError]: an [Error] that was given a string [code], as the
    system errors of Node are. *)
Definition foreignResearchError (t : Thrown) : bool :=
  match t with
  | ThrownError e =>
      match code e with Some _ => true | None => false end
      && negb (instanceOf (cls e) BaseResearchError)
  | ThrownValue _ => false
  end.

(** [researchError.getFormattedMessage()], evaluated for a log line.  The
    method is defined by [BaseResearchError] alone, so on any other error
    object the call throws; the text it returns goes to the logger. *)
Definition getFormattedMessage (e : Err) : Outcome unit :=
  if instanceOf (cls e) BaseResearchError
  then Resolved tt
  else Rejected (notAFunction "researchError.getFormattedMessage").

(** A name between double quotes, as template strings print it. *)
Definition quoted (s : string) : string :=
  String (Ascii.ascii_of_nat 34) (s ++ String (Ascii.ascii_of_nat 34) EmptyString)%string.

(** Decimal rendering of an integer inside template strings. *)
Definition showZ (z : Z) : string :=
  match z with
  | Z0 => "0"
  | Zpos p => NilEmpty.string_of_uint (Pos.to_uint p)
  | Zneg p => ("-" ++ NilEmpty.string_of_uint (Pos.to_uint p))%string
  end.

(** ** The retry executor ([src/utils/retry.ts]) *)

Module Retry.

Section ExecuteWithRetry.
(** [W] is the world the operation runs in, [T] what it resolves to. *)
Context {W T : Type}.

(** The caller's [retryableErrors] and [onRetry] are called outside any
    [try]: each may throw instead of returning. *)
Record RetryOptions : Type := mkRetryOptions {
  maxRetries : option Z;
  retryDelay : option Z;
  backoffFactor : option Z;
  retryableErrors : option (Thrown -> Outcome bool);
  onRetry : option (Z -> Thrown -> Z -> W -> Outcome unit * W)
}.

(** The scheduler: [await new Promise(r => setTimeout(r, delay))], the
    micro-task yield [await Promise.resolve()] used when
    [process.env.NODE_ENV === 'test'], and that flag. *)
Variable sleep : Z -> W -> W.
Variable yield : W -> W.
Variable shouldUseTestMode : bool.

Definition DEFAULT_maxRetries : Z := 3.
Definition DEFAULT_retryDelay : Z := 1000.
Definition DEFAULT_backoffFactor : Z := 2.

(** [error instanceof BaseResearchError && error.retry === true] *)
Definition defaultIsRetryable (t : Thrown) : bool :=
  match t with
  | ThrownError e => instanceOf (cls e) BaseResearchError && retry e
  | ThrownValue _ => false
  end.

(** A callback that returns. *)
Definition returning (pred : Thrown -> bool) (t : Thrown) : Outcome bool :=
  Resolved (pred t).

Definition notifying (note : Z -> Thrown -> Z -> W -> W)
    (attempt : Z) (error : Thrown) (delay : Z) (w : W) : Outcome unit * W :=
  (Resolved tt, note attempt error delay w).

(** [defaultOnRetry] only writes to the logger. *)
Definition defaultOnRetry : Z -> Thrown -> Z -> W -> Outcome unit * W :=
  notifying (fun _ _ _ w => w).

(** [a ?? b] *)
Definition orDefault {A} (a : option A) (b : A) : A :=
  match a with Some x => x | None => b end.

(** [limit || !isRetryable(error)]: the predicate is not called when [limit]
    holds, and what it throws leaves the executor. *)
Definition givesUp (isRetryable : Thrown -> Outcome bool) (limit : bool)
    (error : Thrown) : Outcome bool :=
  if limit then Resolved true
  else match isRetryable error with
       | Resolved retryable => Resolved (negb retryable)
       | Rejected thrown => Rejected thrown
       end.

Section Loop.
Variable fn : W -> Outcome T * W.
Variable options : RetryOptions.

Let maxRetries_ := orDefault (maxRetries options) DEFAULT_maxRetries.
Let initialDelay := orDefault (retryDelay options) DEFAULT_retryDelay.
Let backoffFactor_ := orDefault (backoffFactor options) DEFAULT_backoffFactor.
Let isRetryable := orDefault (retryableErrors options) (returning defaultIsRetryable).
Let onRetry_ := orDefault (onRetry options) defaultOnRetry.

(** The [while (attempt < maxRetries)] loop.  [attempt] grows by one per
    round, so the loop has [maxRetries - attempt] rounds left: the first
    argument is that number, and [O] is the exit of the loop onto the
    final [throw lastError]. *)
Fixpoint retryLoop (remaining : nat) (attempt : Z) (lastError : Thrown) (w : W)
    : Outcome T * W :=
  match remaining with
  | O => (Rejected lastError, w)
  | S remaining' =>
      let attempt := (attempt + 1)%Z in
      let delay := (initialDelay * backoffFactor_ ^ (attempt - 1))%Z in
      match onRetry_ attempt lastError delay w with
      | (Rejected thrown, w) => (Rejected thrown, w)
      | (Resolved _, w) =>
          let w := if shouldUseTestMode then yield w else sleep delay w in
          match fn w with
          | (Resolved v, w') => (Resolved v, w')
          | (Rejected error, w') =>
              match givesUp isRetryable (attempt >=? maxRetries_)%Z error with
              | Rejected thrown => (Rejected thrown, w')
              | Resolved true => (Rejected error, w')
              | Resolved false => retryLoop remaining' attempt error w'
              end
          end
      end
  end.

Definition executeWithRetry (w : W) : Outcome T * W :=
  match fn w with
  | (Resolved v, w') => (Resolved v, w')
  | (Rejected error, w') =>
      match givesUp isRetryable (maxRetries_ <=? 0)%Z error with
      | Rejected thrown => (Rejected thrown, w')
      | Resolved true => (Rejected error, w')
      | Resolved false => retryLoop (Z.to_nat maxRetries_) 0%Z error w'
      end
  end.
End Loop.
End ExecuteWithRetry.

Arguments RetryOptions : clear implicits.
Arguments mkRetryOptions {W}.

(** What a run of the executor leaves behind, for counting. *)
Inductive Event : Type :=
| Call                                  (* [fn()] was invoked *)
| Notify (attempt : Z) (delay : Z)      (* [onRetry(attempt, lastError, delay)] *)
| Sleep (delay : Z)                     (* [setTimeout(resolve, delay)] *)
| Yield.                                (* [Promise.resolve()] *)

Definition Trace := list Event.

Definition traceSleep (d : Z) (t : Trace) : Trace := t ++ [Sleep d].
Definition traceYield (t : Trace) : Trace := t ++ [Yield].
Definition traceNotify (attempt : Z) (_ : Thrown) (delay : Z) (t : Trace) : Trace :=
  t ++ [Notify attempt delay].

Definition isCall (e : Event) : bool := match e with Call => true | _ => false end.

Definition callCount (t : Trace) : nat := List.length (filter isCall t).

(** The delays handed to [setTimeout], in order. *)
Fixpoint requestedDelays (t : Trace) : list Z :=
  match t with
  | [] => []
  | Sleep d :: t' => d :: requestedDelays t'
  | _ :: t' => requestedDelays t'
  end.

(** The delays announced through [onRetry], in order. *)
Fixpoint notifiedDelays (t : Trace) : list Z :=
  match t with
  | [] => []
  | Notify _ d :: t' => d :: notifiedDelays t'
  | _ :: t' => notifiedDelays t'
  end.

(** Options with every field given and [onRetry] noted in the trace. *)
Definition tracedOptions (maxR delay factor : Z) (pred : Thrown -> bool)
    : RetryOptions Trace :=
  mkRetryOptions (Some maxR) (Some delay) (Some factor) (Some (returning pred))
                 (Some (notifying traceNotify)).

(** The executor on a traced world; [testMode] is the [NODE_ENV] flag. *)
Definition runTraced {T} (testMode : bool) (fn : Trace -> Outcome T * Trace)
    (maxR delay factor : Z) (pred : Thrown -> bool) : Outcome T * Trace :=
  executeWithRetry traceSleep traceYield testMode fn
    (tracedOptions maxR delay factor pred) [].

(** The delay before retry attempt [k]. *)
Definition backoffDelay (delay factor : Z) (k : nat) : Z :=
  (delay * factor ^ (Z.of_nat k - 1))%Z.

(** One retry round as the trace shows it. *)
Definition retryRound (testMode : bool) (delay factor : Z) (k : nat) : Trace :=
  [Notify (Z.of_nat k) (backoffDelay delay factor k);
   if testMode then Yield else Sleep (backoffDelay delay factor k);
   Call].

(** The rounds [k], [k+1], ... ([n] of them) one after the other. *)
Definition rounds (testMode : bool) (delay factor : Z) (k n : nat) : Trace :=
  List.concat (map (retryRound testMode delay factor) (seq k n)).

(** An operation that rejects with [e] whenever it is called. *)
Definition alwaysRejects {T} (e : Thrown) (t : Trace) : Outcome T * Trace :=
  (Rejected e, t ++ [Call]).

(** A retryable failure: a [NetworkError]-like research error with
    [retry = true]. *)
Definition transientFailure : Thrown :=
  ThrownError (newBaseResearchError "connection reset" "network_error" None (Some true)).

End Retry.

(** ** Conflict resolver / merger ([src/utils/merge.ts]) *)

Module Merge.

Inductive Strategy : Type :=
| First | Last | MostConfident | Majority | Weighted | Custom.

(** The metadata object pushed next to each collected value. *)
Record Meta : Type := mkMeta {
  trackName : string;
  confidence : Value;
  timestamp : Value
}.

Record ConflictResolutionOptions : Type := mkOptions {
  strategy : Strategy;
  weights : option (list (string * Num));
  customResolver : option (list Value -> list Meta -> Outcome Value);
  confidenceExtractor : option (Meta -> Num)
}.

(** [array.map((x, i) => f x i)] *)
Fixpoint mapiFrom {A B} (i : nat) (f : A -> nat -> B) (l : list A) : list B :=
  match l with
  | [] => []
  | x :: l' => f x i :: mapiFrom (S i) f l'
  end.
Definition mapi {A B} (f : A -> nat -> B) (l : list A) : list B := mapiFrom 0 f l.

(** [array.sort(cmp)]: stable; [x] moves in front of [y] only when
    [cmp(x, y) < 0]. *)
Definition negative (n : Num) : bool :=
  match n with
  | Fin q => match JsNum.sign q with Lt => true | _ => false end
  | NInf => true
  | _ => false
  end.

Fixpoint insertSorted {A} (cmp : A -> A -> Num) (x : A) (sorted : list A) : list A :=
  match sorted with
  | [] => [x]
  | y :: ys => if negative (cmp x y) then x :: y :: ys else y :: insertSorted cmp x ys
  end.

Definition sort {A} (cmp : A -> A -> Num) (l : list A) : list A :=
  fold_left (fun acc x => insertSorted cmp x acc) l [].

(** The [Map] of the majority vote, keyed by [JSON.stringify(value)]: one
    entry per distinct key, in order of first appearance, holding the
    first value with that key. *)
Fixpoint countValue (v : Value) (counts : list (Value * nat)) : list (Value * nat) :=
  match counts with
  | [] => [(v, 1)]
  | (v', c) :: rest =>
      if Js.sameJson v v' then (v', S c) :: rest else (v', c) :: countValue v rest
  end.

(** [weights[trackName] || 1].  For a track name that the map does not
    hold but [Object.prototype] defines, [weights[trackName]] is a function
    (or [Object.prototype] itself): every product and comparison with it
    gives NaN, and so does the quotient by a total it was added to.  NaN
    stands for such a weight. *)
Definition weightOf (weights : list (string * Num)) (name : string) : Num :=
  match Js.get name weights with
  | Some w => if JsNum.truthy w then w else Fin 1
  | None => if Js.inherited name then NaN else Fin 1
  end.

Section Resolve.
Variable parseNumber : Value -> Num.

(** [key in x] together with [x[key]], for what an array [x] inherits and
    for a built-in [x]: what [Array.prototype], [Function.prototype] and
    the built-in functions define depends on the version of the language,
    so the lookup is a parameter.  [None]: the key is not found. *)
Variable exoticMember : string -> Value -> option Value.

(** A [TypeError] of the language; its text is the engine's, without the
    value it may quote. *)
Definition typeError (msg : string) : Thrown :=
  ThrownError (newError msg).

(** Each value of [values.forEach((value, i) => ...)] with the weight
    [weights[metadata[i].trackName] || 1]; [None] where [metadata[i]] is
    [undefined] and reading its [trackName] throws. *)
Definition attachWeights (weights : list (string * Num)) (values : list Value)
      (metadata : list Meta) : list (Value * option Num) :=
  mapi (fun value i =>
          (value,
           match nth_error metadata i with
           | Some meta => Some (weightOf weights (trackName meta))
           | None => None
           end)) values.

(** [weightedSum += value * weight; totalWeight += weight] *)
Definition accumulate (acc : option (Num * Num)) (vw : Value * option Num)
      : option (Num * Num) :=
  match acc, snd vw with
  | Some (weightedSum, totalWeight), Some weight =>
      Some (JsNum.add weightedSum
              (JsNum.mul (Js.toNumber parseNumber (fst vw)) weight),
            JsNum.add totalWeight weight)
  | _, _ => None
  end.

(** [if (weight > highestWeight) { highestWeight = weight;
    highestWeightValue = value }] *)
Definition pickHighest (acc : option (Value * Num)) (vw : Value * option Num)
    : option (Value * Num) :=
  match acc, snd vw with
  | Some (highestWeightValue, highestWeight), Some weight =>
      if JsNum.gt weight highestWeight then Some (fst vw, weight) else acc
  | _, _ => None
  end.

Definition resolveConflict (values : list Value) (metadata : list Meta)
      (options : ConflictResolutionOptions) : Outcome Value :=
  match values with
  | [] => Resolved VUndefined
  | [v] => Resolved v
  | v0 :: _ =>
      match strategy options with
      | First => Resolved v0
      | Last => Resolved (last values VUndefined)
      | MostConfident =>
          let confidenceOf (m : Meta) : Num :=
            match confidenceExtractor options with
            | Some extractor => extractor m
            | None => Js.toNumber parseNumber (Js.or (confidence m) (VNum (Fin 0)))
            end in
          let withConfidence :=
            mapi (fun m i => (nth i values VUndefined, confidenceOf m)) metadata in
          match sort (fun a b => JsNum.sub (snd b) (snd a)) withConfidence with
          | best :: _ => Resolved (fst best)
          | [] => Rejected (typeError "Cannot read properties of undefined")
          end
      | Majority =>
          let counts := fold_left (fun acc v => countValue v acc) values [] in
          let pick (acc : nat * Value) (entry : Value * nat) : nat * Value :=
            if Nat.ltb (fst acc) (snd entry) then (snd entry, fst entry) else acc in
          Resolved (snd (fold_left pick counts (O, VUndefined)))
      | Weighted =>
          match weights options with
          | None =>
              Rejected (ThrownError
                (newError "Weights required for weighted conflict resolution strategy"))
          | Some weights =>
              let weighted := attachWeights weights values metadata in
              if Js.isNumber v0 then
                match fold_left accumulate weighted (Some (Fin 0, Fin 0)) with
                | Some (weightedSum, totalWeight) =>
                    Resolved (VNum (JsNum.div weightedSum totalWeight))
                | None => Rejected (typeError "Cannot read properties of undefined")
                end
              else
                match fold_left pickHighest weighted (Some (VUndefined, Fin (-1))) with
                | Some (highestWeightValue, _) => Resolved highestWeightValue
                | None => Rejected (typeError "Cannot read properties of undefined")
                end
          end
      | Custom =>
          match customResolver options with
          | None =>
              Rejected (ThrownError
                (newError "Custom resolver required for custom conflict resolution strategy"))
          | Some resolver => resolver values metadata
          end
      end
  end.

(** [track.data]; reading a property of [null] or [undefined] throws. *)
Definition dataOf (track : Value) : Outcome Value :=
  match track with
  | VUndefined =>
      Rejected (typeError "Cannot read properties of undefined (reading 'data')")
  | VNull => Rejected (typeError "Cannot read properties of null (reading 'data')")
  | _ => Resolved (Js.field "data" track)
  end.

(** [set.add(key)] on an insertion-ordered [Set]. *)
Definition addKey (acc : list string) (key : string) : list string :=
  if existsb (String.eqb key) acc then acc else acc ++ [key].

(** The first [forEach]: [if (track.data) Object.keys(track.data).forEach(key
    => allKeys.add(key))], the keys of the data of all tracks, each once,
    in order of first appearance. *)
Fixpoint allKeys (trackEntries : list (string * Value)) (acc : list string)
    : Outcome (list string) :=
  match trackEntries with
  | [] => Resolved acc
  | (_, track) :: rest =>
      match dataOf track with
      | Rejected e => Rejected e
      | Resolved data =>
          allKeys rest (if Js.truthy data
                        then fold_left addKey (Js.ownKeys data) acc
                        else acc)
      end
  end.

(** [key in data] with [data[key]], for a truthy [data]: [None] when the
    key is not found.  An array has its elements and its [length] for own
    properties.  The [in] operator throws on a primitive. *)
Definition memberOf (key : string) (data : Value) : Outcome (option Value) :=
  match data with
  | VObj o => Resolved (if Js.hasProperty key o then Some (Js.lookup key o) else None)
  | VArr items =>
      Resolved
        match Js.get key (Js.indexFrom 0 items) with
        | Some v => Some v
        | None =>
            if String.eqb key "length"
            then Some (VNum (Fin (inject_Z (Z.of_nat (List.length items)))))
            else exoticMember key data
        end
  | VBuiltin _ => Resolved (exoticMember key data)
  | _ =>
      Rejected (typeError ("Cannot use 'in' operator to search for '" ++ key ++ "'"))
  end.

(** [track.data && key in track.data], then the value and its metadata. *)
Definition contribution (key : string) (entry : string * Value)
    : Outcome (option (Value * Meta)) :=
  let '(name, track) := entry in
  match dataOf track with
  | Rejected e => Rejected e
  | Resolved data =>
      if Js.truthy data
      then match memberOf key data with
           | Rejected e => Rejected e
           | Resolved None => Resolved None
           | Resolved (Some v) =>
               Resolved
                 (Some (v,
                        mkMeta name
                          (Js.or (Js.field "confidence" (Js.field "metadata" track))
                                 (VNum (Fin (1 # 2))))
                          (Js.field "completedAt" (Js.field "metadata" track))))
           end
      else Resolved None
  end.

(** The second [trackEntries.forEach], for one key. *)
Fixpoint contributions (key : string) (trackEntries : list (string * Value))
      : Outcome (list (Value * Meta)) :=
  match trackEntries with
  | [] => Resolved []
  | entry :: rest =>
      match contribution key entry with
      | Rejected e => Rejected e
      | Resolved c =>
          match contributions key rest with
          | Rejected e => Rejected e
          | Resolved cs => Resolved (match c with Some x => x :: cs | None => cs end)
          end
      end
  end.

(** The body of [allKeys.forEach]; a throw leaves the whole merge. *)
Fixpoint mergeKeys (keys : list string) (trackEntries : list (string * Value))
    (options : ConflictResolutionOptions) (merged : Obj) : Outcome Obj :=
  match keys with
  | [] => Resolved merged
  | key :: keys' =>
      if String.eqb key "tracks" then mergeKeys keys' trackEntries options merged
      else
        match contributions key trackEntries with
        | Rejected e => Rejected e
        | Resolved [] => mergeKeys keys' trackEntries options merged
        | Resolved cs =>
            match resolveConflict (map fst cs) (map snd cs) options with
            | Resolved v =>
                mergeKeys keys' trackEntries options (Js.assign key v merged)
            | Rejected e => Rejected e
            end
        end
  end.

Definition defaultDataOptions : ConflictResolutionOptions :=
  mkOptions Last None None None.

Definition mergeTrackData (tracks : Obj) (options : ConflictResolutionOptions)
    : Outcome Obj :=
  let trackEntries := Js.entries tracks in
  match allKeys trackEntries [] with
  | Rejected e => Rejected e
  | Resolved keys => mergeKeys keys trackEntries options []
  end.
End Resolve.

(** The weighted mean in the words of the specification:
    [Σ(value·weight) / Σ(weight)] over (value, weight) pairs. *)
Definition sumQ (l : list Q) : Q := fold_right Qplus 0%Q l.

Definition weightedMean (vws : list (Q * Q)) : Q :=
  (sumQ (map (fun vw => fst vw * snd vw) vws) / sumQ (map snd vws))%Q.

(** A track result as the track runner writes it (object literal order). *)
Definition trackResult (name : string) (results : list Value) (data : Obj)
    (metadata : Obj) (errors : list Value) (completed : bool) : Value :=
  VObj [("name", VStr name); ("results", VArr results); ("data", VObj data);
        ("metadata", VObj metadata); ("errors", VArr errors);
        ("completed", VBool completed)].

(** The tracks of the weighted-merge test of [tests/utils/merge.test.ts],
    named as in the specification. *)
Definition scoreTrack (name : string) (score : Q) : string * Value :=
  (name, trackResult name [] [("score", VNum (Fin score))]
           [("confidence", VNum (Fin (1 # 2)))] [] true).

Definition weightedOptions (ws : list (string * Num)) : ConflictResolutionOptions :=
  mkOptions Weighted (Some ws) None None.

Definition noParse (_ : Value) : Num := NaN.

(** A stand-in for the members of arrays and built-ins, for tracks whose
    data are objects: there it is never looked at. *)
Definition noExotic (_ : string) (_ : Value) : option Value := None.

(** The error of the weighted strategy without a weights map. *)
Definition weightsRequired : Thrown :=
  ThrownError (newError "Weights required for weighted conflict resolution strategy").

(** Non-numeric values of two tracks, for the weighted strategy. *)
Definition labelTrack (name label : string) : string * Value :=
  (name, trackResult name [] [("key", VStr label)]
           [("confidence", VNum (Fin (1 # 2)))] [] true).

End Merge.

(** ** Pipeline executor ([src/core/pipeline.ts]) *)

Module Pipeline.

(** The [errors] array of a state is a reference into the store: the
    executor pushes onto it in place, and a spread ([{...state}]) copies the
    reference, not the array. *)
Definition Ref : Type := nat.

Record StepExecutionRecord : Type := mkRecord {
  stepName : string;
  recStartTime : Z;
  recEndTime : Z;
  success : bool;
  error : option Err;
  duration : Z
}.

Inductive ErrorHandling : Type := Stop | Continue | Rollback.

(** [PipelineConfig] without its [steps]. *)
Record PipelineSettings : Type := mkSettings {
  errorHandling : option ErrorHandling;
  maxRetries : option Z;
  retryDelay : option Z;
  backoffFactor : option Z;
  continueOnError : option bool;
  timeout : option Z;
  logLevel : option string
}.

(** [state.metadata].  The configuration stored under [pipelineConfig] keeps
    its steps by name; [extra] holds the open-ended properties. *)
Record Metadata : Type := mkMetadata {
  startTime : Z;
  endTime : option Z;
  stepHistory : list StepExecutionRecord;
  pipelineConfig : option (PipelineSettings * list string);
  extra : Obj
}.

(** [ResearchState]; [outputSchema] and the default model and search
    provider are opaque to the engine and left out. *)
Record ResearchState : Type := mkState {
  query : string;
  data : Obj;
  results : list Value;
  errors : Ref;
  metadata : Metadata
}.

(** The world a step runs in: the store of error arrays and the clock
    ([Date.now()], in milliseconds). *)
Record World : Type := mkWorld {
  arrays : list (list Err);
  now : Z
}.

Definition readArray (r : Ref) (w : World) : list Err := nth r (arrays w) [].

(** [[...xs]]: a fresh array. *)
Definition allocArray (xs : list Err) (w : World) : Ref * World :=
  (List.length (arrays w), mkWorld (arrays w ++ [xs]) (now w)).

Fixpoint updateNth {A} (n : nat) (f : A -> A) (l : list A) : list A :=
  match l, n with
  | [], _ => []
  | x :: l', O => f x :: l'
  | x :: l', S n' => x :: updateNth n' f l'
  end.

(** [array.push(e)] *)
Definition pushArray (r : Ref) (e : Err) (w : World) : World :=
  mkWorld (updateNth r (fun xs => xs ++ [e]) (arrays w)) (now w).

Definition Async : Type := ResearchState -> World -> Outcome ResearchState * World.

Record ResearchStep : Type := mkStep {
  name : string;
  execute : Async;
  rollback : option Async;
  retryable : bool;
  optional : bool
}.

Record PipelineConfig : Type := mkConfig {
  steps : list ResearchStep;
  settings : PipelineSettings
}.

Definition DEFAULT_PIPELINE_CONFIG : PipelineSettings :=
  mkSettings (Some Stop) (Some 3%Z) (Some 1000%Z) (Some 2%Z) (Some false)
             (Some 300000%Z) (Some "info").

(** What the executor does to the outside, in order. *)
Inductive Event : Type :=
| EvSetTimeout (ms : Z)
| EvClearTimeout
| EvExecute (step : string) (input : ResearchState)
| EvRollback (step : string) (input : ResearchState)
| EvRetry (attempt delay : Z)
| EvSleep (delay : Z)
| EvStampEnd (at_ : Z).

(** The executor's view: the world, the instant at which the global timer
    fires, and the events so far. *)
Record Engine : Type := mkEngine {
  world : World;
  deadline : Z;
  log : list Event
}.

Definition emit (e : Event) (eng : Engine) : Engine :=
  mkEngine (world eng) (deadline eng) (log eng ++ [e]).

Definition withWorld (w : World) (eng : Engine) : Engine :=
  mkEngine w (deadline eng) (log eng).

(** [await call(state)] as the race sees it.  The call is dispatched; if the
    clock reaches the deadline before it settles, the timer fires first and
    the result is [Resolved None]: nothing of the call in flight is seen, and
    the clock stands at the deadline.  Steps are never cancelled, so what
    the call does later is outside the run. *)
Definition awaitCall (call : Async) (state : ResearchState) (eng : Engine)
    : Outcome (option ResearchState) * Engine :=
  let '(r, w') := call state (world eng) in
  if (deadline eng <=? now w')%Z
  then (Resolved None,
        withWorld (mkWorld (arrays (world eng)) (Z.max (now (world eng)) (deadline eng)))
                  eng)
  else match r with
       | Resolved s => (Resolved (Some s), withWorld w' eng)
       | Rejected e => (Rejected e, withWorld w' eng)
       end.

(** [recordStepExecution] *)
Definition recordStepExecution (state : ResearchState) (step : ResearchStep)
    (success : bool) (error : option Err) (duration : Z) (w : World)
    : ResearchState * World :=
  let startTime := (now w - duration)%Z in
  let endTime := now w in
  let record :=
    mkRecord (name step) startTime endTime success error
             (if (duration =? 0)%Z then (endTime - startTime)%Z else duration) in
  let metadata' :=
    mkMetadata (Pipeline.startTime (metadata state)) (Pipeline.endTime (metadata state))
               (stepHistory (metadata state) ++ [record])
               (pipelineConfig (metadata state)) (extra (metadata state)) in
  match error with
  | Some e =>
      let '(r, w') := allocArray (readArray (errors state) w ++ [e]) w in
      (mkState (query state) (data state) (results state) r metadata', w')
  | None =>
      (mkState (query state) (data state) (results state) (errors state) metadata', w)
  end.

(** The normalisation in the [catch] of [executeStep]. *)
Definition toResearchError (stepName : string) (error : Thrown) : Err :=
  match error with
  | ThrownError e =>
      if isResearchError error then e
      else newBaseResearchError (message e) "step_execution_error" (Some stepName) None
  | ThrownValue _ =>
      newBaseResearchError ("Unknown error in step " ++ stepName)%string
                           "unknown_error" (Some stepName) None
  end.

(** The closure [executeStep] of [executeStepWithErrorHandling].  The log
    line of the [catch] is built before the failure is recorded, and
    building it can throw. *)
Definition executeStep (step : ResearchStep) (state : ResearchState) (eng : Engine)
    : Outcome (option ResearchState) * Engine :=
  let startTime := now (world eng) in
  let eng := emit (EvExecute (name step) state) eng in
  match awaitCall (execute step) state eng with
  | (Resolved None, eng') => (Resolved None, eng')
  | (Resolved (Some updatedState), eng') =>
      let duration := (now (world eng') - startTime)%Z in
      let '(s, w) := recordStepExecution updatedState step true None duration (world eng') in
      (Resolved (Some s), withWorld w eng')
  | (Rejected error, eng') =>
      let duration := (now (world eng') - startTime)%Z in
      let researchError := toResearchError (name step) error in
      match getFormattedMessage researchError with
      | Rejected typeError => (Rejected typeError, eng')
      | Resolved _ =>
          let '(s, w) :=
            recordStepExecution state step false (Some researchError) duration
                                (world eng') in
          (Resolved (Some s), withWorld w eng')
      end
  end.

(** [x || d] on an optional number. *)
Definition orElse (x : option Z) (d : Z) : Z :=
  match x with
  | Some v => if (v =? 0)%Z then d else v
  | None => d
  end.

(** The retry delay keeps the clock running. *)
Definition engineSleep (delay : Z) (eng : Engine) : Engine :=
  emit (EvSleep delay)
       (withWorld (mkWorld (arrays (world eng)) (now (world eng) + Z.max 0 delay)%Z) eng).

(** [onRetry] warns through the logger; the event keeps the call site. *)
Definition engineOnRetry (attempt : Z) (_ : Thrown) (delay : Z) (eng : Engine) : Engine :=
  emit (EvRetry attempt delay) eng.

Section Run.
(** [process.env.NODE_ENV === 'test'] *)
Variable testMode : bool.

(** [executeStepWithErrorHandling]: through the retry executor when the
    step is retryable and [config.maxRetries] is positive. *)
Definition executeStepWithErrorHandling (step : ResearchStep) (state : ResearchState)
    (config : PipelineSettings) (eng : Engine)
    : Outcome (option ResearchState) * Engine :=
  if retryable step
     && match maxRetries config with
        | Some m => negb (m =? 0)%Z && (0 <? m)%Z
        | None => false
        end
  then
    match Retry.executeWithRetry engineSleep (fun eng => eng) testMode
            (executeStep step state)
            (Retry.mkRetryOptions (maxRetries config)
               (Some (orElse (retryDelay config) 1000))
               (Some (orElse (backoffFactor config) 2))
               None (Some (Retry.notifying engineOnRetry)))
            eng with
    | (Resolved r, eng') => (Resolved r, eng')
    | (Rejected _, eng') => (Resolved (Some state), eng')
    end
  else executeStep step state eng.

(** Truthiness of an optional flag. *)
Definition optBool (b : option bool) : bool :=
  match b with Some true => true | _ => false end.

(** [errorHandling === k] *)
Definition isStrategy (h : option ErrorHandling) (k : ErrorHandling) : bool :=
  match h, k with
  | Some Stop, Stop | Some Continue, Continue | Some Rollback, Rollback => true
  | _, _ => false
  end.

(** The error pushed when a rollback fails. *)
Definition rollbackFailure (stepName : string) (rollbackError : Thrown) : Err :=
  match rollbackError with
  | ThrownError e =>
      if isResearchError rollbackError then e
      else newPipelineError
             ("Rollback for step " ++ quoted stepName ++ " failed: " ++ message e)%string
             (Some stepName) None
  | ThrownValue s =>
      newPipelineError
        ("Rollback for step " ++ quoted stepName ++ " failed: " ++ s)%string
        (Some stepName) None
  end.

(** [executeSteps]: the [for (const step of steps)] loop. *)
Fixpoint executeSteps (steps : list ResearchStep) (config : PipelineSettings)
      (state : ResearchState) (eng : Engine)
      : Outcome (option ResearchState) * Engine :=
  match steps with
  | [] => (Resolved (Some state), eng)
  | step :: rest =>
      match executeStepWithErrorHandling step state config eng with
      | (Rejected e, eng1) => (Rejected e, eng1)
      | (Resolved None, eng1) => (Resolved None, eng1)
      | (Resolved (Some updatedState), eng1) =>
          let state := updatedState in
          match rev (stepHistory (metadata state)) with
          | [] =>
              (Rejected (ThrownError
                 (newError "Cannot read properties of undefined (reading 'success')")),
               eng1)
          | latestExecution :: _ =>
              if success latestExecution
              then executeSteps rest config state eng1
              else if isStrategy (errorHandling config) Stop
                      && negb (optBool (continueOnError config))
              then (Resolved (Some state), eng1)
              else
                match (if isStrategy (errorHandling config) Rollback
                       then rollback step else None) with
                | Some rollback =>
                    let eng2 := emit (EvRollback (name step) state) eng1 in
                    match awaitCall rollback state eng2 with
                    | (Resolved None, eng3) => (Resolved None, eng3)
                    | (Resolved (Some rolled), eng3) =>
                        if negb (optBool (continueOnError config))
                        then (Resolved (Some rolled), eng3)
                        else executeSteps rest config rolled eng3
                    | (Rejected rollbackError, eng3) =>
                        let researchError := rollbackFailure (name step) rollbackError in
                        let eng4 :=
                          withWorld (pushArray (errors state) researchError (world eng3))
                                    eng3 in
                        if negb (optBool (continueOnError config))
                        then (Resolved (Some state), eng4)
                        else executeSteps rest config state eng4
                    end
                | None => executeSteps rest config state eng1
                end
          end
      end
  end.

(** [{...DEFAULT_PIPELINE_CONFIG, ...config}] *)
Definition orField {A} (given fallback : option A) : option A :=
  match given with Some _ => given | None => fallback end.

Definition mergeConfig (config : PipelineSettings) : PipelineSettings :=
  let d := DEFAULT_PIPELINE_CONFIG in
  mkSettings (orField (errorHandling config) (errorHandling d))
             (orField (maxRetries config) (maxRetries d))
             (orField (retryDelay config) (retryDelay d))
             (orField (backoffFactor config) (backoffFactor d))
             (orField (continueOnError config) (continueOnError d))
             (orField (timeout config) (timeout d))
             (orField (logLevel config) (logLevel d)).

Definition showTimeout (t : option Z) : string :=
  match t with Some z => showZ z | None => "undefined" end.

(** The rejection of the timer. *)
Definition timeoutError (fullConfig : PipelineSettings) : Err :=
  newPipelineError
    ("Pipeline execution timed out after " ++ showTimeout (timeout fullConfig) ++ "ms")%string
    (Some "pipeline") None.

(** The error pushed by the [catch] of [executePipeline]. *)
Definition pipelineFailure (error : Thrown) : Err :=
  match error with
  | ThrownError e =>
      if isResearchError error then e
      else newPipelineError (message e) (Some "pipeline") None
  | ThrownValue s => newPipelineError s (Some "pipeline") None
  end.

(** The state [executePipeline] starts from:
    [{...initialState, metadata: {...initialState.metadata, startTime, pipelineConfig}}]. *)
Definition startState (initialState : ResearchState) (steps : list ResearchStep)
      (fullConfig : PipelineSettings) (w : World) : ResearchState :=
  mkState (query initialState) (data initialState) (results initialState)
          (errors initialState)
          (mkMetadata (now w) (endTime (metadata initialState))
                      (stepHistory (metadata initialState))
                      (Some (fullConfig, map name steps))
                      (extra (metadata initialState))).

(** The [finally] block: clear the timer, stamp [metadata.endTime]. *)
Definition finish (state : ResearchState) (eng : Engine) : ResearchState * Engine :=
  let eng := emit EvClearTimeout eng in
  let t := now (world eng) in
  let eng := emit (EvStampEnd t) eng in
  (mkState (query state) (data state) (results state) (errors state)
           (mkMetadata (startTime (metadata state)) (Some t)
                       (stepHistory (metadata state))
                       (pipelineConfig (metadata state)) (extra (metadata state))),
   eng).

(** [executePipeline].  The returned promise always resolves. *)
Definition executePipeline (initialState : ResearchState) (steps : list ResearchStep)
    (config : PipelineSettings) (w : World) : ResearchState * Engine :=
  let fullConfig := mergeConfig config in
  let state := startState initialState steps fullConfig w in
  let ms := orElse (timeout fullConfig) 300000 in
  let eng := emit (EvSetTimeout ms) (mkEngine w (now w + ms)%Z []) in
  match executeSteps steps fullConfig state eng with
  | (Resolved (Some final), eng') => finish final eng'
  | (Resolved None, eng') =>
      let researchError := pipelineFailure (ThrownError (timeoutError fullConfig)) in
      finish state (withWorld (pushArray (errors state) researchError (world eng')) eng')
  | (Rejected error, eng') =>
      let researchError := pipelineFailure error in
      finish state (withWorld (pushArray (errors state) researchError (world eng')) eng')
  end.
End Run.

(** The names of the steps whose [execute] was invoked, in order. *)
Fixpoint executed (l : list Event) : list string :=
  match l with
  | [] => []
  | EvExecute n _ :: l' => n :: executed l'
  | _ :: l' => executed l'
  end.

(** The retry notifications and waits. *)
Definition isRetryEvent (e : Event) : bool :=
  match e with EvRetry _ _ | EvSleep _ => true | _ => false end.

Definition isStepEvent (e : Event) : bool :=
  match e with EvExecute _ _ | EvRollback _ _ => true | _ => false end.

Definition isClear (e : Event) : bool :=
  match e with EvClearTimeout => true | _ => false end.

Definition isStamp (e : Event) : bool :=
  match e with EvStampEnd _ => true | _ => false end.

(** The states handed to the [rollback] of the step called [n]. *)
Fixpoint rollbackInputs (n : string) (l : list Event) : list ResearchState :=
  match l with
  | [] => []
  | EvRollback m s :: l' =>
      if String.eqb n m then s :: rollbackInputs n l' else rollbackInputs n l'
  | _ :: l' => rollbackInputs n l'
  end.

(** What a run of the loop adds to the log, and that it adds nothing else. *)
Definition stepsOnly (steps : list ResearchStep) (eng eng' : Engine) : Prop :=
  exists delta k,
    log eng' = log eng ++ delta
    /\ forallb isStepEvent delta = true
    /\ executed delta = firstn k (map name steps)
    /\ (steps <> [] -> (1 <= k)%nat)
    /\ deadline eng' = deadline eng.

(** *** Sample steps and states *)

(** A fresh state as [createInitialState] builds it, its [errors] array
    being array [0] of the store. *)
Definition initialState (q : string) : ResearchState :=
  mkState q [] [] 0 (mkMetadata 0 None [] None [("confidenceScore", VNum (Fin 0))]).

Definition initialWorld : World := mkWorld [[]] 0.

(** A step that resolves after [ms] milliseconds with one more result. *)
Definition workStep (n : string) (ms : Z) : ResearchStep :=
  mkStep n
    (fun s w =>
       (Resolved (mkState (query s) (data s) (results s ++ [VObj [(n, VBool true)]])
                          (errors s) (metadata s)),
        mkWorld (arrays w) (now w + ms)%Z))
    None false false.

(** A step that rejects after [ms] milliseconds with a plain [Error]; its
    rollback marks [data.rolledBack]. *)
Definition failingStep (n : string) (ms : Z) (canRetry : bool) : ResearchStep :=
  mkStep n
    (fun s w => (Rejected (ThrownError (newError "Step failed")),
                 mkWorld (arrays w) (now w + ms)%Z))
    (Some (fun s w =>
             (Resolved (mkState (query s) (Js.set "rolledBack" (VBool true) (data s))
                                (results s) (errors s) (metadata s)), w)))
    canRetry false.

(** The same with a rollback that itself fails. *)
Definition brokenRollbackStep (n : string) : ResearchStep :=
  mkStep n
    (fun s w => (Rejected (ThrownError (newError "Step failed")), w))
    (Some (fun s w => (Rejected (ThrownError (newError "Rollback failed")), w)))
    false false.

(** A system error as Node reports it: an [Error] with a string [code]. *)
Definition systemError : Thrown :=
  ThrownError (mkErr PlainError "ENOENT: no such file or directory" (Some "ENOENT")
                     None false []).

(** A step that rejects at once with that error. *)
Definition systemFailureStep (n : string) (canRetry : bool) : ResearchStep :=
  mkStep n (fun s w => (Rejected systemError, w)) None canRetry false.

Definition noSettings : PipelineSettings :=
  mkSettings None None None None None None None.

Definition withTimeout (ms : Z) : PipelineSettings :=
  mkSettings None None None None None (Some ms) None.

Definition rollbackSettings (continue : bool) : PipelineSettings :=
  mkSettings (Some Rollback) None None None (Some continue) None None.

End Pipeline.

(** ** Steps over plain states ([src/utils/steps.ts]) *)

(** The track runner, the parallel runner and the flow-control loop never
    write into an object they were given: every update is a spread or a
    fresh array.  Their states are plain values. *)
Module Steps.

Record ResearchState : Type := mkState {
  query : string;
  data : Obj;
  results : list Value;
  errors : list Err;
  metadata : Obj
}.

(** [{...state, metadata: {...state.metadata, [k]: v}}] *)
Definition withMeta (k : string) (v : Value) (s : ResearchState) : ResearchState :=
  mkState (query s) (data s) (results s) (errors s) (Js.set k v (metadata s)).

(** [{...state, data: {...state.data, [k]: v}}] *)
Definition withData (k : string) (v : Value) (s : ResearchState) : ResearchState :=
  mkState (query s) (Js.set k v (data s)) (results s) (errors s) (metadata s).

(** [{...state, errors: [...state.errors, e]}] *)
Definition withError (e : Err) (s : ResearchState) : ResearchState :=
  mkState (query s) (data s) (results s) (errors s ++ [e]) (metadata s).

(** [error instanceof Error ? error : new Error(String(error))] *)
Definition asError (t : Thrown) : Err :=
  match t with
  | ThrownError e => e
  | ThrownValue s => newError s
  end.

Definition optStr (o : option string) : Value :=
  match o with Some s => VStr s | None => VUndefined end.

Definition natNum (n : nat) : Value := VNum (Fin (inject_Z (Z.of_nat n))).

Section World.
(** [W] is whatever the steps keep between calls. *)
Context {W : Type}.

Definition Async : Type := ResearchState -> W -> Outcome ResearchState * W.

Record ResearchStep : Type := mkStep {
  name : string;
  execute : Async;
  rollback : option Async;
  retryable : bool;
  optional : bool
}.

(** What a runner does, in order: the steps it calls with the state it
    hands them, the iterations it announces, the retries of a wrapper. *)
Inductive Event : Type :=
| EvCall (step : string) (input : ResearchState)
| EvThrew (step : string) (error : Thrown)
| EvIteration (n : Z)
| EvRetry (attempt delay : Z)
| EvSleep (delay : Z).

Record Engine : Type := mkEngine {
  world : W;
  log : list Event
}.

Definition emit (e : Event) (eng : Engine) : Engine :=
  mkEngine (world eng) (log eng ++ [e]).

(** [await step.execute(input)], the call and a rejection being noted. *)
Definition runStep (step : ResearchStep) (input : ResearchState) (eng : Engine)
    : Outcome ResearchState * Engine :=
  let '(r, w') := execute step input (world eng) in
  (r, mkEngine w'
        (log eng ++ EvCall (name step) input
                    :: match r with
                       | Resolved _ => []
                       | Rejected error => [EvThrew (name step) error]
                       end)).

Record StepCreationOptions : Type := mkCreation {
  c_retryable : option bool;
  c_optional : option bool;
  c_maxRetries : option Z;
  c_retryDelay : option Z;
  c_backoffFactor : option Z
}.

Definition Executor : Type := ResearchState -> Engine -> Outcome ResearchState * Engine.

(** The normalisation in the [catch] of [executeFunc]. *)
Definition toResearchError (stepName : string) (error : Thrown) : Err :=
  match error with
  | ThrownError e =>
      if isResearchError error then e
      else newBaseResearchError (message e) "step_execution_error" (Some stepName) None
  | ThrownValue _ =>
      newBaseResearchError ("Unknown error in step " ++ stepName)%string
                           "unknown_error" (Some stepName) None
  end.

(** [process.env.NODE_ENV === 'test'] *)
Variable testMode : bool.

(** The closure [executeFunc] of a created step.  The log line of its
    [catch] is built before the error is rethrown. *)
Definition executeFunc (stepName : string) (executor : Executor) (state : ResearchState)
    (eng : Engine) : Outcome ResearchState * Engine :=
  let updatedState := withMeta "currentStep" (VStr stepName) state in
  match executor updatedState eng with
  | (Resolved result, eng') => (Resolved result, eng')
  | (Rejected error, eng') =>
      let researchError := toResearchError stepName error in
      match getFormattedMessage researchError with
      | Rejected typeError => (Rejected typeError, eng')
      | Resolved _ => (Rejected (ThrownError researchError), eng')
      end
  end.

Definition optFlag (b : option bool) : bool :=
  match b with Some true => true | _ => false end.

(** [step.execute] of [createStep(name, executor, options, creationOptions)],
    with the runner's log kept. *)
Definition createStepRun (stepName : string) (executor : Executor)
    (creationOptions : StepCreationOptions) (state : ResearchState) (eng : Engine)
    : Outcome ResearchState * Engine :=
  if optFlag (c_retryable creationOptions)
  then Retry.executeWithRetry (fun d => emit (EvSleep d)) (fun eng => eng) testMode
         (executeFunc stepName executor state)
         (Retry.mkRetryOptions
            (Some (Retry.orDefault (c_maxRetries creationOptions) 3%Z))
            (Some (Retry.orDefault (c_retryDelay creationOptions) 1000%Z))
            (Some (Retry.orDefault (c_backoffFactor creationOptions) 2%Z))
            None
            (Some (Retry.notifying (fun attempt _ delay => emit (EvRetry attempt delay)))))
         eng
  else executeFunc stepName executor state eng.

(** [createStep]: seen from outside, the step only shows its outcome. *)
Definition createStep (stepName : string) (executor : Executor)
    (creationOptions : StepCreationOptions) : ResearchStep :=
  mkStep stepName
    (fun state w =>
       let '(r, eng') := createStepRun stepName executor creationOptions state
                           (mkEngine w []) in
       (r, world eng'))
    None
    (optFlag (c_retryable creationOptions))
    (optFlag (c_optional creationOptions)).

End World.

Arguments ResearchStep : clear implicits.
Arguments Engine : clear implicits.
Arguments Async : clear implicits.
Arguments Executor : clear implicits.

End Steps.

(** ** Track runner ([src/steps/track.ts]) *)

Module Track.
Import Steps.

Record RetryConfig : Type := mkRetry {
  r_maxRetries : option Z;
  r_baseDelay : option Z
}.

Section World.
Context {W : Type}.

Record TrackOptions : Type := mkTrack {
  t_name : string;
  t_steps : list (ResearchStep W);
  isolate : option bool;
  includeInResults : option bool;
  description : option string;
  t_metadata : option Obj;
  continueOnError : option bool;
  t_retry : option RetryConfig
}.

(** [new Date().toISOString()] as the world tells the time. *)
Variable isoNow : W -> string.
Variable testMode : bool.

(** [x ?? true] for [includeInResults = true] in the destructuring. *)
Definition defaultTrue (b : option bool) : bool :=
  match b with Some false => false | _ => true end.

(** [a || b] on strings. *)
Definition strOr (a b : string) : string :=
  if String.eqb a EmptyString then b else a.

(** [state.metadata.currentStep || fallback] *)
Definition currentStepOr (s : ResearchState) (fallback : string) : string :=
  match Js.field "currentStep" (VObj (metadata s)) with
  | VStr c => strOr c fallback
  | _ => fallback
  end.

(** ['step' in err], ['code' in err]: own properties of every research
    error, and of a plain error only when set. *)
Definition hasResearchFields (e : Err) : bool := instanceOf (cls e) BaseResearchError.

(** An error object as a value. *)
Definition errorValue (e : Err) : Value :=
  VObj ([("message", VStr (message e))]
        ++ (if hasResearchFields e
            then [("code", optStr (code e)); ("step", optStr (step e));
                  ("retry", VBool (retry e))]
            else (match code e with Some c => [("code", VStr c)] | None => [] end)
                 ++ (match step e with Some c => [("step", VStr c)] | None => [] end))).

(** The entry of [currentState.errors.map(...)] for one error. *)
Definition errorSummary (currentState : ResearchState) (err : Err) : Value :=
  VObj [("message", VStr (message err));
        ("step",
         if hasResearchFields err || match step err with Some _ => true | None => false end
         then optStr (step err)
         else VStr (currentStepOr currentState "unknown"));
        ("code",
         if hasResearchFields err || match code err with Some _ => true | None => false end
         then optStr (code err)
         else VStr "TRACK_STEP_ERROR")].

(** The [for (const step of steps)] loop inside the [try].  The result is
    what leaves the loop ([Rejected]: the error thrown out of it), the
    [currentState] at that point and the engine. *)
Fixpoint runTrackSteps (trackName : string) (continueOnError : bool)
    (steps : list (ResearchStep W)) (currentState : ResearchState) (eng : Engine W)
    : Outcome unit * ResearchState * Engine W :=
  match steps with
  | [] => (Resolved tt, currentState, eng)
  | step :: rest =>
      let currentState := withMeta "currentStep" (VStr (name step)) currentState in
      match runStep step currentState eng with
      | (Resolved next, eng') => runTrackSteps trackName continueOnError rest next eng'
      | (Rejected stepError, eng') =>
          let errorMessage := errorMessageOf stepError in
          let errorStep := currentStepOr currentState (strOr (name step) "unknown") in
          let currentState := withError (asError stepError) currentState in
          if negb continueOnError
          then (Rejected (ThrownError
                  (withDetails [("trackName", VStr trackName); ("failedStep", VStr errorStep)]
                     (newProcessingError
                        ("Track " ++ quoted trackName ++ " failed at step "
                         ++ quoted errorStep ++ ": " ++ errorMessage)%string
                        (Some "Track") (Some false)))),
                currentState, eng')
          else runTrackSteps trackName continueOnError rest currentState eng'
      end
  end.

(** [{...(state.data.tracks || {}), [name]: trackResult}] *)
Definition tracksWith (state : ResearchState) (trackName : string) (trackResult : Value)
    : Value :=
  VObj (Js.set trackName trackResult
          (match Js.or (Js.field "tracks" (VObj (data state))) (VObj []) with
           | VObj o => o
           | _ => []
           end)).

(** The track result of a run that reached the end of its steps. *)
Definition completedTrackResult (options : TrackOptions) (currentState : ResearchState)
    (w : W) : Value :=
  let metadata := match t_metadata options with Some m => m | None => [] end in
  VObj [("name", VStr (t_name options));
        ("results", VArr (results currentState));
        ("data", VObj (data currentState));
        ("metadata",
         VObj (Js.spread metadata
                 [("description", optStr (description options));
                  ("completedAt", VStr (isoNow w));
                  ("hasErrors", VBool (negb (Nat.eqb (List.length (errors currentState)) 0)));
                  ("errorCount", natNum (List.length (errors currentState)))]));
        ("errors", VArr (map (errorSummary currentState) (errors currentState)));
        ("completed", VBool (Nat.eqb (List.length (errors currentState)) 0))].

(** The best-effort track result built in the [catch]. *)
Definition failedTrackResult (options : TrackOptions) (currentState : ResearchState)
    (error : Thrown) (w : W) : Value :=
  let metadata := match t_metadata options with Some m => m | None => [] end in
  let errorMessage := errorMessageOf error in
  VObj [("name", VStr (t_name options));
        ("results", VArr (results currentState));
        ("data", VObj (data currentState));
        ("metadata",
         VObj (Js.spread metadata
                 [("description", optStr (description options));
                  ("error", VStr errorMessage);
                  ("failedAt", VStr (isoNow w));
                  ("failedStep", VStr (currentStepOr currentState "unknown"))]));
        ("errors",
         VArr (map errorValue (errors currentState)
               ++ [VObj [("message", VStr errorMessage);
                         ("step", VStr (currentStepOr currentState "unknown"));
                         ("code",
                          match error with
                          | ThrownError e =>
                              if hasResearchFields e
                                 || match code e with Some _ => true | None => false end
                              then optStr (code e)
                              else VStr "TRACK_EXECUTION_ERROR"
                          | ThrownValue _ => VStr "TRACK_EXECUTION_ERROR"
                          end)]]));
        ("completed", VBool false)].

(** The local [updatedState] of the [catch]: the caller's state with the
    failed track under [data.tracks[name]]. *)
Definition failedTrackState (state : ResearchState) (options : TrackOptions)
    (trackResult : Value) : ResearchState :=
  mkState (query state)
          (Js.set "tracks" (tracksWith state (t_name options) trackResult) (data state))
          (if defaultTrue (includeInResults options)
           then results state ++ [VObj [("track", trackResult)]]
           else results state)
          (errors state) (metadata state).

Definition retryEnabled (r : option RetryConfig) : bool :=
  match r with
  | Some cfg =>
      match r_maxRetries cfg with
      | Some m => negb (m =? 0)%Z && (0 <? m)%Z
      | None => false
      end
  | None => false   (* the default [{ maxRetries: 0, baseDelay: 1000 }] *)
  end.

(** The local state a track starts from. *)
Definition trackState (state : ResearchState) (options : TrackOptions) : ResearchState :=
  mkState (query state)
          (if optFlag (isolate options) then [] else data state)
          [] []
          (Js.spread
             (Js.set "trackDescription" (optStr (description options))
                (Js.set "currentTrack" (VStr (t_name options)) (metadata state)))
             (match t_metadata options with Some m => m | None => [] end)).

(** [executeTrackStep] *)
Definition executeTrackStep (state : ResearchState) (options : TrackOptions)
    (eng : Engine W) : Outcome ResearchState * Engine W :=
  let name := t_name options in
  let steps := t_steps options in
  let isolate := optFlag (isolate options) in
  let includeInResults := defaultTrue (includeInResults options) in
  let metadata := match t_metadata options with Some m => m | None => [] end in
  let continueOnError := optFlag (continueOnError options) in
  if String.eqb name EmptyString
  then (Rejected (ThrownError
          (newValidationError "Track name is required" (Some "Track") None)), eng)
  else match steps with
  | [] => (Rejected (ThrownError
             (newValidationError "Track requires at least one step" (Some "Track") None)),
           eng)
  | _ =>
      match runTrackSteps name continueOnError steps (trackState state options) eng with
      | (Resolved _, currentState, eng') =>
          let trackResult := completedTrackResult options currentState (world eng') in
          (Resolved
             (mkState (query state)
                (Js.set "tracks" (tracksWith state name trackResult)
                   (if isolate then data state else data currentState))
                (if includeInResults
                 then results state ++ [VObj [("track", trackResult)]]
                 else results state)
                (errors state) (Steps.metadata state)),
           eng')
      | (Rejected error, currentState, eng') =>
          let errorMessage := errorMessageOf error in
          let trackResult := failedTrackResult options currentState error (world eng') in
          let errorToThrow :=
            if thrownInstanceOf error ValidationError
               || thrownInstanceOf error ConfigurationError
               || thrownInstanceOf error ProcessingError
            then error
            else ThrownError
                   (withDetails [("trackName", VStr name);
                                 ("failedStep", VStr (currentStepOr currentState "unknown"))]
                      (newProcessingError
                         ("Track " ++ quoted name ++ " execution failed: "
                          ++ errorMessage)%string
                         (Some "Track") (Some false))) in
          let updatedState := failedTrackState state options trackResult in
          if retryEnabled (t_retry options)
          then (Resolved
                  (withMeta "retryError" (VStr errorMessage)
                     (withMeta "retryTrack" (VStr name) updatedState)),
                eng')
          else (Rejected errorToThrow, eng')
      end
  end.

(** [track(options)] *)
Definition track (options : TrackOptions) : ResearchStep W :=
  let maxRetries := match t_retry options with Some r => r_maxRetries r | None => None end in
  let baseDelay := match t_retry options with Some r => r_baseDelay r | None => None end in
  createStep testMode "Track"
    (fun state eng => executeTrackStep state options eng)
    (mkCreation
       (Some (match maxRetries with Some m => negb (m =? 0)%Z | None => false end))
       (Some false)
       (Some (match maxRetries with Some m => m | None => 0%Z end))
       (Some (match baseDelay with Some d => if (d =? 0)%Z then 1000%Z else d
                                 | None => 1000%Z end))
       (Some 2%Z)).

End World.

Arguments TrackOptions : clear implicits.

End Track.

(** ** Parallel runner ([src/steps/parallel.ts]) *)

Module Parallel.
Import Steps.

Section World.
Context {W : Type}.

Record ParallelOptions : Type := mkParallel {
  tracks : list (ResearchStep W);
  continueOnError : option bool;
  timeout : option Z;
  mergeFunction : option (Obj -> ResearchState -> Outcome Value);
  includeInResults : option bool;
  p_retry : option Track.RetryConfig
}.

Variable isoNow : W -> string.
Variable testMode : bool.

(** [track.name || `#${index + 1}`] *)
Definition trackLabel (track : ResearchStep W) (index : nat) : string :=
  Track.strOr (name track) ("#" ++ showZ (Z.of_nat (index + 1)))%string.

(** The state a rejecting track is turned into under [continueOnError]. *)
Definition failedTrackState (state : ResearchState) (track : ResearchStep W)
    (index : nat) (error : Thrown) : ResearchState :=
  let errorMessage := errorMessageOf error in
  mkState (query state) (data state) (results state)
    (errors state
     ++ [match error with
         | ThrownError e => e
         | ThrownValue _ =>
             withDetails [("trackName", VStr (name track));
                          ("trackIndex", natNum index)]
               (newParallelError
                  ("Track " ++ trackLabel track index ++ " failed: " ++ errorMessage)%string
                  (Some "Parallel") (Some false))
         end])
    (Js.set "parallelTrackErrors"
       (VArr ((match Js.or (Js.field "parallelTrackErrors" (VObj (metadata state)))
                           (VArr []) with
               | VArr items => items
               | _ => []
               end)
              ++ [VObj [("trackName",
                         VStr (Track.strOr (name track)
                                 ("unnamed-" ++ showZ (Z.of_nat index))%string));
                        ("error", VStr errorMessage)]]))
       (metadata state)).

(** One element of [trackPromises]. *)
Definition runTrack (continueOnError : bool) (state : ResearchState)
    (index : nat) (track : ResearchStep W) (eng : Engine W)
    : Outcome ResearchState * Engine W :=
  match runStep track state eng with
  | (Resolved trackState, eng') => (Resolved trackState, eng')
  | (Rejected error, eng') =>
      if testMode && negb continueOnError then (Rejected error, eng')
      else if continueOnError
      then (Resolved (failedTrackState state track index error), eng')
      else (Rejected error, eng')
  end.

(** [Promise.all(trackPromises)].  Every track is dispatched on the same
    [state]; the tracks settle in array order, so the first rejection is
    that of the first rejecting track. *)
Fixpoint runTracks (continueOnError : bool) (state : ResearchState)
    (index : nat) (tracks : list (ResearchStep W)) (eng : Engine W)
    : Outcome (list ResearchState) * Engine W :=
  match tracks with
  | [] => (Resolved [], eng)
  | track :: rest =>
      let '(r, eng1) := runTrack continueOnError state index track eng in
      let '(rs, eng2) := runTracks continueOnError state (S index) rest eng1 in
      match r, rs with
      | Rejected e, _ => (Rejected e, eng2)
      | Resolved _, Rejected e => (Rejected e, eng2)
      | Resolved s, Resolved ss => (Resolved (s :: ss), eng2)
      end
  end.

(** The accumulators of [trackStates.forEach]. *)
Record Collected : Type := mkCollected {
  trackResults : Obj;
  mergedData : Obj;
  allResults : list Value;
  allErrors : list Err
}.

Definition entriesOf (v : Value) : Obj :=
  match v with VObj o => o | _ => [] end.

Definition collect (acc : Collected) (trackState : ResearchState) : Collected :=
  mkCollected
    (let t := Js.field "tracks" (VObj (data trackState)) in
     if Js.truthy t then Js.spread (trackResults acc) (entriesOf t) else trackResults acc)
    (Js.spread (mergedData acc) (Js.without "tracks" (data trackState)))
    (allResults acc ++ results trackState)
    (allErrors acc ++ errors trackState).

(** [defaultMergeFunction] *)
Definition defaultMergeFunction (tracks : Obj) : Value :=
  VObj [("byTrack",
         VObj (fold_left
                 (fun byTrack entry =>
                    let '(trackName, trackResult) := entry in
                    Js.set trackName
                      (if Js.truthy (Js.field "completed" trackResult)
                       then VObj [("results", Js.field "results" trackResult);
                                  ("completed", VBool true)]
                       else VObj [("errors", Js.field "errors" trackResult);
                                  ("completed", VBool false)])
                      byTrack)
                 tracks []))].

Definition keysValue (o : Obj) : Value := VArr (map VStr (Js.keys o)).

(** The rejection of the shared timer. *)
Definition timeoutError (timeout : Z) : Err :=
  newSubclassError TimeoutError "timeout_error"
    ("Parallel execution timed out after " ++ showZ timeout ++ "ms")%string
    (Some "Parallel") (Some true).

(** The block after the race when all tracks have settled. *)
Definition mergeSettled (state : ResearchState) (options : ParallelOptions)
    (trackStates : list ResearchState) (w : W) : ResearchState :=
  let includeInResults := Track.defaultTrue (includeInResults options) in
  let c := fold_left collect trackStates
             (mkCollected [] (data state) (results state) (errors state)) in
  let trackResults := trackResults c in
  let mergedData := Js.set "tracks" (VObj trackResults) (mergedData c) in
  let merged :=
    match mergeFunction options with
    | Some f => f trackResults state
    | None => Resolved (defaultMergeFunction trackResults)
    end in
  let '(mergedResult, mergedData, allResults, allErrors) :=
    match merged with
    | Resolved mergedResult =>
        (mergedResult,
         if Js.truthy mergedResult && Js.truthy (Js.field "data" mergedResult)
         then Js.spread mergedData (entriesOf (Js.field "data" mergedResult))
         else mergedData,
         if includeInResults && Js.truthy mergedResult
         then allResults c
              ++ [VObj [("parallel",
                         VObj (Js.spread [("tracks", keysValue trackResults)]
                                 (entriesOf (Js.field "results" mergedResult))))]]
         else allResults c,
         allErrors c)
    | Rejected error =>
        (VUndefined, mergedData, allResults c,
         allErrors c
         ++ [withDetails [("trackCount", natNum (List.length trackResults))]
               (newParallelError
                  ("Failed to merge parallel results: " ++ errorMessageOf error)%string
                  (Some "ParallelMerge") (Some false))])
    end in
  let count := List.length trackResults in
  let completedTracks :=
    List.length (filter (fun t => Js.truthy (Js.field "completed" t))
                        (Js.values trackResults)) in
  let failedTracks := count - completedTracks in
  let successRate :=
    match count with
    | O => Fin 0
    | S _ => Fin (Z.of_nat completedTracks # Pos.of_nat count)
    end in
  mkState (query state)
    (Js.set "parallelMerged" mergedResult mergedData)
    allResults allErrors
    (Js.set "parallelCompletedAt" (VStr (isoNow w))
       (Js.set "parallelTracks"
          (VObj [("count", natNum count); ("completed", natNum completedTracks);
                 ("failed", natNum failedTracks); ("successRate", VNum successRate)])
          (metadata state))).

(** [executeParallelStep].  [timerFirst] tells how the race ends: whether
    the shared timer fires before all tracks have settled. *)
Definition executeParallelStep (timerFirst : bool) (state : ResearchState)
    (options : ParallelOptions) (eng : Engine W) : Outcome ResearchState * Engine W :=
  let continueOnError := Track.defaultTrue (continueOnError options) in
  let timeout := match timeout options with Some t => t | None => 300000%Z end in
  let rethrow (error : Thrown) : Thrown :=
    (* the outermost [catch] *)
    if thrownInstanceOf error ValidationError || thrownInstanceOf error ConfigurationError
       || thrownInstanceOf error TimeoutError || thrownInstanceOf error ParallelError
    then error
    else ThrownError
           (newParallelError
              ("Parallel execution failed to initialize: " ++ errorMessageOf error)%string
              (Some "Parallel") (Some false)) in
  match tracks options with
  | [] => (Rejected (rethrow (ThrownError
             (newValidationError "At least one track is required" (Some "Parallel") None))),
           eng)
  | _ =>
      if (timeout <=? 0)%Z
      then (Rejected (rethrow (ThrownError
              (newValidationError
                 ("Invalid timeout value: " ++ showZ timeout ++ ". Must be greater than 0.")%string
                 (Some "Parallel") None))),
            eng)
      else
        let '(settled, eng') := runTracks continueOnError state 0 (tracks options) eng in
        let raced :=
          if timerFirst then Rejected (ThrownError (timeoutError timeout)) else settled in
        match raced with
        | Resolved trackStates =>
            (Resolved (mergeSettled state options trackStates (world eng')), eng')
        | Rejected error =>
            if testMode && negb continueOnError
            then (Rejected (rethrow error), eng')
            else
              let parallelError :=
                match error with
                | ThrownError e => e
                | ThrownValue _ =>
                    newParallelError
                      ("Parallel execution failed: " ++ errorMessageOf error)%string
                      (Some "Parallel") (Some true)
                end in
              (Resolved
                 (mkState (query state) (data state) (results state)
                    (errors state ++ [parallelError])
                    (Js.set "parallelFailedAt" (VStr (isoNow (world eng')))
                       (Js.set "parallelError" (Track.errorValue parallelError)
                          (metadata state)))),
               eng')
        end
  end.

(** [parallel(options)] *)
Definition parallel (timerFirst : bool) (options : ParallelOptions) : ResearchStep W :=
  let maxRetries := match p_retry options with
                    | Some r => Track.r_maxRetries r | None => None end in
  let baseDelay := match p_retry options with
                   | Some r => Track.r_baseDelay r | None => None end in
  createStep testMode "Parallel"
    (fun state eng => executeParallelStep timerFirst state options eng)
    (mkCreation (Some true) (Some false)
       (Some (Pipeline.orElse maxRetries 1))
       (Some (Pipeline.orElse baseDelay 2000))
       (Some 2%Z)).

End World.

Arguments ParallelOptions : clear implicits.

(** *** The partial-failure scenario: three tracks, the second of which
    has a step that throws. *)

Definition okStep (n : string) : ResearchStep unit :=
  mkStep n (fun s w => (Resolved (withData n (VBool true) s), w)) None false false.

Definition throwingStep (n : string) : ResearchStep unit :=
  mkStep n (fun s w => (Rejected (ThrownError (newError "boom")), w)) None false false.

Definition clock (_ : unit) : string := "2026-01-01T00:00:00.000Z".

Definition trackOf (n : string) (steps : list (ResearchStep unit))
    : Track.TrackOptions unit :=
  Track.mkTrack n steps None None None None None None.

Definition threeTracks : ParallelOptions unit :=
  mkParallel
    [Track.track clock false (trackOf "A" [okStep "a"]);
     Track.track clock false (trackOf "B" [okStep "b1"; throwingStep "b2"]);
     Track.track clock false (trackOf "C" [okStep "c"])]
    None None None None None.

Definition emptyState : ResearchState := mkState "q" [] [] [] [].

(** The failing track alone, and the same with a track-level retry. *)
Definition failingTrack : Track.TrackOptions unit :=
  trackOf "B" [okStep "b1"; throwingStep "b2"].

Definition failingTrackWithRetry : Track.TrackOptions unit :=
  Track.mkTrack "B" [okStep "b1"; throwingStep "b2"] None None None None None
                (Some (Track.mkRetry (Some 1%Z) None)).

(** The error the failing track rejects with. *)
Definition failingTrackError : Err :=
  withDetails [("trackName", VStr "B"); ("failedStep", VStr "b2")]
    (newProcessingError
       ("Track " ++ quoted "B" ++ " failed at step " ++ quoted "b2" ++ ": boom")%string
       (Some "Track") (Some false)).

End Parallel.

(** ** Flow-control loop ([src/steps/flowControl.ts]) *)

Module FlowControl.
Import Steps.

Section World.
Context {W : Type}.

Record RepeatUntilOptions : Type := mkRepeat {
  maxIterations : option Z;
  throwOnMaxIterations : option bool;
  continueOnError : option bool;
  f_retry : option Track.RetryConfig
}.

Variable testMode : bool.

(** Whether the most recent evaluation in [conditionState.data.evaluations]
    (the last of [Object.keys]) is an object with a truthy [passed].  An
    array or [Object.prototype] as evaluation has no [passed]. *)
Definition conditionPassed (conditionState : ResearchState) : bool :=
  let evaluations :=
    Js.or (Js.field "evaluations" (VObj (data conditionState))) (VObj []) in
  match rev (Js.ownKeys evaluations) with
  | [] => false
  | evaluationKey :: _ =>
      if String.eqb evaluationKey EmptyString then false
      else
        match Js.get evaluationKey (Js.ownProperties evaluations) with
        | Some (VObj evaluation) =>
            Js.has "passed" evaluation && Js.truthy (Js.field "passed" (VObj evaluation))
        | _ => false
        end
  end.

(** The [for (const step of stepsToRepeat)] loop of one iteration.  Each
    step is called on [conditionState]. *)
Fixpoint runRepeated (continueOnError : bool) (iterations : Z)
    (steps : list (ResearchStep W)) (conditionState currentState : ResearchState)
    (iterationErrors : list Err) (eng : Engine W)
    : Outcome unit * ResearchState * list Err * Engine W :=
  match steps with
  | [] => (Resolved tt, currentState, iterationErrors, eng)
  | step :: rest =>
      match runStep step conditionState eng with
      | (Resolved next, eng') =>
          runRepeated continueOnError iterations rest conditionState next
                      iterationErrors eng'
      | (Rejected stepError, eng') =>
          let errorMessage := errorMessageOf stepError in
          let iterationErrors := iterationErrors ++ [asError stepError] in
          if negb continueOnError
          then (Rejected (ThrownError
                  (withDetails [("iteration", VNum (Fin (inject_Z iterations)));
                                ("step", VStr (name step))]
                     (newProcessingError
                        ("Step " ++ name step ++ " failed during iteration "
                         ++ showZ iterations ++ ": " ++ errorMessage)%string
                        (Some "RepeatUntil") (Some false)))),
                currentState, iterationErrors, eng')
          else runRepeated continueOnError iterations rest conditionState currentState
                           iterationErrors eng'
      end
  end.

(** The variables of the [while] loop. *)
Record LoopState : Type := mkLoop {
  currentState : ResearchState;
  iterations : Z;
  conditionMet : bool;
  iterationErrors : list Err
}.

(** The [while (iterations < maxIterations && !conditionMet)] loop;
    [remaining] is [maxIterations - iterations].  [Rejected]: an error
    leaves the loop. *)
Fixpoint loop (conditionStep : ResearchStep W) (stepsToRepeat : list (ResearchStep W))
    (continueOnError : bool) (remaining : nat) (st : LoopState) (eng : Engine W)
    : Outcome LoopState * Engine W :=
  match remaining with
  | O => (Resolved st, eng)
  | S remaining' =>
      let iterations := (iterations st + 1)%Z in
      let eng := emit (EvIteration iterations) eng in
      match runStep conditionStep (currentState st) eng with
      | (Rejected iterationError, eng1) =>
          let iterationErrors := iterationErrors st ++ [asError iterationError] in
          if negb continueOnError then (Rejected iterationError, eng1)
          else loop conditionStep stepsToRepeat continueOnError remaining'
                    (mkLoop (currentState st) iterations false iterationErrors) eng1
      | (Resolved conditionState, eng1) =>
          if conditionPassed conditionState
          then (Resolved (mkLoop conditionState iterations true (iterationErrors st)), eng1)
          else
            match runRepeated continueOnError iterations stepsToRepeat conditionState
                              (currentState st) (iterationErrors st) eng1 with
            | (Resolved _, current, errs, eng2) =>
                loop conditionStep stepsToRepeat continueOnError remaining'
                     (mkLoop current iterations false errs) eng2
            | (Rejected iterationError, current, errs, eng2) =>
                let errs := errs ++ [asError iterationError] in
                if negb continueOnError then (Rejected iterationError, eng2)
                else loop conditionStep stepsToRepeat continueOnError remaining'
                          (mkLoop current iterations false errs) eng2
            end
      end
  end.

Definition maxIterationsError (maxIterations completed : Z) (conditionStepName : string)
    : Err :=
  withDetails [("maxIterations", VNum (Fin (inject_Z maxIterations)));
               ("completedIterations", VNum (Fin (inject_Z completed)));
               ("conditionStepName", VStr conditionStepName)]
    (newMaxIterationsError
       ("Maximum iterations (" ++ showZ maxIterations
        ++ ") reached without meeting condition")%string
       (Some "RepeatUntil") (Some false)).

(** The bookkeeping written under [data.iterations[conditionStep.name]]. *)
Definition iterationRecord (maxIterations : Z) (st : LoopState) : Value :=
  VObj [("completed", VNum (Fin (inject_Z (iterations st))));
        ("conditionMet", VBool (conditionMet st));
        ("maxReached", VBool (maxIterations <=? iterations st)%Z);
        ("iterationErrors", VBool (negb (Nat.eqb (List.length (iterationErrors st)) 0)));
        ("errorCount", natNum (List.length (iterationErrors st)))].

Definition finalState (conditionStepName : string) (maxIterations : Z) (st : LoopState)
    : ResearchState :=
  let current := currentState st in
  mkState (query current)
    (Js.set "iterations"
       (VObj (Js.set conditionStepName (iterationRecord maxIterations st)
                (Parallel.entriesOf
                   (Js.or (Js.field "iterations" (VObj (data current))) (VObj [])))))
       (data current))
    (results current)
    (errors current ++ iterationErrors st)
    (Js.set "repeatUntilIterations" (VNum (Fin (inject_Z (iterations st))))
       (Js.set "repeatUntilConditionMet" (VBool (conditionMet st))
          (Js.set "repeatUntilComplete" (VBool true) (metadata current)))).

(** The executor handed to [createStep] by [repeatUntil]. *)
Definition repeatUntilBody (conditionStep : ResearchStep W)
    (stepsToRepeat : list (ResearchStep W)) (maxIterations : Z)
    (throwOnMaxIterations continueOnError : bool)
    (state : ResearchState) (eng : Engine W) : Outcome ResearchState * Engine W :=
  match loop conditionStep stepsToRepeat continueOnError (Z.to_nat maxIterations)
             (mkLoop state 0 false []) eng with
  | (Rejected error, eng') =>
      if thrownInstanceOf error ValidationError || thrownInstanceOf error ConfigurationError
         || thrownInstanceOf error ProcessingError
         || thrownInstanceOf error MaxIterationsError
      then (Rejected error, eng')
      else (Rejected (ThrownError
              (withDetails [("conditionStepName", VStr (name conditionStep))]
                 (newProcessingError
                    ("RepeatUntil execution failed: " ++ errorMessageOf error)%string
                    (Some "RepeatUntil") (Some false)))),
            eng')
  | (Resolved st, eng') =>
      if negb (conditionMet st) && throwOnMaxIterations
      then (Rejected (ThrownError
              (maxIterationsError maxIterations (iterations st) (name conditionStep))),
            eng')
      else (Resolved (finalState (name conditionStep) maxIterations st), eng')
  end.

Definition effectiveMaxIterations (options : RepeatUntilOptions) : Z :=
  match maxIterations options with Some n => n | None => 5%Z end.

Definition creationOptions (options : RepeatUntilOptions) : StepCreationOptions :=
  let maxRetries := match f_retry options with
                    | Some r => Track.r_maxRetries r
                    | None => Some 1%Z end in
  let baseDelay := match f_retry options with
                   | Some r => Track.r_baseDelay r
                   | None => Some 1000%Z end in
  mkCreation (Some true) None
    (Some (Pipeline.orElse maxRetries 1))
    (Some (Pipeline.orElse baseDelay 1000))
    (Some 2%Z).

(** [execute] of the step [repeatUntil] returns, with the runner's log. *)
Definition repeatUntilRun (conditionStep : ResearchStep W)
    (stepsToRepeat : list (ResearchStep W)) (options : RepeatUntilOptions)
    (state : ResearchState) (eng : Engine W) : Outcome ResearchState * Engine W :=
  createStepRun testMode "RepeatUntil"
    (repeatUntilBody conditionStep stepsToRepeat (effectiveMaxIterations options)
       (optFlag (throwOnMaxIterations options)) (optFlag (continueOnError options)))
    (creationOptions options) state eng.

(** [repeatUntil(conditionStep, stepsToRepeat, options)]: the validation
    throws before any step is built. *)
Definition repeatUntil (conditionStep : ResearchStep W)
    (stepsToRepeat : list (ResearchStep W)) (options : RepeatUntilOptions)
    : Outcome (ResearchStep W) :=
  match stepsToRepeat with
  | [] => Rejected (ThrownError
            (newValidationError "No steps to repeat provided to repeatUntil"
                                (Some "RepeatUntil") None))
  | _ =>
      if (effectiveMaxIterations options <=? 0)%Z
      then Rejected (ThrownError
             (newValidationError
                ("Invalid maxIterations value: " ++ showZ (effectiveMaxIterations options)
                 ++ ". Must be greater than 0.")%string
                (Some "RepeatUntil") None))
      else Resolved
             (createStep testMode "RepeatUntil"
                (repeatUntilBody conditionStep stepsToRepeat
                   (effectiveMaxIterations options)
                   (optFlag (throwOnMaxIterations options))
                   (optFlag (continueOnError options)))
                (creationOptions options))
  end.

End World.

Arguments RepeatUntilOptions : clear implicits.

(** The iterations announced in a log, and the errors thrown by the steps
    it called. *)
Fixpoint announced (l : list Event) : list Z :=
  match l with
  | [] => []
  | EvIteration n :: l' => n :: announced l'
  | _ :: l' => announced l'
  end.

Fixpoint thrownIn (l : list Event) : list Thrown :=
  match l with
  | [] => []
  | EvThrew _ e :: l' => e :: thrownIn l'
  | _ :: l' => thrownIn l'
  end.

(** The calls in a log, as (step, input) pairs. *)
Fixpoint calls (l : list Event) : list (string * ResearchState) :=
  match l with
  | [] => []
  | EvCall n s :: l' => (n, s) :: calls l'
  | _ :: l' => calls l'
  end.

(** *** Sample loops *)

(** A condition that records a failed evaluation under [done]. *)
Definition neverDone : ResearchStep unit :=
  mkStep "check"
    (fun s w =>
       (Resolved (withData "evaluations"
                    (VObj [("done", VObj [("passed", VBool false)])]) s), w))
    None false false.

(** A step that appends its name to [data.trail]. *)
Definition trailStep (n : string) : ResearchStep unit :=
  mkStep n
    (fun s w =>
       (Resolved (withData "trail"
                    (VArr (match Js.field "trail" (VObj (data s)) with
                           | VArr items => items
                           | _ => []
                           end ++ [VStr n])) s), w))
    None false false.

Definition options (n : Z) (throwOnMax continue : bool) : RepeatUntilOptions :=
  mkRepeat (Some n) (Some throwOnMax) (Some continue) None.

End FlowControl.

(** ** Further samples for the retry executor *)

Module RetryMore.
Import Retry.

(** An operation whose outcome depends on how many calls came before. *)
Definition scripted {T} (out : nat -> Outcome T) (t : Trace) : Outcome T * Trace :=
  (out (callCount t), t ++ [Call]).

(** Two transient failures, then the value [42]. *)
Definition failsTwice (i : nat) : Outcome Z :=
  if Nat.ltb i 2 then Rejected transientFailure else Resolved 42%Z.

(** The run ended with what one of the caller's callbacks threw:
    [retryableErrors] on some error, or [onRetry] in the world the run
    ended in. *)
Definition thrownByCallback {W T} (options : RetryOptions W) (run : Outcome T * W)
    : Prop :=
  (exists pred e thrown,
      retryableErrors options = Some pred
      /\ pred e = Rejected thrown
      /\ fst run = Rejected thrown)
  \/ (exists note attempt e delay w thrown,
         onRetry options = Some note
         /\ note attempt e delay w = (Rejected thrown, snd run)
         /\ fst run = Rejected thrown).

End RetryMore.

(** ** Further notions and samples for the merger *)

Module MergeMore.
Import Merge.

(** The strategies that choose among the collected values. *)
Definition selecting (s : Strategy) : bool :=
  match s with
  | First | Last | MostConfident | Majority => true
  | Weighted | Custom => false
  end.

(** [key !== 'tracks'] *)
Definition merged_key (key : string) : bool := negb (String.eqb key "tracks").

(** A property name that is neither an array index, which [Object.keys]
    lists first, nor a name that [Object.prototype] defines. *)
Definition ordinary (k : string) : bool :=
  negb (Js.isArrayIndex k) && negb (Js.inherited k).

(** Data as the track runner writes it: nothing, or an object whose
    property names are ordinary. *)
Definition plainData (data : Value) : bool :=
  match data with
  | VObj o => forallb (fun kv => ordinary (fst kv)) o
  | _ => negb (Js.truthy data)
  end.

(** A track that is not [null] or [undefined] and has plain data. *)
Definition plainTrack (track : Value) : bool :=
  match track with
  | VUndefined | VNull => false
  | _ => plainData (Js.field "data" track)
  end.

(** Plain tracks under names that are no array indices: [Object.entries]
    lists them in the order they were added. *)
Definition plainTracks (tracks : list (string * Value)) : bool :=
  forallb (fun entry => negb (Js.isArrayIndex (fst entry)) && plainTrack (snd entry))
          tracks.

(** What a track holds under [key] in its own data, with the metadata the
    merger puts next to it. *)
Definition held (key : string) (entry : string * Value) : option (Value * Meta) :=
  let '(name, track) := entry in
  match Js.field "data" track with
  | VObj o =>
      match Js.get key o with
      | Some v =>
          Some (v,
                mkMeta name
                  (Js.or (Js.field "confidence" (Js.field "metadata" track))
                         (VNum (Fin (1 # 2))))
                  (Js.field "completedAt" (Js.field "metadata" track)))
      | None => None
      end
  | _ => None
  end.

(** What the tracks hold under [key], in the order of the tracks. *)
Fixpoint allHeld (key : string) (trackEntries : list (string * Value))
      : list (Value * Meta) :=
  match trackEntries with
  | [] => []
  | entry :: rest =>
      match held key entry with
      | Some c => c :: allHeld key rest
      | None => allHeld key rest
      end
  end.

(** The names of a track's own data, in the order of their creation. *)
Definition heldKeys (track : Value) : list string :=
  match Js.field "data" track with
  | VObj o => map fst o
  | _ => []
  end.

(** The names of the data of all tracks, each once, in order of first
    appearance. *)
Definition allHeldKeys (trackEntries : list (string * Value)) : list string :=
  fold_left (fun acc entry => fold_left addKey (heldKeys (snd entry)) acc)
            trackEntries [].

(** The value the resolver gives for a key. *)
Definition resolved (parseNumber : Value -> Num) (tracks : list (string * Value))
    (options : ConflictResolutionOptions) (key : string) : Outcome Value :=
  resolveConflict parseNumber (map fst (allHeld key tracks))
                  (map snd (allHeld key tracks)) options.

(** A key that is merged: not [tracks], and held by some track. *)
Definition wanted (tracks : list (string * Value)) (key : string) : bool :=
  merged_key key && match allHeld key tracks with [] => false | _ => true end.

(** The confidence [q] a track counts with in the merge,
    [track.metadata?.confidence || 0.5]: its own confidence when that is a
    finite number other than 0, and 0.5 when it has none or it is 0. *)
Definition countsWith (track : Value) (q : Q) : Prop :=
  match Js.field "confidence" (Js.field "metadata" track) with
  | VNum (Fin c) => if Qeq_bool c 0 then q = (1 # 2)%Q else q = c
  | VUndefined => q = (1 # 2)%Q
  | _ => False
  end.

(** Data that is a truthy primitive: the [in] operator throws on it. *)
Definition primitiveData (track : Value) : bool :=
  match Js.field "data" track with
  | VStr _ | VBool _ | VNum _ => Js.truthy (Js.field "data" track)
  | _ => false
  end.

(** The metadata of a contribution carries the finite confidence [q]. *)
Definition confidenceIs (c : Value * Meta) (q : Q) : Prop :=
  confidence (snd c) = VNum (Fin q).

(** A track of [tests/utils/merge.test.ts] with its confidence. *)
Definition confidentTrack (name label : string) (conf : Q) : string * Value :=
  (name, trackResult name [] [("key", VStr label)]
           [("confidence", VNum (Fin conf))] [] true).

(** A track that puts its confidence at 0. *)
Definition unsureTrack (name label : string) : string * Value :=
  confidentTrack name label 0.

(** A track with one data entry of its own. *)
Definition keyedTrack (name key label : string) : string * Value :=
  (name, trackResult name [] [(key, VStr label)]
           [("confidence", VNum (Fin (1 # 2)))] [] true).

End MergeMore.

(** ** Further notions for the pipeline executor *)

Module PipelineMore.
Import Pipeline.

(** A step that keeps to its contract: it takes no time on the clock,
    leaves the store of error arrays alone, returns a state with the
    [errors] array and the [stepHistory] it was given (a spread of its
    input), and throws no [Error] that carries a string [code] without
    being a [BaseResearchError]. *)
Definition wellBehaved (step : ResearchStep) : Prop :=
  forall s w,
    snd (execute step s w) = w
    /\ (forall s', fst (execute step s w) = Resolved s' ->
                   errors s' = errors s
                   /\ stepHistory (metadata s') = stepHistory (metadata s))
    /\ (forall e, fst (execute step s w) = Rejected e ->
                  foreignResearchError e = false).

(** The [TypeError] of reading [success] off the latest record of an empty
    history. *)
Definition noLatestExecution : Thrown :=
  ThrownError (newError "Cannot read properties of undefined (reading 'success')").

(** No step of the list throws a foreign research error. *)
Definition recordableFailures (steps : list ResearchStep) : Prop :=
  forall step, In step steps ->
  forall s w e w', execute step s w = (Rejected e, w') -> foreignResearchError e = false.

(** The errors of the failed executions of a history. *)
Definition recordedErrors (records : list StepExecutionRecord) : list Err :=
  flat_map (fun r => match error r with Some e => [e] | None => [] end) records.

(** [errorHandling === 'stop' && !continueOnError] *)
Definition halts (config : PipelineSettings) : bool :=
  isStrategy (errorHandling config) Stop && negb (optBool (continueOnError config)).

(** No rollback is due for the step: the policy is not ['rollback'], or
    the step has none. *)
Definition noRollbackFor (config : PipelineSettings) (step : ResearchStep) : Prop :=
  isStrategy (errorHandling config) Rollback = true -> rollback step = None.

(** What the record of one execution says, given how the call settled. *)
Definition recordOf (step : ResearchStep) (settled : Outcome ResearchState)
    (r : StepExecutionRecord) : Prop :=
  stepName r = name step
  /\ match settled with
     | Resolved _ => success r = true /\ error r = None
     | Rejected e => success r = false /\ error r = Some (toResearchError (name step) e)
     end.

(** A step that resolves at once with one more result. *)
Definition okStep (n : string) : ResearchStep :=
  mkStep n
    (fun s w =>
       (Resolved (mkState (query s) (data s) (results s ++ [VObj [(n, VBool true)]])
                          (errors s) (metadata s)), w))
    None false false.

(** A step that rejects at once with a plain [Error]. *)
Definition badStep (n : string) : ResearchStep :=
  mkStep n (fun s w => (Rejected (ThrownError (newError "Step failed")), w))
         None false false.

Definition continueSettings : PipelineSettings :=
  mkSettings (Some Continue) None None None None None None.

End PipelineMore.

(** ** Wrapping a step ([wrapStepWithErrorHandling] of [src/utils/steps.ts]) *)

Module StepsMore.
Import Steps.

Section World.
Context {W : Type}.

(** [process.env.NODE_ENV === 'test'] *)
Variable testMode : bool.

(** [creationOptions.retryable ?? step.retryable ?? false] *)
Definition wrappedRetryable (step : ResearchStep W)
    (creationOptions : StepCreationOptions) : bool :=
  Retry.orDefault (c_retryable creationOptions) (retryable step).

(** [wrappedStep.execute], with the runner's log kept.  Its [executeFunc]
    is the one of [createStep] around [step.execute]. *)
Definition wrapStepRun (step : ResearchStep W) (creationOptions : StepCreationOptions)
    (state : ResearchState) (eng : Engine W) : Outcome ResearchState * Engine W :=
  if wrappedRetryable step creationOptions
  then Retry.executeWithRetry (fun d => emit (EvSleep d)) (fun eng => eng) testMode
         (executeFunc (name step) (runStep step) state)
         (Retry.mkRetryOptions
            (Some (Retry.orDefault (c_maxRetries creationOptions) 3%Z))
            (Some (Retry.orDefault (c_retryDelay creationOptions) 1000%Z))
            (Some (Retry.orDefault (c_backoffFactor creationOptions) 2%Z))
            None
            (Some (Retry.notifying (fun attempt _ delay => emit (EvRetry attempt delay)))))
         eng
  else executeFunc (name step) (runStep step) state eng.

(** [wrapStepWithErrorHandling]: the rollback of the wrapper awaits the
    step's rollback and rethrows what it throws. *)
Definition wrapStepWithErrorHandling (step : ResearchStep W)
    (creationOptions : StepCreationOptions) : ResearchStep W :=
  mkStep (name step)
    (fun state w =>
       let '(r, eng') := wrapStepRun step creationOptions state (mkEngine w []) in
       (r, world eng'))
    (rollback step)
    (wrappedRetryable step creationOptions)
    (Retry.orDefault (c_optional creationOptions) (optional step)).

End World.

(** The error a created step can retry: a research error that is a
    [BaseResearchError] with [retry === true]. *)
Definition retriedError (e : Thrown) : bool :=
  isResearchError e && Retry.defaultIsRetryable e.

(** What the [catch] of [executeFunc] throws for the error [e] of the
    executor. *)
Definition rethrown (stepName : string) (e : Thrown) : Thrown :=
  if foreignResearchError e
  then notAFunction "researchError.getFormattedMessage"
  else ThrownError (toResearchError stepName e).

(** The executor throws no foreign research error on this input. *)
Definition throwsRecordable {W} (executor : Executor W) (input : ResearchState)
    (eng : Engine W) : Prop :=
  forall e eng', executor input eng = (Rejected e, eng') -> foreignResearchError e = false.

(** An executor that throws a plain [Error]. *)
Definition throwingExecutor : Executor unit :=
  fun _ eng => (Rejected (ThrownError (newError "boom")), eng).

(** An executor that adds one result. *)
Definition addingExecutor : Executor unit :=
  fun s eng =>
    (Resolved (mkState (query s) (data s) (results s ++ [VBool true]) (errors s)
                       (metadata s)), eng).

Definition retryableCreation : StepCreationOptions :=
  mkCreation (Some true) None (Some 3%Z) None None.

Definition plainCreation : StepCreationOptions :=
  mkCreation None None None None None.

Definition plainState : ResearchState := mkState "q" [] [] [] [].

End StepsMore.

(** ** Further notions for the track runner *)

Module TrackMore.
Import Steps Track.

(** The error a track throws when one of its steps fails and
    [continueOnError] is off. *)
Definition trackFailure (trackName stepName : string) (stepError : Thrown) : Thrown :=
  ThrownError
    (withDetails [("trackName", VStr trackName);
                  ("failedStep", VStr (strOr stepName "unknown"))]
       (newProcessingError
          ("Track " ++ quoted trackName ++ " failed at step "
           ++ quoted (strOr stepName "unknown") ++ ": "
           ++ errorMessageOf stepError)%string
          (Some "Track") (Some false))).

(** A step that returns the [errors] array it was given. *)
Definition keepsErrors {W} (step : ResearchStep W) : Prop :=
  forall s w s' w', execute step s w = (Resolved s', w') -> errors s' = errors s.

(** The entry of a track in [state.data.tracks]. *)
Definition trackEntry (trackName : string) (s : ResearchState) : Value :=
  Js.field trackName (Js.field "tracks" (VObj (data s))).

(** The keys a track-level retry adds to the metadata. *)
Definition retryKey (k : string) : bool :=
  String.eqb k "retryTrack" || String.eqb k "retryError".

(** A step that sets [data.seen]. *)
Definition markStep (n : string) : ResearchStep unit :=
  mkStep n (fun s w => (Resolved (withData "seen" (VStr n) s), w)) None false false.

(** A step that throws a plain [Error]. *)
Definition brokenStep (n : string) : ResearchStep unit :=
  mkStep n (fun s w => (Rejected (ThrownError (newError "no luck")), w)) None false false.

Definition sampleTrack (continue isolated : bool) : TrackOptions unit :=
  mkTrack "web" [markStep "search"; brokenStep "extract"; markStep "rank"]
          (Some isolated) None None None (Some continue) None.

Definition parentState : ResearchState :=
  mkState "q" [("topic", VStr "energy")] [] [] [].

End TrackMore.

(** ** Further notions for the parallel runner *)

Module ParallelMore.
Import Steps Parallel.

(** [timeout = 300000] of the destructuring. *)
Definition effectiveTimeout {W} (options : ParallelOptions W) : Z :=
  match timeout options with Some t => t | None => 300000%Z end.

(** [process.env.NODE_ENV === 'test' && !continueOnError] *)
Definition failsFast {W} (testMode : bool) (options : ParallelOptions W) : bool :=
  testMode && negb (Track.defaultTrue (continueOnError options)).

(** The call each track is started with. *)
Definition dispatch {W} (state : ResearchState) (track : ResearchStep W)
    : string * ResearchState :=
  (name track, state).

(** What [trackStates.forEach] has collected from the states of the tracks. *)
Definition collected (state : ResearchState) (trackStates : list ResearchState)
    : Collected :=
  fold_left collect trackStates
            (mkCollected [] (data state) (results state) (errors state)).

(** The error recorded when the merge function throws. *)
Definition mergeFailure (trackCount : nat) (error : Thrown) : Err :=
  withDetails [("trackCount", natNum trackCount)]
    (newParallelError
       ("Failed to merge parallel results: " ++ errorMessageOf error)%string
       (Some "ParallelMerge") (Some false)).

(** A track that cannot reject: it has a name and steps, and goes on after
    a failing step. *)
Definition tolerant {W} (o : Track.TrackOptions W) : Prop :=
  Track.t_name o <> EmptyString
  /\ Track.t_steps o <> []
  /\ Track.continueOnError o = Some true.

(** The number of tracks that add their result to [state.results]. *)
Definition includedTracks {W} (trackOptions : list (Track.TrackOptions W)) : nat :=
  List.length (filter (fun o => Track.defaultTrue (Track.includeInResults o))
                      trackOptions).

(** The outcome of the merge function on what was collected. *)
Definition mergeOutcome {W} (options : ParallelOptions W) (state : ResearchState)
    (trackStates : list ResearchState) : Outcome Value :=
  match mergeFunction options with
  | Some f => f (trackResults (collected state trackStates)) state
  | None => Resolved (defaultMergeFunction (trackResults (collected state trackStates)))
  end.

(** Tracks made by [track()] that go on after a failing step. *)
Definition tolerantTrack (n : string) (steps : list (ResearchStep unit))
    : ResearchStep unit :=
  Track.track clock false
    (Track.mkTrack n steps None None None None (Some true) None).

Definition twoTracks : ParallelOptions unit :=
  mkParallel [tolerantTrack "A" [okStep "a"];
              tolerantTrack "B" [okStep "b1"; throwingStep "b2"]]
             None None None None None.

(** A parent state that already holds an error and a result. *)
Definition usedState : ResearchState :=
  mkState "q" [] [VStr "earlier"] [newError "earlier failure"] [].

(** A merge function that throws. *)
Definition throwingMerge (_ : Obj) (_ : ResearchState) : Outcome Value :=
  Rejected (ThrownError (newError "cannot merge")).

End ParallelMore.

(** ** The evaluation step ([executeEvaluateStep], [evaluate] of
    [src/steps/flowControl.ts]) *)

Module Evaluate.
Import Steps.

(** [typeof v] on the values of the embedding. *)
Definition typeOf (v : Value) : string :=
  match v with
  | VUndefined => "undefined"
  | VBool _ => "boolean"
  | VNum _ => "number"
  | VStr _ => "string"
  | VNull | VArr _ | VObj _ => "object"
  | VBuiltin k => if String.eqb k "__proto__" then "object" else "function"
  end.

(** [a < b] *)
Definition lessThan (a b : Num) : bool := JsNum.gt b a.

(** [Math.max(a, b)] *)
Definition mathMax (a b : Num) : Num :=
  match a, b with
  | NaN, _ | _, NaN => NaN
  | _, _ => if JsNum.gt b a then b else a
  end.

(** [result ? 0.5 + confidenceThreshold * 0.5 : 0.5 - confidenceThreshold * 0.5] *)
Definition confidenceScore (result : bool) (confidenceThreshold : Num) : Num :=
  if result
  then JsNum.add (Fin (1 # 2)) (JsNum.mul confidenceThreshold (Fin (1 # 2)))
  else JsNum.sub (Fin (1 # 2)) (JsNum.mul confidenceThreshold (Fin (1 # 2))).

(** [state.data.evaluations || {}], as the properties that are spread. *)
Definition evaluationsOf (state : ResearchState) : Obj :=
  Js.ownProperties (Js.or (Js.field "evaluations" (VObj (data state))) (VObj [])).

(** The [ProcessingError] of the inner [catch]. *)
Definition criteriaFailure (criteriaName : string) (error : Thrown) : Thrown :=
  ThrownError
    (withDetails [("criteriaName", VStr criteriaName)]
       (newProcessingError
          ("Failed to execute evaluation criteria " ++ quoted criteriaName ++ ": "
           ++ errorMessageOf error)%string
          (Some "Evaluate") (Some true))).

(** What the inner [try] throws for a result that is not a boolean. *)
Definition notBoolean (result : Value) : Thrown :=
  ThrownError
    (newValidationError
       ("Criteria function must return a boolean value, got " ++ typeOf result)%string
       (Some "Evaluate") None).

(** The outer [catch]. *)
Definition evaluationFailure (criteriaName : string) (error : Thrown) : Thrown :=
  if thrownInstanceOf error ValidationError || thrownInstanceOf error ConfigurationError
     || thrownInstanceOf error ProcessingError
  then error
  else ThrownError
         (withDetails [("criteriaName", VStr criteriaName)]
            (newProcessingError
               ("Evaluation " ++ quoted criteriaName ++ " failed: "
                ++ errorMessageOf error)%string
               (Some "Evaluate") (Some true))).

Section World.
Context {W : Type}.

(** [new Date().toISOString()], the language's [ToNumber] on non-numbers
    and its rendering of a number inside a template string. *)
Variable isoNow : W -> string.
Variable parseNumber : Value -> Num.
Variable showNum : Num -> string.
Variable testMode : bool.

Record EvaluateOptions : Type := mkEvaluate {
  criteriaFn : option (ResearchState -> W -> Outcome Value * W);
  criteriaName : option string;
  confidenceThreshold : option Num;
  storeResult : option bool;
  e_retry : option Track.RetryConfig
}.

(** [criteriaName = 'CustomEvaluation'], [confidenceThreshold = 0.7] *)
Definition effectiveName (options : EvaluateOptions) : string :=
  Retry.orDefault (criteriaName options) "CustomEvaluation".

Definition effectiveThreshold (options : EvaluateOptions) : Num :=
  Retry.orDefault (confidenceThreshold options) (Fin (7 # 10)).

(** [confidenceThreshold < 0 || confidenceThreshold > 1] *)
Definition thresholdOutOfRange (options : EvaluateOptions) : bool :=
  lessThan (effectiveThreshold options) (Fin 0)
  || JsNum.gt (effectiveThreshold options) (Fin 1).

(** The object stored under [data.evaluations[criteriaName]]. *)
Definition evaluationResult (criteriaName : string) (result : bool) (score : Num)
    (w : W) : Value :=
  VObj [("passed", VBool result);
        ("confidenceScore", VNum score);
        ("timestamp", VStr (isoNow w));
        ("criteria", VStr criteriaName)].

(** The state returned when the result is stored. *)
Definition storedState (state : ResearchState) (criteriaName : string) (result : bool)
    (score : Num) (w : W) : ResearchState :=
  mkState (query state)
    (Js.set "evaluations"
       (VObj (Js.set criteriaName (evaluationResult criteriaName result score w)
                (evaluationsOf state)))
       (data state))
    (results state) (errors state)
    (Js.set "confidenceScore"
       (VNum (mathMax
                (Js.toNumber parseNumber
                   (Js.or (Js.field "confidenceScore" (VObj (metadata state)))
                          (VNum (Fin 0))))
                score))
       (Js.set "lastEvaluationResult" (VBool result)
          (Js.set "lastEvaluation" (VStr criteriaName) (metadata state)))).

(** [executeEvaluateStep] *)
Definition executeEvaluateStep (state : ResearchState) (options : EvaluateOptions)
    (eng : Engine W) : Outcome ResearchState * Engine W :=
  let criteriaName := effectiveName options in
  let confidenceThreshold := effectiveThreshold options in
  match criteriaFn options with
  | None =>
      (Rejected (evaluationFailure criteriaName
                   (ThrownError
                      (newValidationError "No criteria function provided for evaluation"
                                          (Some "Evaluate") None))),
       eng)
  | Some criteriaFn =>
      if thresholdOutOfRange options
      then (Rejected (evaluationFailure criteriaName
                        (ThrownError
                           (newValidationError
                              ("Invalid confidence threshold: "
                               ++ showNum confidenceThreshold
                               ++ ". Must be between 0 and 1.")%string
                              (Some "Evaluate") None))),
            eng)
      else
        let '(settled, w') := criteriaFn state (world eng) in
        let eng' := mkEngine w' (log eng) in
        match settled with
        | Resolved (VBool result) =>
            let score := confidenceScore result confidenceThreshold in
            if Track.defaultTrue (storeResult options)
            then (Resolved (storedState state criteriaName result score w'), eng')
            else (Resolved state, eng')
        | Resolved result =>
            (Rejected (evaluationFailure criteriaName
                         (criteriaFailure criteriaName (notBoolean result))),
             eng')
        | Rejected error =>
            (Rejected (evaluationFailure criteriaName
                         (criteriaFailure criteriaName error)),
             eng')
        end
  end.

(** [evaluate(options)] *)
Definition evaluate (options : EvaluateOptions) : ResearchStep W :=
  createStep testMode "Evaluate"
    (fun state eng => executeEvaluateStep state options eng)
    (mkCreation None None None None None).

End World.

Arguments EvaluateOptions : clear implicits.

(** The cause that the inner [catch] wraps: what the criteria function
    threw, or the complaint about a result that is not a boolean. *)
Definition causeOf (settled : Outcome Value) : option Thrown :=
  match settled with
  | Resolved (VBool _) => None
  | Resolved result => Some (notBoolean result)
  | Rejected error => Some error
  end.

(** *** Sample criteria *)

(** Enough search results? *)
Definition enoughResults (n : nat) (s : ResearchState) (w : unit)
    : Outcome Value * unit :=
  (Resolved (VBool (Nat.leb n (List.length (results s)))), w).

(** A criteria function that returns a number. *)
Definition countingCriteria (s : ResearchState) (w : unit) : Outcome Value * unit :=
  (Resolved (VNum (Fin 1)), w).

Definition showAny (_ : Num) : string := "n".

Definition criteriaOptions (fn : ResearchState -> unit -> Outcome Value * unit)
    : EvaluateOptions unit :=
  mkEvaluate (Some fn) None None None None.

End Evaluate.

(** ** Merging track results ([ResultMerger.mergeTrackResults],
    [createMergeFunction] of [src/utils/merge.ts]) *)

Module MergeResults.
Import Merge.

(** [Object.keys(result)[0]] as a property name; [None] where
    [Object.keys] throws (on [null] and [undefined]).  A string and an array
    have their indices as keys. *)
Definition resultType (result : Value) : option string :=
  match result with
  | VUndefined | VNull => None
  | VObj o => Some (match Js.keys o with k :: _ => k | [] => "undefined" end)
  | VArr items => Some (match items with _ :: _ => "0" | [] => "undefined" end)
  | VStr s => Some (match s with String _ _ => "0" | EmptyString => "undefined" end)
  | VBool _ | VNum _ | VBuiltin _ => Some "undefined"
  end.

(** [result[type]] for the [type] found above. *)
Definition member (type : string) (result : Value) : Value :=
  match result with
  | VObj _ => Js.field type result
  | VArr items => if String.eqb type "0" then nth 0 items VUndefined else VUndefined
  | VStr s =>
      match s with
      | String c _ => if String.eqb type "0" then VStr (String c EmptyString)
                      else VUndefined
      | EmptyString => VUndefined
      end
  | _ => VUndefined
  end.

(** [if (!byType[type]) byType[type] = []; byType[type].push(x)], for a
    [type] that is not the name of a property every object inherits (for
    those see [categorize]). *)
Definition pushTo {A} (type : string) (x : A) (byType : list (string * list A))
    : list (string * list A) :=
  match Js.get type byType with
  | Some l => Js.set type (l ++ [x]) byType
  | None => Js.set type [x] byType
  end.

(** [resultsByType] and [metadataByType]. *)
Record ByType : Type := mkByType {
  resultsByType : list (string * list Value);
  metadataByType : list (string * list Meta)
}.

(** The metadata pushed next to each result of a track. *)
Definition metaOf (trackName : string) (track : Value) : Meta :=
  mkMeta trackName
    (Js.or (Js.field "confidence" (Js.field "metadata" track)) (VNum (Fin (1 # 2))))
    (Js.field "completedAt" (Js.field "metadata" track)).

(** The body of [track.results.forEach].  Under a [type] that
    [Object.prototype] defines, [resultsByType[type]] is truthy from the
    start, a function or [Object.prototype] itself, and has no [push]. *)
Fixpoint categorize (trackName : string) (track : Value) (results : list Value)
    (acc : ByType) : Outcome ByType :=
  match results with
  | [] => Resolved acc
  | result :: rest =>
      match resultType result with
      | None =>
          Rejected (ThrownError (newError "Cannot convert undefined or null to object"))
      | Some type =>
          if Js.inherited type
          then Rejected (notAFunction "resultsByType[type].push")
          else
            categorize trackName track rest
              (mkByType (pushTo type (member type result) (resultsByType acc))
                        (pushTo type (metaOf trackName track) (metadataByType acc)))
      end
  end.

(** [f.length] of what [Object.prototype] defines under [k], the number of
    parameters of the function; [Object.prototype] itself has no [length]. *)
Definition builtinLength (k : string) : nat :=
  if existsb (String.eqb k) ["toString"; "valueOf"; "toLocaleString"; "__proto__"]
  then 0
  else if existsb (String.eqb k) ["__defineGetter__"; "__defineSetter__"] then 2
  else 1.

(** [results.forEach(callback)] where [forEach] is what [Object.prototype]
    defines under [k]: the accessor definers refuse a missing second
    argument, [Object.prototype] is no function, the others return without
    calling the callback. *)
Definition builtinCall (k : string) : Outcome (list Value) :=
  if existsb (String.eqb k) ["__defineGetter__"; "__defineSetter__"]
  then Rejected (typeError "Getter must be a function")
  else if String.eqb k "__proto__"
       then Rejected (notAFunction "track.results.forEach")
       else Resolved [].

Section Results.
Variable parseNumber : Value -> Num.
Variable exoticMember : string -> Value -> option Value.

(** The results of a track that are walked: [track.results] when it is a
    non-empty array; nothing when it is falsy or has no positive [length];
    a throw when the track is [null] or [undefined], or when [results] has a
    positive length and no [forEach] that can be called. *)
Definition walked (track : Value) : Outcome (list Value) :=
  match track with
  | VUndefined =>
      Rejected (ThrownError
        (newError "Cannot read properties of undefined (reading 'results')"))
  | VNull =>
      Rejected (ThrownError
        (newError "Cannot read properties of null (reading 'results')"))
  | _ =>
      match Js.field "results" track with
      | VArr items => Resolved items
      | VStr (String _ _) => Rejected (notAFunction "track.results.forEach")
      | VObj o =>
          if JsNum.gt (Js.toNumber parseNumber (Js.field "length" (VObj o))) (Fin 0)
          then match Js.get "forEach" o with
               | Some (VBuiltin k) => builtinCall k
               | _ => Rejected (notAFunction "track.results.forEach")
               end
          else Resolved []
      | VBuiltin k =>
          match builtinLength k with
          | O => Resolved []
          | S _ => Rejected (notAFunction "track.results.forEach")
          end
      | _ => Resolved []
      end
  end.

(** [Object.entries(tracks).forEach] *)
Fixpoint categorizeTracks (trackEntries : list (string * Value)) (acc : ByType)
    : Outcome ByType :=
  match trackEntries with
  | [] => Resolved acc
  | (trackName, track) :: rest =>
      match walked track with
      | Rejected e => Rejected e
      | Resolved results =>
          match categorize trackName track results acc with
          | Rejected e => Rejected e
          | Resolved acc' => categorizeTracks rest acc'
          end
      end
  end.

(** [Object.keys(resultsByType).forEach]: a single value is taken as it
    is, several go through the resolver. *)
Fixpoint resolveTypes (types : list string) (byType : ByType)
    (options : ConflictResolutionOptions) (mergedResults : Obj) : Outcome Obj :=
  match types with
  | [] => Resolved mergedResults
  | type :: rest =>
      let values := match Js.get type (resultsByType byType) with
                    | Some l => l | None => [] end in
      let metadata := match Js.get type (metadataByType byType) with
                      | Some l => l | None => [] end in
      match values with
      | [v] => resolveTypes rest byType options (Js.assign type v mergedResults)
      | _ =>
          match resolveConflict parseNumber values metadata options with
          | Resolved v =>
              resolveTypes rest byType options (Js.assign type v mergedResults)
          | Rejected e => Rejected e
          end
      end
  end.

Definition defaultResultsOptions : ConflictResolutionOptions :=
  mkOptions MostConfident None None None.

(** [mergeTrackResults]; the [state] argument is not used by the code. *)
Definition mergeTrackResults (tracks : Obj) (options : ConflictResolutionOptions)
    : Outcome Obj :=
  match categorizeTracks (Js.entries tracks) (mkByType [] []) with
  | Rejected e => Rejected e
  | Resolved byType =>
      resolveTypes (Js.keys (resultsByType byType)) byType options []
  end.

(** [options.strategy] as the string it is. *)
Definition strategyName (s : Strategy) : string :=
  match s with
  | First => "first"
  | Last => "last"
  | MostConfident => "mostConfident"
  | Majority => "majority"
  | Weighted => "weighted"
  | Custom => "custom"
  end.

Definition nullish (v : Value) : bool :=
  match v with VUndefined | VNull => true | _ => false end.

(** The function [createMergeFunction(options)] returns; [mergedAt] is
    [new Date().toISOString()] at the call. *)
Definition createMergeFunction (mergedAt : string) (options : ConflictResolutionOptions)
    (tracks : Obj) : Outcome Value :=
  match mergeTrackData parseNumber exoticMember tracks options with
  | Rejected e => Rejected e
  | Resolved mergedData =>
      match mergeTrackResults tracks options with
      | Rejected e => Rejected e
      | Resolved mergedResults =>
          Resolved
            (VObj [("data", VObj mergedData);
                   ("results", VObj mergedResults);
                   ("metadata",
                    VObj [("mergeStrategy", VStr (strategyName (strategy options)));
                          ("tracksCount", Steps.natNum (List.length (Js.keys tracks)));
                          ("mergedAt", VStr mergedAt)])])
      end
  end.
End Results.

(** A result that has a type, the first of its keys, which is no name
    that [Object.prototype] defines: not [null] or [undefined]. *)
Definition ownType (result : Value) : bool :=
  match resultType result with
  | Some type => negb (Js.inherited type)
  | None => false
  end.

(** A track that is an object whose [results] are an array of such
    results. *)
Definition wellFormedTrack (track : Value) : Prop :=
  nullish track = false
  /\ exists items, Js.field "results" track = VArr items
                   /\ Forall (fun r => ownType r = true) items.

(** No collected type is a name that [Object.prototype] defines. *)
Definition ownTypes (byType : ByType) : Prop :=
  Forall (fun e => Js.inherited (fst e) = false) (resultsByType byType).

(** The two collections hold the same types with as many entries each. *)
Definition aligned (byType : ByType) : Prop :=
  map (fun e => (fst e, List.length (snd e))) (resultsByType byType)
  = map (fun e => (fst e, List.length (snd e))) (metadataByType byType).

(** Every collected type has a value. *)
Definition populated (byType : ByType) : Prop :=
  Forall (fun e => snd e <> []) (resultsByType byType).

(** The value [v] is the member, under [type], of a result of a track. *)
Definition reported (tracks : list (string * Value)) (type : string) (v : Value)
    : Prop :=
  exists entry items result,
    In entry tracks
    /\ Js.field "results" (snd entry) = VArr items
    /\ In result items
    /\ resultType result = Some type
    /\ member type result = v.

(** Where the collected values come from. *)
Definition fromTracks (tracks : list (string * Value)) (byType : ByType) : Prop :=
  forall type values v,
    Js.get type (resultsByType byType) = Some values ->
    In v values ->
    reported tracks type v.

(** A track of [tests/utils/merge.test.ts] with its results. *)
Definition resultTrack (name : string) (results : list Value) (conf : Q)
    : string * Value :=
  (name, trackResult name results [] [("confidence", VNum (Fin conf))] [] true).

End MergeResults.

(** ** Runners put together *)

Module Compose.
Import Steps Parallel ParallelMore.

(** The creation options [track(options)] hands to [createStep]. *)
Definition trackCreation {W} (options : Track.TrackOptions W) : StepCreationOptions :=
  let maxRetries := match Track.t_retry options with
                    | Some r => Track.r_maxRetries r | None => None end in
  let baseDelay := match Track.t_retry options with
                   | Some r => Track.r_baseDelay r | None => None end in
  mkCreation
    (Some (match maxRetries with Some m => negb (m =? 0)%Z | None => false end))
    (Some false)
    (Some (match maxRetries with Some m => m | None => 0%Z end))
    (Some (match baseDelay with Some d => if (d =? 0)%Z then 1000%Z else d
                              | None => 1000%Z end))
    (Some 2%Z).

(** The merge function [createMergeFunction({strategy: 'weighted'})], the
    weights left out. *)
Definition weightedMerge (parseNumber : Value -> Num)
    (exoticMember : string -> Value -> option Value) (mergedAt : string)
    (tracks : Obj) (_ : ResearchState) : Outcome Value :=
  MergeResults.createMergeFunction parseNumber exoticMember mergedAt
    (Merge.mkOptions Merge.Weighted None None None) tracks.

(** Two tracks that both set [data.x]. *)
Definition clashingTracks : ParallelOptions unit :=
  mkParallel [tolerantTrack "A" [okStep "x"]; tolerantTrack "B" [okStep "x"]]
             None None (Some (weightedMerge Merge.noParse Merge.noExotic "now")) None None.

(** A track with a track-level retry whose second step throws. *)
Definition retriedTrack : Track.TrackOptions unit :=
  Track.mkTrack "B" [okStep "b1"; throwingStep "b2"] None None None None None
                (Some (Track.mkRetry (Some 3%Z) None)).

End Compose.

(** * Part II: properties *)

(** ** Retry executor *)

Module RetryFacts.
Import Retry.

(** One round of the loop, and the first call, with callbacks that return. *)
Lemma retryLoop_traced_round {T : Type} (testMode : bool)
    (fn : Trace -> Outcome T * Trace) (maxR delay factor : Z) (pred : Thrown -> bool)
    (r k : nat) (last : Thrown) (t : Trace) :
  retryLoop traceSleep traceYield testMode fn (tracedOptions maxR delay factor pred)
            (S r) (Z.of_nat k) last t
  = match fn (if testMode
              then traceYield (traceNotify (Z.of_nat (S k)) last
                                 (backoffDelay delay factor (S k)) t)
              else traceSleep (backoffDelay delay factor (S k))
                     (traceNotify (Z.of_nat (S k)) last
                        (backoffDelay delay factor (S k)) t)) with
    | (Resolved v, t') => (Resolved v, t')
    | (Rejected error, t') =>
        if (Z.of_nat (S k) >=? maxR)%Z || negb (pred error)
        then (Rejected error, t')
        else retryLoop traceSleep traceYield testMode fn
               (tracedOptions maxR delay factor pred) r (Z.of_nat (S k)) error t'
    end.
Proof.
  cbn [retryLoop orDefault maxRetries retryDelay backoffFactor
       retryableErrors onRetry tracedOptions].
  unfold notifying, givesUp, returning.
  replace (Z.of_nat k + 1)%Z with (Z.of_nat (S k)) by lia.
  change (delay * factor ^ (Z.of_nat (S k) - 1))%Z
    with (backoffDelay delay factor (S k)).
  destruct (fn _) as [[v|e] t']; [reflexivity|].
  destruct (Z.of_nat (S k) >=? maxR)%Z; [reflexivity|].
  now destruct (pred e).
Qed.

Lemma runTraced_first_call {T : Type} (testMode : bool)
    (fn : Trace -> Outcome T * Trace) (maxR delay factor : Z) (pred : Thrown -> bool) :
  runTraced testMode fn maxR delay factor pred
  = match fn [] with
    | (Resolved v, t') => (Resolved v, t')
    | (Rejected error, t') =>
        if (maxR <=? 0)%Z || negb (pred error)
        then (Rejected error, t')
        else retryLoop traceSleep traceYield testMode fn
               (tracedOptions maxR delay factor pred) (Z.to_nat maxR) 0%Z error t'
    end.
Proof.
  unfold runTraced, executeWithRetry.
  cbn [orDefault maxRetries retryableErrors tracedOptions].
  unfold givesUp, returning.
  destruct (fn []) as [[v|e] t']; [reflexivity|].
  destruct (maxR <=? 0)%Z; [reflexivity|].
  now destruct (pred e).
Qed.

(** An operation that resolves ends the executor at once, and so does an
    error that the default predicate does not retry. *)
Lemma executeWithRetry_resolved {W T} sleep yield tm (fn : W -> Outcome T * W) opts w v w' :
  fn w = (Resolved v, w') ->
  executeWithRetry sleep yield tm fn opts w = (Resolved v, w').
Proof. intro H. unfold executeWithRetry. now rewrite H. Qed.

Lemma executeWithRetry_not_retried {W T} sleep yield tm (fn : W -> Outcome T * W)
    (options : RetryOptions W) w e w' :
  fn w = (Rejected e, w') ->
  retryableErrors options = None ->
  defaultIsRetryable e = false ->
  executeWithRetry sleep yield tm fn options w = (Rejected e, w').
Proof.
  intros H Hnone Hno. unfold executeWithRetry. rewrite H, Hnone. cbn [orDefault].
  unfold givesUp, returning. rewrite Hno. now destruct (_ <=? 0)%Z.
Qed.

Section AllFail.
Context {T : Type}.
Variable testMode : bool.
Variable fn : Trace -> Outcome T * Trace.
Variables maxR delay factor : Z.
Variable pred : Thrown -> bool.

(** [fn] rejects on every call. *)
Hypothesis fn_fails : forall t, exists e, fn t = (Rejected e, t ++ [Call]).

Lemma round_trace (k : nat) (last : Thrown) (t : Trace) :
  (if testMode then traceYield (traceNotify (Z.of_nat k) last
                                 (backoffDelay delay factor k) t)
   else traceSleep (backoffDelay delay factor k)
          (traceNotify (Z.of_nat k) last (backoffDelay delay factor k) t)) ++ [Call]
  = t ++ retryRound testMode delay factor k.
Proof.
  unfold retryRound, traceYield, traceSleep, traceNotify.
  destruct testMode; rewrite <- !app_assoc; reflexivity.
Qed.

(** With every error retryable, the loop runs all its rounds. *)
Lemma retryLoop_all_fail :
  (forall t e, fn t = (Rejected e, t ++ [Call]) -> pred e = true) ->
  forall remaining k last t,
    (Z.of_nat k + Z.of_nat remaining = maxR)%Z ->
    exists e,
      retryLoop traceSleep traceYield testMode fn
                (tracedOptions maxR delay factor pred) remaining (Z.of_nat k) last t
      = (Rejected e, t ++ rounds testMode delay factor (S k) remaining).
Proof.
  intros Hretry remaining. unfold rounds.
  induction remaining as [|r IH]; intros k last t Hsum.
  - exists last. simpl. now rewrite app_nil_r.
  - rewrite retryLoop_traced_round.
    set (t1 := if testMode then _ else _).
    destruct (fn_fails t1) as [e He]. rewrite He.
    rewrite (Hretry _ _ He). cbn [negb orb].
    assert (Ht1 : t1 ++ [Call] = t ++ retryRound testMode delay factor (S k))
      by apply round_trace.
    rewrite orb_false_r.
    destruct (Z.geb_spec (Z.of_nat (S k)) maxR) as [Hge|Hlt].
    + assert (r = O) by lia. subst r. exists e.
      rewrite Ht1. cbn [seq map List.concat]. now rewrite app_nil_r.
    + destruct (IH (S k) e (t1 ++ [Call])) as [e' He']; [lia|].
      exists e'. rewrite He'. rewrite Ht1.
      cbn [seq map List.concat]. now rewrite <- app_assoc.
Qed.
End AllFail.

Lemma callCount_app (a b : Trace) : callCount (a ++ b) = callCount a + callCount b.
Proof. unfold callCount. now rewrite filter_app, length_app. Qed.

Lemma requestedDelays_app (a b : Trace) :
  requestedDelays (a ++ b) = requestedDelays a ++ requestedDelays b.
Proof.
  induction a as [|[| | |] a IH]; simpl; try assumption.
  - reflexivity.
  - now rewrite IH.
Qed.

Lemma notifiedDelays_app (a b : Trace) :
  notifiedDelays (a ++ b) = notifiedDelays a ++ notifiedDelays b.
Proof.
  induction a as [|[| | |] a IH]; simpl; try assumption.
  - reflexivity.
  - now rewrite IH.
Qed.

Section Rounds.
Variables (testMode : bool) (delay factor : Z).

Lemma callCount_rounds (n k : nat) :
  callCount (rounds testMode delay factor k n) = n.
Proof.
  unfold rounds. revert k. induction n as [|n IH]; intro k; [reflexivity|].
  cbn [seq map List.concat]. rewrite callCount_app, IH.
  unfold retryRound, callCount. now destruct testMode.
Qed.

Lemma notifiedDelays_rounds (n k : nat) :
  notifiedDelays (rounds testMode delay factor k n)
  = map (backoffDelay delay factor) (seq k n).
Proof.
  unfold rounds. revert k. induction n as [|n IH]; intro k; [reflexivity|].
  cbn [seq map List.concat]. rewrite notifiedDelays_app, IH.
  unfold retryRound. now destruct testMode.
Qed.

Lemma requestedDelays_rounds (n k : nat) :
  testMode = false ->
  requestedDelays (rounds testMode delay factor k n)
  = map (backoffDelay delay factor) (seq k n).
Proof.
  intros ->. unfold rounds. revert k. induction n as [|n IH]; intro k; [reflexivity|].
  cbn [seq map List.concat]. now rewrite requestedDelays_app, IH.
Qed.
End Rounds.

Section Stops.
Context {T : Type}.
Variable testMode : bool.
Variable fn : Trace -> Outcome T * Trace.
Variables maxR delay factor : Z.
Variable pred : Thrown -> bool.

(** The error of the call number [i] (from 0). *)
Variable err : nat -> Thrown.
Hypothesis fn_fails_with :
  forall t, fn t = (Rejected (err (callCount t)), t ++ [Call]).

(** The loop stops at the first error that is not retryable. *)
Lemma retryLoop_stops (m : nat) :
  forall remaining k last t,
    (S m <= remaining)%nat ->
    callCount t = S k ->
    (forall i, (k < i < k + S m)%nat -> pred (err i) = true) ->
    pred (err (k + S m)) = false ->
    (Z.of_nat (k + S m) <= maxR)%Z ->
    retryLoop traceSleep traceYield testMode fn (tracedOptions maxR delay factor pred)
              remaining (Z.of_nat k) last t
    = (Rejected (err (k + S m)), t ++ rounds testMode delay factor (S k) (S m)).
Proof.
  induction m as [|m IH]; intros [|r] k last t Hrem Hcount Hpred Hstop Hmax; try lia.
  - rewrite retryLoop_traced_round.
    set (t1 := if testMode then _ else _).
    assert (Hc1 : callCount t1 = S k).
    { subst t1. unfold traceYield, traceSleep, traceNotify.
      destruct testMode; rewrite !callCount_app, Hcount; unfold callCount; simpl; lia. }
    rewrite fn_fails_with, Hc1.
    replace (k + 1)%nat with (S k) in Hstop by lia. rewrite Hstop.
    rewrite orb_true_r. unfold rounds. cbn [seq map List.concat].
    rewrite app_nil_r. f_equal; [f_equal; f_equal; lia|]. apply round_trace.
  - rewrite retryLoop_traced_round.
    set (t1 := if testMode then _ else _).
    assert (Hc1 : callCount t1 = S k).
    { subst t1. unfold traceYield, traceSleep, traceNotify.
      destruct testMode; rewrite !callCount_app, Hcount; unfold callCount; simpl; lia. }
    rewrite fn_fails_with, Hc1.
    rewrite (Hpred (S k)) by lia. cbn [negb]. rewrite orb_false_r.
    replace (Z.of_nat (S k) >=? maxR)%Z with false
      by (symmetry; rewrite Z.geb_leb; apply Z.leb_gt; lia).
    assert (Ht1 : t1 ++ [Call] = t ++ retryRound testMode delay factor (S k))
      by apply round_trace.
    assert (Hnext : (S k + S m = k + S (S m))%nat) by lia.
    assert (Hc2 : callCount (t1 ++ [Call]) = S (S k))
      by (rewrite callCount_app, Hc1; unfold callCount; simpl; lia).
    assert (Hpred' : forall i, (S k < i < S k + S m)%nat -> pred (err i) = true)
      by (intros i Hi; apply Hpred; lia).
    assert (Hstop' : pred (err (S k + S m)) = false) by (now rewrite Hnext).
    assert (Hmax' : (Z.of_nat (S k + S m) <= maxR)%Z) by (now rewrite Hnext).
    rewrite (IH r (S k) (err (S k)) (t1 ++ [Call]) ltac:(lia) Hc2 Hpred' Hstop' Hmax').
    rewrite Hnext, Ht1. unfold rounds. cbn [seq map List.concat].
    now rewrite <- app_assoc.
Qed.
End Stops.



End RetryFacts.

(** ** Merger *)

Module MergeFacts.
Import Merge MergeMore.

Section Weighted.
Variable parseNumber : Value -> Num.

Lemma mapiFrom_attach (ws : list (string * Num)) (values : list Value) :
  forall (metadata pre : list Meta),
    List.length values = List.length metadata ->
    mapiFrom (List.length pre)
      (fun value i =>
         (value,
          match nth_error (pre ++ metadata) i with
          | Some meta => Some (weightOf ws (trackName meta))
          | None => None
          end)) values
    = combine values (map (fun m => Some (weightOf ws (trackName m))) metadata).
Proof.
  induction values as [|v vs IH]; intros [|m ms] pre Hlen; try discriminate;
    [reflexivity|].
  cbn [mapiFrom combine map]. f_equal.
  - rewrite nth_error_app2 by lia. now rewrite Nat.sub_diag.
  - specialize (IH ms (pre ++ [m])). rewrite <- app_assoc in IH. simpl app in IH.
    rewrite length_app in IH. simpl List.length in IH.
    rewrite Nat.add_1_r in IH. apply IH. now injection Hlen.
Qed.

Lemma attachWeights_combine ws values metadata :
  List.length values = List.length metadata ->
  attachWeights ws values metadata
  = combine values (map (fun m => Some (weightOf ws (trackName m))) metadata).
Proof. intro H. exact (mapiFrom_attach ws values metadata [] H). Qed.

(** The accumulation over finite numbers and finite weights. *)
Lemma accumulate_finite (vws : list (Q * Q)) :
  forall a b : Q,
  exists a' b' : Q,
    fold_left (accumulate parseNumber)
      (map (fun c => (VNum (Fin (fst c)), Some (Fin (snd c)))) vws)
      (Some (Fin a, Fin b))
    = Some (Fin a', Fin b')
    /\ (a' == a + sumQ (map (fun vw => fst vw * snd vw) vws))%Q
    /\ (b' == b + sumQ (map snd vws))%Q.
Proof.
  induction vws as [|[v w] l IH]; intros a b.
  - exists a, b. simpl. split; [reflexivity|]. split; ring.
  - cbn [map fold_left accumulate fst snd Js.toNumber JsNum.add JsNum.mul].
    destruct (IH (a + v * w)%Q (b + w)%Q) as (a' & b' & Hf & Ha & Hb).
    exists a', b'. split; [exact Hf|].
    cbn [sumQ fold_right map fst snd] in *. fold (sumQ (map snd l)) in *.
    fold (sumQ (map (fun vw : Q * Q => fst vw * snd vw)%Q l)) in *.
    split; [rewrite Ha | rewrite Hb]; ring.
Qed.

Lemma div_finite (a b : Q) :
  ~ (b == 0)%Q -> JsNum.div (Fin a) (Fin b) = Fin (a / b).
Proof.
  intro Hb. unfold JsNum.div, JsNum.sign.
  destruct (Z.compare_spec (Qnum b) 0) as [Hz|Hz|Hz]; try reflexivity.
  exfalso. apply Hb. unfold Qeq. simpl. rewrite Hz. reflexivity.
Qed.

(** Finite weighted mean of numeric values. *)
Lemma weighted_numeric (ws : list (string * Num)) (vws : list (Q * Q))
    (metadata : list Meta) cr ce :
  vws <> [] ->
  map (fun m => weightOf ws (trackName m)) metadata = map (fun c => Fin (snd c)) vws ->
  ~ (sumQ (map snd vws) == 0)%Q ->
  exists q : Q,
    resolveConflict parseNumber (map (fun c => VNum (Fin (fst c))) vws) metadata
      (mkOptions Weighted (Some ws) cr ce)
    = Resolved (VNum (Fin q))
    /\ (q == weightedMean vws)%Q.
Proof.
  intros Hne Hw Hsum.
  assert (Hlen : List.length (map (fun c : Q * Q => VNum (Fin (fst c))) vws)
                 = List.length metadata).
  { rewrite length_map. rewrite <- (length_map (fun c : Q * Q => Fin (snd c)) vws).
    rewrite <- Hw. now rewrite length_map. }
  destruct vws as [|[v1 w1] [|c2 l]]; [contradiction| |].
  - (* a single value passes through *)
    exists v1. split; [reflexivity|].
    unfold weightedMean. simpl in *.
    assert (~ (w1 == 0)%Q) by (intro E; apply Hsum; rewrite E; ring).
    field. intro E. apply Hsum. rewrite Qplus_0_r. exact E.
  - set (vws := (v1, w1) :: c2 :: l) in *.
    destruct (accumulate_finite vws 0 0) as (a & b & Hf & Ha & Hb).
    exists (a / b)%Q.
    assert (Hb0 : ~ (b == 0)%Q) by (rewrite Hb, Qplus_0_l; exact Hsum).
    split.
    + unfold resolveConflict.
      change (map (fun c : Q * Q => VNum (Fin (fst c))) vws)
        with (VNum (Fin v1) :: VNum (Fin (fst c2))
                :: map (fun c : Q * Q => VNum (Fin (fst c))) l) at 1.
      cbn [strategy weights Js.isNumber].
      change (VNum (Fin v1) :: VNum (Fin (fst c2))
                :: map (fun c : Q * Q => VNum (Fin (fst c))) l)
        with (map (fun c : Q * Q => VNum (Fin (fst c))) vws).
      rewrite attachWeights_combine by exact Hlen.
      replace (map (fun m => Some (weightOf ws (trackName m))) metadata)
        with (map (fun c : Q * Q => Some (Fin (snd c))) vws).
      2:{ rewrite <- (map_map (fun c : Q * Q => Fin (snd c)) Some), <- Hw.
          now rewrite map_map. }
      replace (combine (map (fun c : Q * Q => VNum (Fin (fst c))) vws)
                       (map (fun c : Q * Q => Some (Fin (snd c))) vws))
        with (map (fun c : Q * Q => (VNum (Fin (fst c)), Some (Fin (snd c)))) vws).
      2:{ clear. induction vws as [|x xs IH]; [reflexivity|]. simpl. now rewrite IH. }
      rewrite Hf. now rewrite div_finite.
    + unfold weightedMean. rewrite Ha, Hb, !Qplus_0_l. reflexivity.
Qed.

(** Values that are kept while no weight exceeds the running maximum. *)
Lemma pickHighest_keep (l : list (Value * Q)) (v : Value) (w : Q) :
  Forall (fun c => (snd c <= w)%Q) l ->
  fold_left pickHighest (map (fun c => (fst c, Some (Fin (snd c)))) l)
            (Some (v, Fin w))
  = Some (v, Fin w).
Proof.
  induction l as [|[x wx] l IH]; intro Hall; [reflexivity|].
  inversion Hall as [|? ? Hx Hl]; subst. simpl in Hx.
  cbn [map fold_left pickHighest fst snd JsNum.gt].
  apply Qle_alt in Hx.
  destruct (Qcompare wx w) eqn:E; try (now apply IH). now contradiction Hx.
Qed.

(** Below a weight [w], the running maximum stays below [w]. *)
Lemma pickHighest_below (l : list (Value * Q)) (w : Q) :
  forall (v : Value) (h : Q),
    (h < w)%Q ->
    Forall (fun c => (snd c < w)%Q) l ->
    exists v' h',
      fold_left pickHighest (map (fun c => (fst c, Some (Fin (snd c)))) l)
                (Some (v, Fin h))
      = Some (v', Fin h') /\ (h' < w)%Q.
Proof.
  induction l as [|[x wx] l IH]; intros v h Hh Hall.
  - exists v, h. now split.
  - inversion Hall as [|? ? Hx Hl]; subst. simpl in Hx.
    cbn [map fold_left pickHighest fst snd JsNum.gt].
    destruct (Qcompare wx h); now apply IH.
Qed.

(** Non-numeric values: the first value whose weight is the largest wins,
    provided that weight exceeds the initial [-1]. *)
Lemma weighted_non_numeric (ws : list (string * Num))
    (before after : list (Value * Q)) (v : Value) (w : Q)
    (metadata : list Meta) cr ce :
  let entries := before ++ (v, w) :: after in
  (2 <= List.length entries)%nat ->
  Js.isNumber (hd VUndefined (map fst entries)) = false ->
  map (fun m => weightOf ws (trackName m)) metadata = map (fun c => Fin (snd c)) entries ->
  (-1 < w)%Q ->
  Forall (fun c => (snd c < w)%Q) before ->
  Forall (fun c => (snd c <= w)%Q) after ->
  resolveConflict parseNumber (map fst entries) metadata
    (mkOptions Weighted (Some ws) cr ce)
  = Resolved v.
Proof.
  intros entries Hlen Hnum Hw Hpos Hbefore Hafter.
  assert (Hlen' : List.length (map fst entries) = List.length metadata).
  { rewrite length_map. rewrite <- (length_map (fun c : Value * Q => Fin (snd c)) entries).
    rewrite <- Hw. now rewrite length_map. }
  assert (Hatt : attachWeights ws (map fst entries) metadata
                 = map (fun c : Value * Q => (fst c, Some (Fin (snd c)))) entries).
  { rewrite attachWeights_combine by exact Hlen'.
    replace (map (fun m => Some (weightOf ws (trackName m))) metadata)
      with (map (fun c : Value * Q => Some (Fin (snd c))) entries).
    2:{ rewrite <- (map_map (fun c : Value * Q => Fin (snd c)) Some), <- Hw.
        now rewrite map_map. }
    clear. induction entries as [|x xs IH]; [reflexivity|]. simpl. now rewrite IH. }
  unfold resolveConflict.
  destruct (map fst entries) as [|v0 [|v1 vs]] eqn:Hvals.
  - destruct entries; [simpl in Hlen; lia | discriminate].
  - apply (f_equal (@List.length Value)) in Hvals.
    rewrite length_map in Hvals. simpl in Hvals. lia.
  - cbn [strategy weights]. simpl hd in Hnum. rewrite Hnum, Hatt.
    subst entries. rewrite map_app, fold_left_app.
    destruct (pickHighest_below before w VUndefined (-1) Hpos Hbefore)
      as (v' & h' & Hf & Hh'). rewrite Hf.
    cbn [map fold_left pickHighest fst snd JsNum.gt].
    apply Qgt_alt in Hh'. rewrite Hh'.
    now rewrite pickHighest_keep.
Qed.

(** Without a weights map, two or more values make the strategy throw. *)
Lemma weighted_requires_weights (values : list Value) (metadata : list Meta) cr ce :
  (2 <= List.length values)%nat ->
  resolveConflict parseNumber values metadata (mkOptions Weighted None cr ce)
  = Rejected weightsRequired.
Proof.
  destruct values as [|v0 [|v1 vs]]; simpl; intro H; try lia. reflexivity.
Qed.

End Weighted.

Lemma in_fold_addKey (ks : list string) :
  forall (acc : list string) (key : string),
    In key (fold_left addKey ks acc) <-> In key acc \/ In key ks.
Proof.
  induction ks as [|k ks IH]; intros acc key; simpl.
  - tauto.
  - rewrite IH. unfold addKey.
    destruct (existsb (String.eqb k) acc) eqn:E.
    + apply existsb_exists in E. destruct E as (x & Hx & Hkx).
      apply String.eqb_eq in Hkx. subst x.
      split; [tauto|]. intros [H|[<-|H]]; tauto.
    + rewrite in_app_iff. simpl. tauto.
Qed.

(** [Object.entries] lists every property once. *)
Lemma insertIndexed_permutation {A} (i : N) (kv : string * A)
    (sorted : list (N * (string * A))) :
  Permutation (Js.insertIndexed i kv sorted) ((i, kv) :: sorted).
Proof.
  induction sorted as [|[j kv'] rest IH]; simpl; [reflexivity|].
  destruct (i <? j)%N; [reflexivity|].
  rewrite IH. apply perm_swap.
Qed.

Lemma indexed_permutation {A} (o : list (string * A)) :
  forall acc : list (N * (string * A)),
    Permutation
      (map snd (fold_left (fun acc kv =>
                             match Js.arrayIndex (fst kv) with
                             | Some i => Js.insertIndexed i kv acc
                             | None => acc
                             end) o acc))
      (map snd acc ++ filter (fun kv => Js.isArrayIndex (fst kv)) o).
Proof.
  induction o as [|kv o IH]; intro acc; simpl.
  - now rewrite app_nil_r.
  - rewrite IH. unfold Js.isArrayIndex at 2.
    destruct (Js.arrayIndex (fst kv)) as [i|]; [|reflexivity].
    rewrite (Permutation_map snd (insertIndexed_permutation i kv acc)). simpl.
    apply Permutation_middle.
Qed.

Lemma filter_permutation {A} (f : A -> bool) (l : list A) :
  Permutation (filter f l ++ filter (fun x => negb (f x)) l) l.
Proof.
  induction l as [|x l IH]; simpl; [reflexivity|].
  destruct (f x); simpl.
  - now constructor.
  - rewrite <- Permutation_middle. now constructor.
Qed.

Lemma entries_permutation {A} (o : list (string * A)) : Permutation (Js.entries o) o.
Proof.
  unfold Js.entries. rewrite (indexed_permutation o []). simpl.
  apply (filter_permutation (fun kv => Js.isArrayIndex (fst kv))).
Qed.

Lemma keys_in {A} (k : string) (o : list (string * A)) :
  In k (Js.keys o) <-> In k (map fst o).
Proof.
  unfold Js.keys. split; apply Permutation_in, Permutation_map;
    [|apply Permutation_sym]; apply entries_permutation.
Qed.

(** Without array indices among the names, [Object.entries] keeps the
    order of creation. *)
Lemma entries_plain {A} (o : list (string * A)) :
  Forall (fun kv => Js.isArrayIndex (fst kv) = false) o -> Js.entries o = o.
Proof.
  intro H. unfold Js.entries.
  assert (Hfold : forall acc,
            fold_left (fun acc kv =>
                         match Js.arrayIndex (fst kv) with
                         | Some i => Js.insertIndexed i kv acc
                         | None => acc
                         end) o acc = acc).
  { induction H as [|kv o Hkv _ IH]; intro acc; [reflexivity|].
    simpl. unfold Js.isArrayIndex in Hkv.
    destruct (Js.arrayIndex (fst kv)); [discriminate|]. apply IH. }
  rewrite Hfold. simpl.
  induction H as [|kv o Hkv _ IH]; [reflexivity|].
  simpl. rewrite Hkv. simpl. f_equal. apply IH.
  intro acc. specialize (Hfold acc). simpl in Hfold. unfold Js.isArrayIndex in Hkv.
  destruct (Js.arrayIndex (fst kv)); [discriminate|]. exact Hfold.
Qed.

Lemma get_in {A} (k : string) (o : list (string * A)) (v : A) :
  Js.get k o = Some v -> In (k, v) o.
Proof.
  induction o as [|[k0 v0] o IH]; simpl; [discriminate|].
  destruct (String.eqb_spec k k0) as [->|_].
  - intro H. injection H as ->. now left.
  - intro H. right. now apply IH.
Qed.

Lemma get_in_ownKeys (k : string) (o : Obj) (v : Value) :
  Js.get k o = Some v -> In k (Js.ownKeys (VObj o)).
Proof.
  intro H. unfold Js.ownKeys, Js.keys. cbn [Js.ownProperties].
  apply in_map_iff. exists (k, v). split; [reflexivity|].
  apply (Permutation_in _ (Permutation_sym (entries_permutation o))).
  now apply get_in.
Qed.

Lemma allHeld_permutation (key : string) (a b : list (string * Value)) :
  Permutation a b -> Permutation (allHeld key a) (allHeld key b).
Proof.
  induction 1 as [|x a b _ IH|x y a|a b c _ IH1 _ IH2]; cbn [allHeld].
  - reflexivity.
  - destruct (held key x); [now constructor|exact IH].
  - destruct (held key x), (held key y); try reflexivity. apply perm_swap.
  - now transitivity (allHeld key b).
Qed.

Section Collect.
Variable exoticMember : string -> Value -> option Value.

Lemma dataOf_resolved (track : Value) :
  MergeResults.nullish track = false -> dataOf track = Resolved (Js.field "data" track).
Proof. destruct track; try discriminate; reflexivity. Qed.

(** The first pass over tracks that are not [null] or [undefined]: it
    finds every key that a track holds. *)
Lemma allKeys_resolves (tracks : list (string * Value)) :
  forall acc,
    Forall (fun e => MergeResults.nullish (snd e) = false) tracks ->
    exists keys,
      allKeys tracks acc = Resolved keys
      /\ (forall k, In k acc -> In k keys)
      /\ (forall entry k, In entry tracks -> held k entry <> None -> In k keys).
Proof.
  induction tracks as [|[name track] ts IH]; intros acc Hobj.
  - exists acc. split; [reflexivity|]. split; [auto|]. intros ? ? [].
  - inversion Hobj as [|? ? Ht Hts]; subst. cbn [snd] in Ht.
    cbn [allKeys]. rewrite (dataOf_resolved track Ht).
    set (acc' := if Js.truthy (Js.field "data" track)
                 then fold_left addKey (Js.ownKeys (Js.field "data" track)) acc
                 else acc).
    destruct (IH acc' Hts) as (keys & Hrun & Hacc & Hheld).
    exists keys. split; [exact Hrun|]. split.
    + intros k Hk. apply Hacc. unfold acc'.
      destruct (Js.truthy (Js.field "data" track)); [|exact Hk].
      apply in_fold_addKey. now left.
    + intros entry k [<-|He] Hk; [|now apply (Hheld entry)].
      apply Hacc. unfold acc'. unfold held in Hk.
      destruct (Js.field "data" track) as [| | | | | |o|]; try contradiction.
      cbn [Js.truthy]. apply in_fold_addKey. right.
      destruct (Js.get k o) as [v|] eqn:Hg; [|contradiction].
      now apply (get_in_ownKeys k o v).
Qed.

(** The second pass, for one track whose data is no truthy primitive:
    what the track holds is collected. *)
Lemma contribution_resolves (key : string) (entry : string * Value) :
  MergeResults.nullish (snd entry) = false ->
  primitiveData (snd entry) = false ->
  exists c,
    contribution exoticMember key entry = Resolved c
    /\ (forall x, held key entry = Some x -> c = Some x).
Proof.
  destruct entry as [name track]. cbn [snd]. intros Ht Hp.
  unfold contribution, held. rewrite (dataOf_resolved track Ht).
  unfold primitiveData in Hp.
  destruct (Js.field "data" track) as [| |b|n|s|items|o|k] eqn:Hd;
    try (eexists; split; [reflexivity|discriminate]).
  - rewrite Hp. eexists; split; [reflexivity|discriminate].
  - rewrite Hp. eexists; split; [reflexivity|discriminate].
  - rewrite Hp. eexists; split; [reflexivity|discriminate].
  - cbn [Js.truthy memberOf].
    destruct (Js.get key (Js.indexFrom 0 items));
      [|destruct (String.eqb key "length");
        [|destruct (exoticMember key (VArr items))]];
      eexists; (split; [reflexivity|discriminate]).
  - cbn [Js.truthy memberOf]. unfold Js.hasProperty, Js.has, Js.lookup.
    destruct (Js.get key o) as [v|]; cbn [orb].
    + eexists; split; [reflexivity|]. intros x Hx. exact Hx.
    + destruct (Js.inherited key); eexists; (split; [reflexivity|discriminate]).
  - cbn [Js.truthy memberOf]. destruct (exoticMember key (VBuiltin k));
      eexists; (split; [reflexivity|discriminate]).
Qed.

Lemma contributions_resolves (key : string) (tracks : list (string * Value)) :
  Forall (fun e => MergeResults.nullish (snd e) = false) tracks ->
  Forall (fun e => primitiveData (snd e) = false) tracks ->
  exists cs,
    contributions exoticMember key tracks = Resolved cs
    /\ (List.length (allHeld key tracks) <= List.length cs)%nat.
Proof.
  induction tracks as [|entry ts IH]; intros Hobj Hprim.
  - exists []. split; [reflexivity|]. simpl. lia.
  - inversion Hobj as [|? ? Ht Hts]; subst. inversion Hprim as [|? ? Hp Hps]; subst.
    destruct (IH Hts Hps) as (cs & Hcs & Hlen).
    destruct (contribution_resolves key entry Ht Hp) as (c & Hc & Hheld).
    cbn [contributions allHeld]. rewrite Hc, Hcs.
    destruct (held key entry) as [x|].
    + rewrite (Hheld x eq_refl). exists (x :: cs). split; [reflexivity|]. simpl. lia.
    + destruct c as [y|]; eexists; (split; [reflexivity|]); simpl; lia.
Qed.

Section Missing.
Variable parseNumber : Value -> Num.

Lemma mergeKeys_requires_weights (tracks : list (string * Value)) cr ce :
  Forall (fun e => MergeResults.nullish (snd e) = false) tracks ->
  Forall (fun e => primitiveData (snd e) = false) tracks ->
  forall (keys : list string) (merged : Obj),
    (exists key, In key keys /\ key <> "tracks"
                 /\ (2 <= List.length (allHeld key tracks))%nat) ->
    mergeKeys parseNumber exoticMember keys tracks (mkOptions Weighted None cr ce) merged
    = Rejected weightsRequired.
Proof.
  intros Hobj Hprim.
  induction keys as [|k keys IH]; intros merged (key & Hin & Hne & Hlen).
  - contradiction.
  - cbn [mergeKeys].
    destruct (String.eqb_spec k "tracks") as [->|Hk].
    + apply IH. exists key. destruct Hin as [<-|Hin]; [contradiction|]. auto.
    + destruct (contributions_resolves k tracks Hobj Hprim) as (cs & Hcs & Hle).
      rewrite Hcs. destruct cs as [|c [|c' cs]].
      * apply IH. exists key. destruct Hin as [<-|Hin]; [|auto].
        simpl in Hle. lia.
      * cbn [map resolveConflict]. apply IH. exists key.
        destruct Hin as [<-|Hin]; [|auto]. simpl in Hle. lia.
      * rewrite weighted_requires_weights; [reflexivity|]. simpl. lia.
Qed.

(** The weighted strategy without a weights map throws as soon as two
    tracks hold the same key. *)
Lemma mergeTrackData_requires_weights (tracks : list (string * Value)) (key : string)
    cr ce :
  Forall (fun e => MergeResults.nullish (snd e) = false) tracks ->
  Forall (fun e => primitiveData (snd e) = false) tracks ->
  key <> "tracks" ->
  (2 <= List.length (allHeld key tracks))%nat ->
  mergeTrackData parseNumber exoticMember tracks (mkOptions Weighted None cr ce)
  = Rejected weightsRequired.
Proof.
  intros Hobj Hprim Hkey Hlen. unfold mergeTrackData.
  pose proof (entries_permutation tracks) as Hperm.
  assert (Hobj' : Forall (fun e => MergeResults.nullish (snd e) = false)
                         (Js.entries tracks))
    by (apply (Permutation_Forall (Permutation_sym Hperm)); exact Hobj).
  assert (Hprim' : Forall (fun e => primitiveData (snd e) = false) (Js.entries tracks))
    by (apply (Permutation_Forall (Permutation_sym Hperm)); exact Hprim).
  assert (Hlen' : (2 <= List.length (allHeld key (Js.entries tracks)))%nat)
    by (rewrite (Permutation_length (allHeld_permutation key _ _ Hperm)); exact Hlen).
  destruct (allKeys_resolves (Js.entries tracks) [] Hobj') as (keys & -> & _ & Hheld).
  apply mergeKeys_requires_weights; [exact Hobj'|exact Hprim'|].
  exists key. split; [|split; assumption].
  destruct (allHeld key (Js.entries tracks)) as [|c cs] eqn:Hc; [simpl in Hlen'; lia|].
  clear -Hc Hheld. revert Hheld Hc.
  generalize (Js.entries tracks) as l.
  induction l as [|entry l IH]; intros Hheld Hc; [discriminate|].
  cbn [allHeld] in Hc. destruct (held key entry) eqn:Hh.
  - apply (Hheld entry); [now left|]. rewrite Hh. discriminate.
  - apply IH; [|exact Hc]. intros e k He. apply Hheld. now right.
Qed.
End Missing.
End Collect.

(** Data that is a truthy primitive ends the merge with the [TypeError] of
    the [in] operator at the first key, before any conflict is resolved:
    here two tracks hold [key] and no weights are given. *)
Lemma mergeTrackData_primitive_data (parseNumber : Value -> Num)
    (exoticMember : string -> Value -> option Value) :
  mergeTrackData parseNumber exoticMember
    [labelTrack "track1" "a"; labelTrack "track2" "b";
     ("track3", VObj [("data", VStr "abc")])]
    (mkOptions Weighted None None None)
  = Rejected (typeError "Cannot use 'in' operator to search for 'key'").
Proof. reflexivity. Qed.

(** C10.  The weighted mean with an explicit weight of 0: weights
    [{A:0,B:1}] and values [{A:10,B:20}] give 15, the mean of the two
    values, where [Σ(value·weight)/Σ(weight)] is 20.  [weights[trackName] ||
    1] takes the weight 0 for a missing one.  With weights [{A:1,B:3}] the
    same tracks give 17.5. *)
Theorem weighted_mean_counts_zero_weight_as_one (parseNumber : Value -> Num)
    (exoticMember : string -> Value -> option Value) :
  mergeTrackData parseNumber exoticMember [scoreTrack "A" 10; scoreTrack "B" 20]
    (weightedOptions [("A", Fin 0); ("B", Fin 1)])
  = Resolved [("score", VNum (Fin (30 # 2)))]
  /\ (30 # 2 == 15)%Q
  /\ (weightedMean [(10, 0); (20, 1)] == 20)%Q
  /\ weightOf [("A", Fin 0); ("B", Fin 1)] "A" = Fin 1
  /\ mergeTrackData parseNumber exoticMember [scoreTrack "A" 10; scoreTrack "B" 20]
       (weightedOptions [("A", Fin 1); ("B", Fin 3)])
     = Resolved [("score", VNum (Fin (70 # 4)))]
  /\ (70 # 4 == weightedMean [(10, 1); (20, 3)])%Q.
Proof. repeat split. Qed.

End MergeFacts.

(** ** Pipeline executor *)

Module PipelineFacts.
Import Pipeline.

Lemma readArray_push (r : Ref) (e : Err) (w : World) :
  (r < List.length (arrays w))%nat ->
  readArray r (pushArray r e w) = readArray r w ++ [e].
Proof.
  unfold readArray, pushArray. simpl. generalize (arrays w). clear w.
  induction r as [|r IH]; intros [|xs l] H; simpl in *; try lia; [reflexivity|].
  apply IH. lia.
Qed.

Lemma readArray_alloc (xs : list Err) (w : World) :
  readArray (fst (allocArray xs w)) (snd (allocArray xs w)) = xs.
Proof.
  unfold readArray, allocArray. simpl.
  rewrite app_nth2 by lia. now rewrite Nat.sub_diag.
Qed.

(** The log line of the [catch] can be built unless the error is a foreign
    one. *)
Lemma getFormattedMessage_normalised (n : string) (t : Thrown) :
  getFormattedMessage (toResearchError n t)
  = if foreignResearchError t
    then Rejected (notAFunction "researchError.getFormattedMessage")
    else Resolved tt.
Proof.
  destruct t as [e|v]; [|reflexivity].
  unfold toResearchError, isResearchError, foreignResearchError, getFormattedMessage.
  destruct (code e); [|reflexivity].
  now destruct (instanceOf (cls e) BaseResearchError).
Qed.

(** [executeStep] notes one call; it rejects only with the [TypeError] of
    its log line. *)
Lemma executeStep_settles (step : ResearchStep) (state : ResearchState) (eng : Engine) :
  exists r eng',
    executeStep step state eng = (r, eng')
    /\ log eng' = log eng ++ [EvExecute (name step) state]
    /\ deadline eng' = deadline eng
    /\ match r with
       | Resolved _ => True
       | Rejected e => e = notAFunction "researchError.getFormattedMessage"
       end.
Proof.
  unfold executeStep, awaitCall. simpl.
  destruct (execute step state (world eng)) as [[s|e] w'];
    destruct (deadline eng <=? now w')%Z; simpl.
  all: try (eexists _, _; repeat split; fail).
  all: try (rewrite getFormattedMessage_normalised;
            destruct (foreignResearchError e); [eexists _, _; repeat split; fail|]).
  all: try match goal with
           | |- context [recordStepExecution ?a ?b ?c ?d ?e ?f] =>
               destruct (recordStepExecution a b c d e f) as [s' w'']
           end; eexists _, _; repeat split.
Qed.

(** A call of [executeStep] that resolves is all the retry executor sees. *)
Lemma executeStepWithErrorHandling_resolved tm step state config eng r eng' :
  executeStep step state eng = (Resolved r, eng') ->
  executeStepWithErrorHandling tm step state config eng = (Resolved r, eng').
Proof.
  intro H. unfold executeStepWithErrorHandling.
  destruct (retryable step && _); [|exact H].
  now rewrite (RetryFacts.executeWithRetry_resolved _ _ _ _ _ _ _ _ H).
Qed.

(** The [TypeError] of the log line is not retried: behind the retry
    executor the step's input state comes back, without a record. *)
Lemma executeStepWithErrorHandling_rejected tm step state config eng eng' :
  executeStep step state eng
  = (Rejected (notAFunction "researchError.getFormattedMessage"), eng') ->
  executeStepWithErrorHandling tm step state config eng
  = if retryable step
       && match maxRetries config with
          | Some m => negb (m =? 0)%Z && (0 <? m)%Z
          | None => false
          end
    then (Resolved (Some state), eng')
    else (Rejected (notAFunction "researchError.getFormattedMessage"), eng').
Proof.
  intro H. unfold executeStepWithErrorHandling.
  destruct (retryable step && _); [|exact H].
  rewrite (RetryFacts.executeWithRetry_not_retried _ _ _ _ _ _ _ _ H);
    reflexivity.
Qed.

Lemma executeStepWithErrorHandling_settles tm step state config eng :
  exists r eng',
    executeStepWithErrorHandling tm step state config eng = (r, eng')
    /\ log eng' = log eng ++ [EvExecute (name step) state]
    /\ deadline eng' = deadline eng
    /\ match r with
       | Resolved _ => True
       | Rejected e => e = notAFunction "researchError.getFormattedMessage"
       end.
Proof.
  destruct (executeStep_settles step state eng) as ([r|e] & eng' & H & L & D & He).
  - exists (Resolved r), eng'.
    now rewrite (executeStepWithErrorHandling_resolved tm _ _ config _ _ _ H).
  - subst e. rewrite (executeStepWithErrorHandling_rejected tm _ _ config _ _ H).
    destruct (retryable step && _); eexists _, _; repeat split; assumption.
Qed.

Lemma executed_app (a b : list Event) : executed (a ++ b) = executed a ++ executed b.
Proof.
  induction a as [|[] a IH]; simpl; try assumption; [reflexivity | now rewrite IH].
Qed.

Lemma awaitCall_log call state eng r eng' :
  awaitCall call state eng = (r, eng') ->
  log eng' = log eng /\ deadline eng' = deadline eng.
Proof.
  unfold awaitCall. destruct (call state (world eng)) as [[s|e] w'];
    destruct (deadline eng <=? now w')%Z; intro H; inversion H; subst; now split.
Qed.

Lemma stepsOnly_here step rest eng eng' state :
  log eng' = log eng ++ [EvExecute (name step) state] ->
  deadline eng' = deadline eng ->
  stepsOnly (step :: rest) eng eng'.
Proof. intros Hl Hd. exists [EvExecute (name step) state], 1. now repeat split. Qed.


Lemma stepsOnly_rolled step rest eng eng' state recorded :
  log eng' = (log eng ++ [EvExecute (name step) state])
             ++ [EvRollback (name step) recorded] ->
  deadline eng' = deadline eng ->
  stepsOnly (step :: rest) eng eng'.
Proof.
  intros Hl Hd.
  exists [EvExecute (name step) state; EvRollback (name step) recorded], 1.
  rewrite Hl, <- app_assoc. now repeat split.
Qed.

Lemma stepsOnly_then step rest eng eng1 eng' (pre : list Event) :
  log eng1 = log eng ++ pre ->
  forallb isStepEvent pre = true ->
  executed pre = [name step] ->
  deadline eng1 = deadline eng ->
  stepsOnly rest eng1 eng' ->
  stepsOnly (step :: rest) eng eng'.
Proof.
  intros Hl Hpre Hex Hd (delta & k & Hl' & Hs & Hk & _ & Hd').
  exists (pre ++ delta), (S k). repeat split.
  - now rewrite Hl', Hl, <- app_assoc.
  - now rewrite forallb_app, Hpre, Hs.
  - rewrite executed_app, Hex, Hk. reflexivity.
  - lia.
  - congruence.
Qed.

Lemma executeSteps_stepsOnly tm config (steps : list ResearchStep) :
  forall state eng r eng',
    executeSteps tm steps config state eng = (r, eng') ->
    stepsOnly steps eng eng'.
Proof.
  induction steps as [|step rest IH]; intros state eng r eng' H; cbn [executeSteps] in H.
  - inversion H; subst. exists [], 0. rewrite app_nil_r. repeat split.
    intro C. now contradiction C.
  - destruct (executeStepWithErrorHandling_settles tm step state config eng)
      as (r1 & eng1 & E1 & L1 & D1 & _).
    rewrite E1 in H.
    destruct r1 as [[updated|]|e1];
      [|inversion H; subst; now apply (stepsOnly_here _ _ _ _ state)
       |inversion H; subst; now apply (stepsOnly_here _ _ _ _ state)].
    destruct (rev (stepHistory (metadata updated))) as [|latest hist];
      [inversion H; subst; now apply (stepsOnly_here _ _ _ _ state)|].
    destruct (success latest).
    { apply IH in H.
      now apply (stepsOnly_then _ _ _ eng1 _ [EvExecute (name step) state]). }
    destruct (isStrategy (errorHandling config) Stop
              && negb (optBool (continueOnError config)));
      [inversion H; subst; now apply (stepsOnly_here _ _ _ _ state)|].
    destruct (if isStrategy (errorHandling config) Rollback then rollback step else None)
      as [rb|].
    2:{ apply IH in H.
        now apply (stepsOnly_then _ _ _ eng1 _ [EvExecute (name step) state]). }
    destruct (awaitCall rb updated (emit (EvRollback (name step) updated) eng1))
      as [[[rolled|]|y] eng3] eqn:EA;
      apply awaitCall_log in EA; destruct EA as [L3 D3]; simpl in L3, D3;
      rewrite L1 in L3; rewrite D1 in D3.
    + destruct (negb (optBool (continueOnError config))).
      * inversion H; subst. now apply (stepsOnly_rolled _ _ _ _ state updated).
      * apply IH in H.
        apply (stepsOnly_then _ _ _ eng3 _
                 [EvExecute (name step) state; EvRollback (name step) updated]);
          try assumption; try reflexivity.
        now rewrite L3, <- app_assoc.
    + inversion H; subst. now apply (stepsOnly_rolled _ _ _ _ state updated).
    + destruct (negb (optBool (continueOnError config))).
      * inversion H; subst. now apply (stepsOnly_rolled _ _ _ _ state updated).
      * apply IH in H.
        apply (stepsOnly_then _ _ _ (withWorld
                 (pushArray (errors updated) (rollbackFailure (name step) y) (world eng3))
                 eng3) _
                 [EvExecute (name step) state; EvRollback (name step) updated]);
          try assumption; try reflexivity.
        simpl. now rewrite L3, <- app_assoc.
Qed.

(** The shape of the log of a whole run. *)
Lemma executePipeline_log tm initialState steps config w :
  exists body k t,
    log (snd (executePipeline tm initialState steps config w))
    = EvSetTimeout (orElse (timeout (mergeConfig config)) 300000)
        :: body ++ [EvClearTimeout; EvStampEnd t]
    /\ forallb isStepEvent body = true
    /\ executed body = firstn k (map name steps)
    /\ (steps <> [] -> (1 <= k)%nat)
    /\ endTime (metadata (fst (executePipeline tm initialState steps config w))) = Some t.
Proof.
  unfold executePipeline.
  set (fullConfig := mergeConfig config).
  set (ms := orElse (timeout fullConfig) 300000).
  set (eng0 := emit (EvSetTimeout ms) _).
  destruct (executeSteps tm steps fullConfig _ eng0) as [r eng'] eqn:E.
  apply executeSteps_stepsOnly in E.
  destruct E as (delta & k & Hl & Hs & Hk & Hk1 & _).
  simpl in Hl.
  destruct r as [[final|]|e]; unfold finish; simpl; rewrite Hl;
    eexists delta, k, _; (split; [rewrite <- app_assoc; reflexivity|]);
    repeat split; assumption.
Qed.

Lemma filter_step_events (p : Event -> bool) (body : list Event) :
  (forall e, isStepEvent e = true -> p e = false) ->
  forallb isStepEvent body = true ->
  filter p body = [].
Proof.
  intros Hp. induction body as [|e body IH]; [reflexivity|].
  simpl. intro H. apply andb_prop in H. destruct H as [He Hb].
  rewrite (Hp e He). now apply IH.
Qed.

(** C5 at a step that rejects with a system error (an [Error] carrying a
    string [code]).  The [catch] of [executeStep] takes it for a research
    error and throws a [TypeError] while building its log line, before the
    failure is recorded.  A step that is not retryable makes
    [executeStepWithErrorHandling] reject; behind the retry executor the
    input state comes back without a record.  Either way the step was
    called once, the history of the returned state is empty, and the
    pipeline ends with a [TypeError] turned into a pipeline error.  A plain
    [Error] thrown by the same step is recorded as a failed execution. *)
Theorem system_error_leaves_no_record :
  let config := mergeConfig noSettings in
  let start step := startState (initialState "q") [step] config initialWorld in
  let eng0 := emit (EvSetTimeout 300000) (mkEngine initialWorld 300000 []) in
  let once := systemFailureStep "fetch" false in
  let again := systemFailureStep "fetch" true in
  let run step := executePipeline false (initialState "q") [step] noSettings initialWorld in
  fst (executeStepWithErrorHandling false once (start once) config eng0)
  = Rejected (notAFunction "researchError.getFormattedMessage")
  /\ fst (executeStepWithErrorHandling false again (start again) config eng0)
     = Resolved (Some (start again))
  /\ stepHistory (metadata (start again)) = []
  /\ (executed (log (snd (run once))) = ["fetch"]
      /\ stepHistory (metadata (fst (run once))) = []
      /\ map message (readArray (errors (fst (run once))) (world (snd (run once))))
         = ["researchError.getFormattedMessage is not a function"])
  /\ (executed (log (snd (run again))) = ["fetch"]
      /\ stepHistory (metadata (fst (run again))) = []
      /\ map message (readArray (errors (fst (run again))) (world (snd (run again))))
         = ["Cannot read properties of undefined (reading 'success')"])
  /\ (map success (stepHistory (metadata (fst (run (failingStep "fetch" 0 true)))))
      = [false]
      /\ map message (readArray (errors (fst (run (failingStep "fetch" 0 true))))
                                (world (snd (run (failingStep "fetch" 0 true)))))
         = ["Step failed"]).
Proof. cbv zeta. repeat split. Qed.

(** C7, as the code has it.  On every exit path the timer is cleared once
    and [metadata.endTime] is stamped once, last of all, and the call
    resolves.  When the timer fires before the steps complete, what is
    returned is the state the pipeline started from, sharing the [errors]
    array of the caller's state, onto which the timeout error has been
    pushed; it carries nothing of the steps that had completed. *)
Theorem executePipeline_timeout (tm : bool) (initialState : ResearchState)
    (steps : list ResearchStep) (config : PipelineSettings) (w : World) :
  let fullConfig := mergeConfig config in
  let ms := orElse (timeout fullConfig) 300000 in
  let start := startState initialState steps fullConfig w in
  let eng0 := emit (EvSetTimeout ms) (mkEngine w (now w + ms)%Z []) in
  let run := executePipeline tm initialState steps config w in
  (List.length (filter isClear (log (snd run))) = 1
   /\ List.length (filter isStamp (log (snd run))) = 1
   /\ exists body t,
        log (snd run) = EvSetTimeout ms :: body ++ [EvClearTimeout; EvStampEnd t]
        /\ forallb isStepEvent body = true
        /\ endTime (metadata (fst run)) = Some t)
  /\ (forall eng',
         executeSteps tm steps fullConfig start eng0 = (Resolved None, eng') ->
         query (fst run) = query initialState
         /\ data (fst run) = data initialState
         /\ results (fst run) = results initialState
         /\ stepHistory (metadata (fst run)) = stepHistory (metadata initialState)
         /\ errors (fst run) = errors initialState
         /\ arrays (world (snd run))
            = updateNth (errors initialState)
                (fun xs => xs ++ [timeoutError fullConfig]) (arrays (world eng'))
         /\ ((errors initialState < List.length (arrays (world eng')))%nat ->
             readArray (errors (fst run)) (world (snd run))
             = readArray (errors initialState) (world eng') ++ [timeoutError fullConfig])).
Proof.
  intros fullConfig ms start eng0 run. split.
  - destruct (executePipeline_log tm initialState steps config w)
      as (body & k & t & Hl & Hs & _ & _ & Ht).
    fold run in Hl, Ht. fold fullConfig in Hl. fold ms in Hl.
    assert (Hc : filter isClear body = [])
      by (apply filter_step_events; [now intros []|exact Hs]).
    assert (Hp : filter isStamp body = [])
      by (apply filter_step_events; [now intros []|exact Hs]).
    rewrite Hl. simpl. rewrite !filter_app, Hc, Hp. simpl.
    split; [reflexivity|]. split; [reflexivity|]. now exists body, t.
  - intros eng' Hsteps. subst run. unfold executePipeline.
    fold fullConfig. fold ms. fold start. fold eng0. rewrite Hsteps.
    unfold finish. simpl. repeat split.
    intro Hr. unfold readArray. simpl.
    change (nth (errors initialState)
              (updateNth (errors initialState)
                 (fun xs => xs ++ [timeoutError fullConfig]) (arrays (world eng'))) [])
      with (readArray (errors initialState)
              (pushArray (errors initialState) (timeoutError fullConfig) (world eng'))).
    now rewrite readArray_push.
Qed.

(** The run of the timeout test of the repository: one step that needs
    10000 ms under a timeout of 100 ms. *)
Lemma executePipeline_timeout_witness :
  results (fst (executePipeline false (initialState "q") [workStep "slow" 10000]
                  (withTimeout 100) initialWorld)) = []
  /\ readArray 0 (world (snd (executePipeline false (initialState "q")
                                [workStep "slow" 10000] (withTimeout 100) initialWorld)))
     = [] ++ [timeoutError (mergeConfig (withTimeout 100))].
Proof.
  destruct (executePipeline_timeout false (initialState "q") [workStep "slow" 10000]
              (withTimeout 100) initialWorld) as [_ H].
  specialize (H (mkEngine (mkWorld [[]] 100) 100
                   [EvSetTimeout 100;
                    EvExecute "slow"
                      (startState (initialState "q") [workStep "slow" 10000]
                         (mergeConfig (withTimeout 100)) initialWorld)])
                eq_refl).
  destruct H as (_ & _ & Hres & _ & _ & _ & Harr).
  split; [exact Hres|]. apply Harr. simpl. lia.
Defined.

(** C7 as stated fails when a step had completed before the timer fired:
    with a first step done after 10 ms and a second one needing 10000 ms
    under a timeout of 100 ms, the first step's result is in the state the
    loop had reached, and absent from the state returned. *)
Lemma timeout_drops_progress_counterexample :
  let steps := [workStep "fast" 10; workStep "slow" 10000] in
  let fullConfig := mergeConfig (withTimeout 100) in
  let start := startState (initialState "q") steps fullConfig initialWorld in
  let eng0 := emit (EvSetTimeout 100) (mkEngine initialWorld 100 []) in
  let run := executePipeline false (initialState "q") steps (withTimeout 100) initialWorld in
  (exists reached eng1,
      executeStepWithErrorHandling false (workStep "fast" 10) start fullConfig eng0
      = (Resolved (Some reached), eng1)
      /\ (now (world eng1) < deadline eng1)%Z
      /\ results reached = [VObj [("fast", VBool true)]])
  /\ executed (log (snd run)) = ["fast"; "slow"]
  /\ results (fst run) = []
  /\ readArray (errors (fst run)) (world (snd run)) = [timeoutError fullConfig].
Proof.
  cbv zeta. split; [|repeat split].
  eexists _, _. split; [vm_compute; reflexivity|]. split; reflexivity.
Qed.

(** C3 at a run that times out: the array behind [initialState.errors] is
    empty before the call and holds the timeout error after it, the returned
    state sharing that very array. *)
Theorem executePipeline_timeout_mutates_input :
  let initial := initialState "q" in
  let run := executePipeline false initial [workStep "slow" 10000]
               (withTimeout 100) initialWorld in
  readArray (errors initial) initialWorld = []
  /\ readArray (errors initial) (world (snd run))
     = [timeoutError (mergeConfig (withTimeout 100))]
  /\ errors (fst run) = errors initial.
Proof. cbv zeta. repeat split. Qed.

Lemma rollbackInputs_app (n : string) (a b : list Event) :
  rollbackInputs n (a ++ b) = rollbackInputs n a ++ rollbackInputs n b.
Proof.
  induction a as [|[] a IH]; simpl; try assumption; [reflexivity|].
  destruct (String.eqb n step0); [now rewrite IH | assumption].
Qed.

(** C6, as the code has it.  Under [errorHandling = 'rollback'], a step that
    fails with an error the executor records (anything but an [Error] that
    carries a string [code] without being a [BaseResearchError]) and has a
    rollback gets that rollback invoked once, on the state the step was
    given with the failure recorded in it: same query, data and results,
    one more record in the history, and a new [errors] array ending with
    the failure.  A failing rollback has its error pushed onto that array,
    after the original failure.  Then the pipeline halts unless
    [continueOnError], in which case it goes on with the next step. *)
Theorem rollback_on_failure (tm : bool) (step : ResearchStep) (rest : list ResearchStep)
    (config : PipelineSettings) (state : ResearchState) (eng : Engine)
    (rb : Async) (e : Thrown) (w1 : World) :
  isStrategy (errorHandling config) Rollback = true ->
  rollback step = Some rb ->
  execute step state (world eng) = (Rejected e, w1) ->
  foreignResearchError e = false ->
  (now w1 < deadline eng)%Z ->
  let err := toResearchError (name step) e in
  let rec_ := recordStepExecution state step false (Some err)
                (now w1 - now (world eng)) w1 in
  let recorded := fst rec_ in
  let w2 := snd rec_ in
  let eng2 := emit (EvRollback (name step) recorded)
                (withWorld w2 (emit (EvExecute (name step) state) eng)) in
  query recorded = query state
  /\ data recorded = data state
  /\ results recorded = results state
  /\ readArray (errors recorded) w2 = readArray (errors state) w1 ++ [err]
  /\ (exists r, stepHistory (metadata recorded) = stepHistory (metadata state) ++ [r]
                /\ success r = false /\ error r = Some err)
  /\ log eng2 = log eng ++ [EvExecute (name step) state; EvRollback (name step) recorded]
  /\ rollbackInputs (name step) (log eng2)
     = rollbackInputs (name step) (log eng) ++ [recorded]
  /\ forall ro w3,
       rb recorded w2 = (ro, w3) ->
       (now w3 < deadline eng)%Z ->
       match ro with
       | Resolved rolled =>
           executeSteps tm (step :: rest) config state eng
           = if optBool (continueOnError config)
             then executeSteps tm rest config rolled (withWorld w3 eng2)
             else (Resolved (Some rolled), withWorld w3 eng2)
       | Rejected y =>
           let w4 := pushArray (errors recorded) (rollbackFailure (name step) y) w3 in
           executeSteps tm (step :: rest) config state eng
           = (if optBool (continueOnError config)
              then executeSteps tm rest config recorded (withWorld w4 eng2)
              else (Resolved (Some recorded), withWorld w4 eng2))
           /\ ((errors recorded < List.length (arrays w3))%nat ->
               readArray (errors recorded) w4
               = readArray (errors recorded) w3 ++ [rollbackFailure (name step) y])
       end.
Proof.
  intros Hstrategy Hrb Hexec Hrecordable Hnow err rec_ recorded w2 eng2.
  assert (Hrec : rec_ = (recorded, w2)) by (subst recorded w2; now destruct rec_).
  assert (Hshape :
            query recorded = query state /\ data recorded = data state
            /\ results recorded = results state
            /\ readArray (errors recorded) w2 = readArray (errors state) w1 ++ [err]
            /\ exists r, stepHistory (metadata recorded)
                         = stepHistory (metadata state) ++ [r]
                         /\ success r = false /\ error r = Some err).
  { subst recorded w2 rec_. unfold recordStepExecution.
    set (xs := readArray (errors state) w1 ++ [err]).
    pose proof (readArray_alloc xs w1) as Ha.
    destruct (allocArray xs w1) as [r w'] eqn:Ea. simpl in *.
    repeat split; try assumption. eexists. repeat split. }
  destruct Hshape as (Hq & Hd & Hres & Harr & r & Hhist & Hsucc & Herr).
  repeat split; try assumption.
  - now exists r.
  - subst eng2. simpl. now rewrite <- app_assoc.
  - subst eng2. simpl. rewrite !rollbackInputs_app. simpl.
    rewrite String.eqb_refl. now rewrite app_nil_r.
  - intros ro w3 Hcall Hnow3.
    assert (Hstop : isStrategy (errorHandling config) Stop = false)
      by (destruct (errorHandling config) as [[]|]; try discriminate; reflexivity).
    assert (Hhead : executeStepWithErrorHandling tm step state config eng
                    = (Resolved (Some recorded),
                       withWorld w2 (emit (EvExecute (name step) state) eng))).
    { apply executeStepWithErrorHandling_resolved. unfold executeStep, awaitCall.
      cbn [world deadline emit withWorld]. rewrite Hexec.
      replace (deadline eng <=? now w1)%Z with false by (symmetry; apply Z.leb_gt; lia).
      cbn [world deadline emit withWorld].
      rewrite getFormattedMessage_normalised, Hrecordable.
      fold err. fold rec_. now rewrite Hrec. }
    cbn [executeSteps]. rewrite Hhead, Hhist, rev_app_distr. simpl rev. cbn [app].
    rewrite Hsucc, Hstop, Hstrategy, Hrb. cbn [andb].
    fold eng2. unfold awaitCall. replace (world eng2) with w2 by reflexivity.
    rewrite Hcall.
    replace (deadline eng2 <=? now w3)%Z with false
      by (symmetry; apply Z.leb_gt; subst eng2; simpl; lia).
    destruct ro as [rolled|y].
    + now destruct (optBool (continueOnError config)).
    + split; [now destruct (optBool (continueOnError config))|].
      intro Hlen. now apply readArray_push.
Qed.

(** The rollback test of the repository's test plan, and the same pipeline
    with a rollback that fails. *)
Lemma rollback_on_failure_witness :
  let pipeline step := executePipeline false (initialState "q") [step]
                         (rollbackSettings false) initialWorld in
  List.length (rollbackInputs "S" (log (snd (pipeline (failingStep "S" 0 false))))) = 1
  /\ Js.get "rolledBack" (data (fst (pipeline (failingStep "S" 0 false))))
     = Some (VBool true)
  /\ map message
       (readArray (errors (fst (pipeline (brokenRollbackStep "S"))))
                  (world (snd (pipeline (brokenRollbackStep "S")))))
     = ["Step failed";
        ("Rollback for step " ++ quoted "S" ++ " failed: Rollback failed")%string].
Proof.
  set (cfg := mergeConfig (rollbackSettings false)).
  set (eng0 := emit (EvSetTimeout 300000) (mkEngine initialWorld 300000 [])).
  pose proof (rollback_on_failure false (failingStep "S" 0 false) [] cfg
                (startState (initialState "q") [failingStep "S" 0 false] cfg initialWorld)
                eng0 _ _ _ eq_refl eq_refl eq_refl eq_refl eq_refl) as H1.
  pose proof (rollback_on_failure false (brokenRollbackStep "S") [] cfg
                (startState (initialState "q") [brokenRollbackStep "S"] cfg initialWorld)
                eng0 _ _ _ eq_refl eq_refl eq_refl eq_refl eq_refl) as H2.
  cbv zeta in H1, H2.
  destruct H1 as (_ & _ & _ & _ & _ & _ & _ & H1).
  destruct H2 as (_ & _ & _ & _ & _ & _ & _ & H2).
  specialize (H1 _ _ eq_refl eq_refl). specialize (H2 _ _ eq_refl eq_refl).
  cbv beta iota in H1, H2. destruct H2 as [H2 _].
  cbv zeta. unfold executePipeline. fold cfg. 
  change (orElse (timeout cfg) 300000) with 300000%Z.
  change (now initialWorld + 300000)%Z with 300000%Z. fold eng0.
  rewrite H1, H2. repeat split.
Defined.

(** C6 as stated fails on the argument of the rollback: it is not the state
    the failing step was given.  That state has an empty history and an
    empty [errors] array; the rollback sees one record and one error. *)
Lemma rollback_input_counterexample :
  let step := failingStep "S" 0 false in
  let cfg := mergeConfig (rollbackSettings false) in
  let given := startState (initialState "q") [step] cfg initialWorld in
  let run := executePipeline false (initialState "q") [step]
               (rollbackSettings false) initialWorld in
  executed (log (snd run)) = ["S"]
  /\ (exists input, rollbackInputs "S" (log (snd run)) = [input]
        /\ input <> given
        /\ List.length (stepHistory (metadata input)) = 1
        /\ List.length (readArray (errors input) (world (snd run))) = 1)
  /\ stepHistory (metadata given) = []
  /\ readArray (errors given) initialWorld = [].
Proof.
  cbv zeta. split; [reflexivity|]. split; [|split; reflexivity].
  eexists. split; [vm_compute; reflexivity|]. split; [|split; reflexivity].
  intro H.
  apply (f_equal (fun s => List.length (stepHistory (metadata s)))) in H.
  discriminate H.
Qed.

End PipelineFacts.

(** ** Track and parallel runners *)

Module RunnerFacts.
Import Steps.

Lemma get_set_same {A} (k : string) (v : A) (o : list (string * A)) :
  Js.get k (Js.set k v o) = Some v.
Proof.
  induction o as [|[k' v'] o IH]; simpl.
  - now rewrite String.eqb_refl.
  - destruct (String.eqb k k') eqn:E; simpl; rewrite ?String.eqb_refl, ?E; auto.
Qed.

Lemma field_set_same (k : string) (v : Value) (o : Obj) :
  Js.field k (VObj (Js.set k v o)) = v.
Proof. unfold Js.field. now rewrite get_set_same. Qed.

(** C2 at a track whose second step throws.  The [catch] builds the
    best-effort result ([completed = false], the data of the first step)
    and a state holding it under [data.tracks.B], but the call rejects with
    the error alone and the caller's state has no [tracks]; only with a
    track-level retry is that state returned. *)
Theorem track_failure_rejects_without_state :
  let options := Parallel.failingTrack in
  let state := Parallel.emptyState in
  let eng := mkEngine tt [] in
  (exists error current eng',
      Track.runTrackSteps "B" false (Track.t_steps options)
        (Track.trackState state options) eng
      = (Rejected error, current, eng')
      /\ let trackResult :=
           Track.failedTrackResult Parallel.clock options current error (world eng') in
         Js.field "completed" trackResult = VBool false
         /\ Js.field "data" trackResult = VObj [("b1", VBool true)]
         /\ Js.field "B"
              (Js.field "tracks"
                 (VObj (data (Track.failedTrackState state options trackResult))))
            = trackResult)
  /\ fst (Track.executeTrackStep Parallel.clock state options eng)
     = Rejected (ThrownError Parallel.failingTrackError)
  /\ Js.get "tracks" (data state) = None
  /\ (exists returned,
         fst (Track.executeTrackStep Parallel.clock state Parallel.failingTrackWithRetry eng)
         = Resolved returned
         /\ Js.field "completed" (Js.field "B" (Js.field "tracks" (VObj (data returned))))
            = VBool false).
Proof.
  cbv zeta. split; [|split; [|split]].
  - eexists _, _, _. split; [vm_compute; reflexivity|]. repeat split.
  - reflexivity.
  - reflexivity.
  - eexists. split; [vm_compute; reflexivity|]. reflexivity.
Qed.

(** C1 at three tracks of which the second rejects, under the default
    [continueOnError = true].  The state a rejecting track is turned into
    has the data of the input state, hence no track result of its own; the
    returned [data.tracks] has the two entries [A] and [C], the failure
    shows in [errors] only, and the counters report 2 of 2 tracks completed
    and none failed. *)
Theorem parallel_partial_failure_drops_track :
  (forall (W : Type) (state : ResearchState) (track : ResearchStep W)
          (index : nat) (error : Thrown),
      data (Parallel.failedTrackState state track index error) = data state)
  /\ exists final,
       fst (Parallel.executeParallelStep Parallel.clock false false Parallel.emptyState
              Parallel.threeTracks (mkEngine tt []))
       = Resolved final
       /\ Js.keys (Parallel.entriesOf (Js.field "tracks" (VObj (data final)))) = ["A"; "C"]
       /\ Js.field "B" (Js.field "tracks" (VObj (data final))) = VUndefined
       /\ errors final = [Parallel.failingTrackError]
       /\ Js.field "parallelTracks" (VObj (metadata final))
          = VObj [("count", natNum 2); ("completed", natNum 2); ("failed", natNum 0);
                  ("successRate", VNum (Fin (2 # 2)))]
       /\ Js.keys (Parallel.entriesOf
                     (Js.field "byTrack"
                        (Js.field "parallelMerged" (VObj (data final)))))
          = ["A"; "C"].
Proof.
  split; [reflexivity|].
  eexists. split; [vm_compute; reflexivity|]. repeat split.
Qed.

End RunnerFacts.

(** ** Flow-control loop *)

Module FlowFacts.
Import Steps FlowControl.

Lemma announced_app (a b : list Event) : announced (a ++ b) = announced a ++ announced b.
Proof.
  induction a as [|[] a IH]; simpl; try assumption; [reflexivity | now rewrite IH].
Qed.

Lemma thrownIn_app (a b : list Event) : thrownIn (a ++ b) = thrownIn a ++ thrownIn b.
Proof.
  induction a as [|[] a IH]; simpl; try assumption; [reflexivity | now rewrite IH].
Qed.

Lemma calls_app (a b : list Event) : calls (a ++ b) = calls a ++ calls b.
Proof.
  induction a as [|[] a IH]; simpl; try assumption; [reflexivity | now rewrite IH].
Qed.

Section Loop.
Context {W : Type}.

Lemma runStep_log (step : ResearchStep W) input (eng : Engine W) :
  log (snd (runStep step input eng))
  = log eng ++ EvCall (name step) input
               :: match fst (runStep step input eng) with
                  | Resolved _ => []
                  | Rejected e => [EvThrew (name step) e]
                  end.
Proof. unfold runStep. now destruct (execute step input (world eng)) as [[s|e] w']. Qed.

(** Every repeated step is called on the condition step's output. *)
Lemma runRepeated_inputs continueOnError iterations (steps : list (ResearchStep W))
    conditionState :
  forall current errs (eng : Engine W),
  exists delta,
    log (snd (runRepeated continueOnError iterations steps conditionState current errs eng))
    = log eng ++ delta
    /\ Forall (fun call => snd call = conditionState) (calls delta).
Proof.
  induction steps as [|step rest IH]; intros current errs eng; cbn [runRepeated].
  - exists []. rewrite app_nil_r. now split.
  - pose proof (runStep_log step conditionState eng) as Hl.
    destruct (runStep step conditionState eng) as [[next|e] eng'] eqn:E;
      cbn [fst snd] in Hl.
    + destruct (IH next errs eng') as (delta & Hd & Hall).
      exists (EvCall (name step) conditionState :: delta).
      rewrite Hd, Hl, <- app_assoc. split; [reflexivity|]. now constructor.
    + destruct (negb continueOnError).
      * exists [EvCall (name step) conditionState; EvThrew (name step) e].
        split; [exact Hl|]. now repeat constructor.
      * destruct (IH current (errs ++ [asError e]) eng') as (delta & Hd & Hall).
        exists (EvCall (name step) conditionState :: EvThrew (name step) e :: delta).
        rewrite Hd, Hl, <- app_assoc. split; [reflexivity|]. now constructor.
Qed.

(** A loop that no failure aborts and whose condition never passes. *)
Variable conditionStep : ResearchStep W.
Variable stepsToRepeat : list (ResearchStep W).
Variable continueOnError : bool.

Hypothesis never_passes :
  forall s w s' w',
    execute conditionStep s w = (Resolved s', w') -> conditionPassed s' = false.

Hypothesis failures_tolerated :
  forall step, In step (conditionStep :: stepsToRepeat) ->
  forall s w e w', execute step s w = (Rejected e, w') -> continueOnError = true.

Lemma runRepeated_tolerant iterations (steps : list (ResearchStep W)) conditionState :
  (forall step, In step steps -> In step stepsToRepeat) ->
  forall current errs (eng : Engine W),
  exists current' eng' delta,
    runRepeated continueOnError iterations steps conditionState current errs eng
    = (Resolved tt, current', errs ++ map asError (thrownIn delta), eng')
    /\ log eng' = log eng ++ delta
    /\ announced delta = [].
Proof.
  induction steps as [|step rest IH]; intros Hin current errs eng; cbn [runRepeated].
  - exists current, eng, []. simpl. now rewrite !app_nil_r.
  - unfold runStep.
    destruct (execute step conditionState (world eng)) as [[next|e] w'] eqn:E.
    + destruct (IH (fun x Hx => Hin x (or_intror Hx)) next errs
                   (mkEngine w' (log eng ++ [EvCall (name step) conditionState])))
        as (c' & eng' & delta & Hr & Hl & Ha).
      exists c', eng', (EvCall (name step) conditionState :: delta).
      rewrite Hr, Hl. simpl. now rewrite <- app_assoc.
    + replace (negb continueOnError) with false
        by (now rewrite (failures_tolerated step
                           (or_intror (Hin step (or_introl eq_refl))) _ _ _ _ E)).
      destruct (IH (fun x Hx => Hin x (or_intror Hx)) current (errs ++ [asError e])
                   (mkEngine w' (log eng ++ [EvCall (name step) conditionState;
                                             EvThrew (name step) e])))
        as (c' & eng' & delta & Hr & Hl & Ha).
      exists c', eng',
        (EvCall (name step) conditionState :: EvThrew (name step) e :: delta).
      rewrite Hr, Hl. simpl. rewrite <- !app_assoc. now repeat split.
Qed.

Lemma seq_offsets (a : Z) (r : nat) :
  map (fun k => (a + Z.of_nat k)%Z) (seq 1 (S r))
  = (a + 1)%Z :: map (fun k => (a + 1 + Z.of_nat k)%Z) (seq 1 r).
Proof.
  cbn [seq map]. f_equal. rewrite <- seq_shift, map_map.
  apply map_ext. intro k. lia.
Qed.

Lemma loop_exhausts (remaining : nat) :
  forall (st : LoopState) (eng : Engine W),
    conditionMet st = false ->
    exists st' eng' delta,
      loop conditionStep stepsToRepeat continueOnError remaining st eng
      = (Resolved st', eng')
      /\ log eng' = log eng ++ delta
      /\ announced delta
         = map (fun k => (iterations st + Z.of_nat k)%Z) (seq 1 remaining)
      /\ iterations st' = (iterations st + Z.of_nat remaining)%Z
      /\ conditionMet st' = false
      /\ iterationErrors st' = iterationErrors st ++ map asError (thrownIn delta).
Proof.
  induction remaining as [|r IH]; intros st eng Hmet.
  - exists st, eng, []. simpl. rewrite !app_nil_r, Z.add_0_r. now repeat split.
  - cbn [loop]. unfold runStep. cbn [emit world log].
    destruct (execute conditionStep (currentState st) (world eng))
      as [[conditionState|e] w'] eqn:E.
    + rewrite (never_passes _ _ _ _ E).
      set (eng1 := mkEngine w' _).
      destruct (runRepeated_tolerant (iterations st + 1) stepsToRepeat conditionState
                  (fun x Hx => Hx) (currentState st) (iterationErrors st) eng1)
        as (current & eng2 & d2 & Hr & Hl2 & Ha2).
      rewrite Hr.
      destruct (IH (mkLoop current (iterations st + 1) false
                           (iterationErrors st ++ map asError (thrownIn d2))) eng2 eq_refl)
        as (st' & eng' & d3 & Hloop & Hl3 & Ha3 & Hit & Hm & Herr).
      exists st', eng',
        ([EvIteration (iterations st + 1);
          EvCall (name conditionStep) (currentState st)] ++ d2 ++ d3).
      rewrite Hloop. split; [reflexivity|]. cbn [iterations iterationErrors] in *.
      split; [rewrite Hl3, Hl2; subst eng1; simpl; now rewrite <- !app_assoc|].
      split; [rewrite seq_offsets; simpl; now rewrite announced_app, Ha2, Ha3|].
      split; [lia|]. split; [exact Hm|].
      rewrite Herr. simpl. now rewrite thrownIn_app, map_app, app_assoc.
    + replace (negb continueOnError) with false
        by (now rewrite (failures_tolerated conditionStep (or_introl eq_refl) _ _ _ _ E)).
      set (eng1 := mkEngine w' _).
      destruct (IH (mkLoop (currentState st) (iterations st + 1) false
                           (iterationErrors st ++ [asError e])) eng1 eq_refl)
        as (st' & eng' & d3 & Hloop & Hl3 & Ha3 & Hit & Hm & Herr).
      exists st', eng',
        ([EvIteration (iterations st + 1);
          EvCall (name conditionStep) (currentState st);
          EvThrew (name conditionStep) e] ++ d3).
      rewrite Hloop. split; [reflexivity|]. cbn [iterations iterationErrors] in *.
      split; [rewrite Hl3; subst eng1; simpl; now rewrite <- !app_assoc|].
      split; [rewrite seq_offsets; simpl; now rewrite Ha3|].
      split; [lia|]. split; [exact Hm|].
      rewrite Herr. simpl. now rewrite <- app_assoc.
Qed.
End Loop.

(** C4 on the code.  In every iteration each repeated step is called on the
    condition step's output, whatever the steps before it returned: with
    the steps [A] and [B], [B] receives the state [A] received, and the
    iteration ends with [B]'s output alone ([trail = ["B"]], where a
    sequential composition gives [["A"; "B"]]). *)
Theorem repeated_steps_all_receive_condition_state :
  (forall (W : Type) continueOnError iterations (steps : list (ResearchStep W))
          conditionState current errs (eng : Engine W),
      exists delta,
        log (snd (runRepeated continueOnError iterations steps conditionState
                              current errs eng))
        = log eng ++ delta
        /\ Forall (fun call => snd call = conditionState) (calls delta))
  /\ exists final given conditionState,
       repeatUntilRun false neverDone [trailStep "A"; trailStep "B"]
         (options 1 false false) Parallel.emptyState (mkEngine tt [])
       = (Resolved final,
          mkEngine tt [EvIteration 1; EvCall "check" given;
                       EvCall "A" conditionState; EvCall "B" conditionState])
       /\ fst (execute neverDone given tt) = Resolved conditionState
       /\ Js.field "trail" (VObj (data final)) = VArr [VStr "B"].
Proof.
  split.
  - intros. apply runRepeated_inputs.
  - eexists _, _, _. split; [vm_compute; reflexivity|]. split; reflexivity.
Qed.

Lemma optFlag_Some (b : bool) : optFlag (Some b) = b.
Proof. now destruct b. Qed.

(** C9, as the code has it.  For a loop whose condition never records a
    passing evaluation and in which a step throws only under
    [continueOnError = true], [maxIterations = N] iterations are run, numbered
    1 to N.  With [throwOnMaxIterations = true] the run then rejects with a
    MaxIterationsError whose [completedIterations] is N, and no state is
    returned.  With [throwOnMaxIterations = false] it resolves with a state
    whose bookkeeping has [completed = N], [conditionMet = false], and whose
    errors end with every error thrown inside the loop, in order. *)
Theorem repeatUntil_exhausts_iterations {W : Type} (tm : bool)
    (conditionStep : ResearchStep W) (stepsToRepeat : list (ResearchStep W))
    (N : Z) (throwOnMax continueOnError : bool) (rcfg : option Track.RetryConfig)
    (state : ResearchState) (eng : Engine W) :
  (0 < N)%Z ->
  (forall s w s' w',
      execute conditionStep s w = (Resolved s', w') -> conditionPassed s' = false) ->
  (forall step, In step (conditionStep :: stepsToRepeat) ->
   forall s w e w', execute step s w = (Rejected e, w') -> continueOnError = true) ->
  let run := repeatUntilRun tm conditionStep stepsToRepeat
               (mkRepeat (Some N) (Some throwOnMax) (Some continueOnError) rcfg)
               state eng in
  exists delta,
    log (snd run) = log eng ++ delta
    /\ announced delta = map Z.of_nat (seq 1 (Z.to_nat N))
    /\ (throwOnMax = true ->
        fst run = Rejected (ThrownError (maxIterationsError N N (name conditionStep))))
    /\ (throwOnMax = false ->
        exists final current,
          fst run = Resolved final
          /\ Js.field (name conditionStep) (Js.field "iterations" (VObj (data final)))
             = VObj [("completed", VNum (Fin (inject_Z N)));
                     ("conditionMet", VBool false);
                     ("maxReached", VBool true);
                     ("iterationErrors",
                      VBool (negb (Nat.eqb (List.length (thrownIn delta)) 0)));
                     ("errorCount", natNum (List.length (thrownIn delta)))]
          /\ errors final = errors current ++ map asError (thrownIn delta)).
Proof.
  intros HN Hnever Htol run. subst run.
  unfold repeatUntilRun, createStepRun, creationOptions, effectiveMaxIterations.
  cbn [c_retryable maxIterations throwOnMaxIterations FlowControl.continueOnError].
  rewrite !optFlag_Some.
  set (start := withMeta "currentStep" (VStr "RepeatUntil") state).
  destruct (loop_exhausts conditionStep stepsToRepeat continueOnError Hnever Htol
              (Z.to_nat N) (mkLoop start 0 false []) eng eq_refl)
    as ([current its met errs] & eng' & delta & Hloop & Hlog & Hann & Hits & Hmet & Herrs).
  cbn [iterations conditionMet iterationErrors] in Hann, Hits, Hmet, Herrs.
  rewrite Z2Nat.id in Hits by lia. simpl in Hits, Herrs. subst its met errs.
  exists delta.
  assert (Hann' : announced delta = map Z.of_nat (seq 1 (Z.to_nat N)))
    by (rewrite Hann; apply map_ext; intro k; lia).
  destruct throwOnMax.
  - assert (Hfn : executeFunc "RepeatUntil"
                    (repeatUntilBody conditionStep stepsToRepeat N true continueOnError)
                    state eng
                  = (Rejected (ThrownError (maxIterationsError N N (name conditionStep))),
                     eng')).
    { unfold executeFunc. fold start. unfold repeatUntilBody. now rewrite Hloop. }
    rewrite (RetryFacts.executeWithRetry_not_retried _ _ _ _ _ _ _ _ Hfn);
      try reflexivity.
    cbn [fst snd].
    split; [assumption|]. split; [assumption|]. split; [reflexivity|discriminate].
  - assert (Hfn : executeFunc "RepeatUntil"
                    (repeatUntilBody conditionStep stepsToRepeat N false continueOnError)
                    state eng
                  = (Resolved (finalState (name conditionStep) N
                                 (mkLoop current N false (map asError (thrownIn delta)))),
                     eng')).
    { unfold executeFunc. fold start. unfold repeatUntilBody. now rewrite Hloop. }
    rewrite (RetryFacts.executeWithRetry_resolved _ _ _ _ _ _ _ _ Hfn).
    cbn [fst snd]. split; [assumption|]. split; [assumption|]. split; [discriminate|].
    intros _. eexists _, current. split; [reflexivity|].
    unfold finalState. cbn [data errors currentState iterationErrors].
    rewrite !RunnerFacts.field_set_same. unfold iterationRecord.
    cbn [iterations conditionMet iterationErrors].
    rewrite Z.leb_refl, length_map. split; reflexivity.
Qed.

(** Three iterations of a loop whose first repeated step throws each time,
    with [continueOnError]: the three errors end up in the returned state. *)
Lemma repeatUntil_exhausts_iterations_witness :
  exists final,
    fst (repeatUntilRun false neverDone [Parallel.throwingStep "fetch"; trailStep "A"]
           (options 3 false true) Parallel.emptyState (mkEngine tt []))
    = Resolved final
    /\ Js.field "completed" (Js.field "check" (Js.field "iterations" (VObj (data final))))
       = VNum (Fin (inject_Z 3))
    /\ map message (errors final) = ["boom"; "boom"; "boom"].
Proof.
  assert (Hnever : forall s (w : unit) s' w',
             execute neverDone s w = (Resolved s', w') -> conditionPassed s' = false).
  { intros s w s' w' H. injection H as <- _. unfold conditionPassed, withData.
    cbn [data]. rewrite RunnerFacts.field_set_same. reflexivity. }
  destruct (repeatUntil_exhausts_iterations false neverDone
              [Parallel.throwingStep "fetch"; trailStep "A"] 3 false true None
              Parallel.emptyState (mkEngine tt []) eq_refl Hnever
              (fun _ _ _ _ _ _ _ => eq_refl))
    as (delta & _ & _ & _ & Hreturn).
  destruct (Hreturn eq_refl) as (final & current & Hrun & _ & _).
  exists final. split; [exact Hrun|].
  vm_compute in Hrun. injection Hrun as <-. split; reflexivity.
Defined.

(** C9 as stated fails in two ways.  With the default
    [continueOnError = false] a throwing repeated step ends the run in the
    first iteration with a ProcessingError, not a MaxIterationsError after
    three.  With [continueOnError = true] and [throwOnMaxIterations = true]
    the three errors thrown inside the loop are in no state: the run
    rejects, and its error carries the counters only. *)
Lemma repeatUntil_aborts_counterexample :
  let aborted :=
    repeatUntilRun false neverDone [Parallel.throwingStep "fetch"]
      (options 3 true false) Parallel.emptyState (mkEngine tt []) in
  let exhausted :=
    repeatUntilRun false neverDone [Parallel.throwingStep "fetch"]
      (options 3 true true) Parallel.emptyState (mkEngine tt []) in
  announced (log (snd aborted)) = [1%Z]
  /\ (exists e, fst aborted = Rejected (ThrownError e)
                /\ cls e = ProcessingError
                /\ instanceOf (cls e) MaxIterationsError = false)
  /\ fst exhausted = Rejected (ThrownError (maxIterationsError 3 3 "check"))
  /\ List.length (thrownIn (log (snd exhausted))) = 3
  /\ Js.keys (details (maxIterationsError 3 3 "check"))
     = ["maxIterations"; "completedIterations"; "conditionStepName"].
Proof.
  cbv zeta. split; [reflexivity|]. split; [|repeat split].
  eexists. split; [vm_compute; reflexivity|]. split; reflexivity.
Qed.

End FlowFacts.

(** ** Retry executor: further properties *)

Module RetryMoreFacts.
Import Retry RetryMore.

Section AnyOperation.
Context {W T : Type}.
Variable sleep : Z -> W -> W.
Variable yield : W -> W.
Variable testMode : bool.
Variable fn : W -> Outcome T * W.
Variable options : RetryOptions W.

(** What the exit test throws was thrown by the caller's predicate. *)
Lemma givesUp_thrown (limit : bool) (e thrown : Thrown) :
  givesUp (orDefault (retryableErrors options) (returning defaultIsRetryable)) limit e
  = Rejected thrown ->
  exists pred, retryableErrors options = Some pred /\ pred e = Rejected thrown.
Proof.
  unfold givesUp. destruct limit; [discriminate|].
  destruct (retryableErrors options) as [pred|]; cbn [orDefault].
  - destruct (pred e) as [b|t] eqn:E; [discriminate|].
    intro H. injection H as <-. now exists pred.
  - unfold returning. discriminate.
Qed.

Lemma onRetry_thrown (attempt delay : Z) (e thrown : Thrown) (w w' : W) :
  orDefault (onRetry options) defaultOnRetry attempt e delay w = (Rejected thrown, w') ->
  exists note, onRetry options = Some note
               /\ note attempt e delay w = (Rejected thrown, w').
Proof.
  destruct (onRetry options) as [note|]; cbn [orDefault].
  - intro H. now exists note.
  - unfold defaultOnRetry, notifying. discriminate.
Qed.

Lemma retryLoop_outcome_of_fn (remaining : nat) :
  forall attempt last w,
    retryLoop sleep yield testMode fn options remaining attempt last w
    = (Rejected last, w) /\ remaining = O
    \/ (exists w1,
          fn w1 = retryLoop sleep yield testMode fn options remaining attempt last w)
    \/ thrownByCallback options
         (retryLoop sleep yield testMode fn options remaining attempt last w).
Proof.
  induction remaining as [|r IH]; intros attempt last w; [left; now split|].
  right. cbn [retryLoop].
  destruct (orDefault (onRetry options) defaultOnRetry _ last _ w) as [[u|thrown] w0] eqn:En.
  2:{ right. right. destruct (onRetry_thrown _ _ _ _ _ _ En) as (note & Hn & Hcall).
      eexists note, _, last, _, w, thrown.
      split; [exact Hn|]. split; [exact Hcall|reflexivity]. }
  set (w1 := if testMode then _ else _).
  destruct (fn w1) as [[v|e] w2] eqn:E.
  - left. exists w1. exact E.
  - destruct (givesUp _ _ e) as [[|]|thrown] eqn:Eg.
    + left. exists w1. exact E.
    + destruct (IH (attempt + 1)%Z e w2) as [[Hr Hz]|[Hex|Hcb]].
      * rewrite Hr. left. exists w1. exact E.
      * left. exact Hex.
      * right. exact Hcb.
    + right. left. destruct (givesUp_thrown _ _ _ Eg) as (pred & Hp & Hcall).
      exists pred, e, thrown. now repeat split.
Qed.
End AnyOperation.

(** X1.  The executor settles exactly as one call of the operation
    settled, in the world that call left (it returns the value of a call or
    rethrows the error of a call, and does nothing after it), unless one of
    the caller's callbacks throws: [retryableErrors] and [onRetry] are
    called outside any [try], and what they throw ends the run. *)
Theorem executeWithRetry_outcome_of_fn {W T : Type} (sleep : Z -> W -> W)
    (yield : W -> W) (testMode : bool) (fn : W -> Outcome T * W)
    (options : RetryOptions W) (w : W) :
  (exists w1, fn w1 = executeWithRetry sleep yield testMode fn options w)
  \/ thrownByCallback options (executeWithRetry sleep yield testMode fn options w).
Proof.
  unfold executeWithRetry.
  destruct (fn w) as [[v|e] w'] eqn:E.
  - left. exists w. exact E.
  - destruct (givesUp _ _ e) as [[|]|thrown] eqn:Eg.
    + left. exists w. exact E.
    + destruct (retryLoop_outcome_of_fn sleep yield testMode fn options
                  (Z.to_nat (orDefault (maxRetries options) DEFAULT_maxRetries))
                  0%Z e w') as [[_ Hz]|[Hex|Hcb]].
      * unfold givesUp in Eg.
        destruct (orDefault (maxRetries options) DEFAULT_maxRetries <=? 0)%Z eqn:Hmax;
          [discriminate|].
        apply Z.leb_gt in Hmax. lia.
      * left. exact Hex.
      * right. exact Hcb.
    + right. left.
      destruct (givesUp_thrown options _ _ _ Eg) as (pred & Hp & Hcall).
      exists pred, e, thrown. now repeat split.
Qed.

Section Traced.
Context {T : Type}.
Variable testMode : bool.
Variable fn : Trace -> Outcome T * Trace.
Variables maxR delay factor : Z.
Variable pred : Thrown -> bool.

(** Every call is noted, and nothing else is. *)
Hypothesis fn_notes_call : forall t, snd (fn t) = t ++ [Call].

Lemma retryLoop_trace_shape (remaining : nat) :
  forall k last t,
  exists j, (j <= remaining)%nat
    /\ snd (retryLoop traceSleep traceYield testMode fn
              (tracedOptions maxR delay factor pred) remaining (Z.of_nat k) last t)
       = t ++ rounds testMode delay factor (S k) j.
Proof.
  induction remaining as [|r IH]; intros k last t.
  - exists 0. split; [lia|]. simpl. now rewrite app_nil_r.
  - rewrite RetryFacts.retryLoop_traced_round.
    set (t1 := if testMode then _ else _).
    assert (Ht1 : t1 ++ [Call] = t ++ retryRound testMode delay factor (S k))
      by apply RetryFacts.round_trace.
    pose proof (fn_notes_call t1) as Hn.
    destruct (fn t1) as [[v|e] t2]; cbn [snd] in Hn; subst t2.
    + exists 1. split; [lia|]. cbn [snd]. rewrite Ht1. unfold rounds.
      cbn [seq map List.concat]. now rewrite app_nil_r.
    + destruct (_ || _).
      * exists 1. split; [lia|]. cbn [snd]. rewrite Ht1. unfold rounds.
        cbn [seq map List.concat]. now rewrite app_nil_r.
      * destruct (IH (S k) e (t1 ++ [Call])) as (j & Hj & Hs).
        exists (S j). split; [lia|]. rewrite Hs, Ht1. unfold rounds.
        cbn [seq map List.concat]. now rewrite <- app_assoc.
Qed.
End Traced.

(** X2.  Whatever the outcomes of the operation, a run makes at most
    [maxRetries + 1] calls (one call when [maxRetries <= 0]); every call
    after the first is announced through [onRetry], and the delay announced
    before retry [k] is [retryDelay * backoffFactor^(k-1)]. *)
Theorem executeWithRetry_call_bound {T : Type} (testMode : bool)
    (fn : Trace -> Outcome T * Trace) (maxR delay factor : Z) (pred : Thrown -> bool)
    (fn_notes_call : forall t, snd (fn t) = t ++ [Call]) :
  let run := runTraced testMode fn maxR delay factor pred in
  exists j,
    (j <= Z.to_nat maxR)%nat
    /\ snd run = Call :: rounds testMode delay factor 1 j
    /\ callCount (snd run) = S j
    /\ notifiedDelays (snd run) = map (backoffDelay delay factor) (seq 1 j).
Proof.
  intro run.
  assert (Hshape : exists j, (j <= Z.to_nat maxR)%nat
                     /\ snd run = Call :: rounds testMode delay factor 1 j).
  { subst run. rewrite RetryFacts.runTraced_first_call.
    pose proof (fn_notes_call []) as Hn.
    destruct (fn []) as [[v|e] t1]; cbn [snd] in Hn; subst t1.
    - exists 0. split; [lia|]. reflexivity.
    - destruct (_ || _).
      + exists 0. split; [lia|]. reflexivity.
      + destruct (retryLoop_trace_shape testMode fn maxR delay factor pred
                    fn_notes_call (Z.to_nat maxR) 0 e ([] ++ [Call]))
          as (j & Hj & Hs).
        exists j. split; [exact Hj|]. exact Hs. }
  destruct Hshape as (j & Hj & Hs). exists j. rewrite Hs.
  split; [exact Hj|]. split; [reflexivity|]. split.
  - change (Call :: rounds testMode delay factor 1 j)
      with ([Call] ++ rounds testMode delay factor 1 j).
    now rewrite RetryFacts.callCount_app, RetryFacts.callCount_rounds.
  - change (Call :: rounds testMode delay factor 1 j)
      with ([Call] ++ rounds testMode delay factor 1 j).
    now rewrite RetryFacts.notifiedDelays_app, RetryFacts.notifiedDelays_rounds.
Qed.

Lemma executeWithRetry_call_bound_witness :
  exists j, (j <= 3)%nat
    /\ callCount (snd (runTraced false (scripted failsTwice) 3 100 2 defaultIsRetryable))
       = S j.
Proof.
  destruct (executeWithRetry_call_bound false (scripted failsTwice) 3 100 2
              defaultIsRetryable (fun t => eq_refl)) as (j & Hj & _ & Hc & _).
  exists j. split; [exact Hj | exact Hc].
Defined.

Section Scripted.
Context {T : Type}.
Variable testMode : bool.
Variable out : nat -> Outcome T.
Variables maxR delay factor : Z.
Variable pred : Thrown -> bool.

(** The loop goes on through retryable failures up to the first success. *)
Lemma retryLoop_until_success (m : nat) :
  forall remaining k last t v,
    (S m <= remaining)%nat ->
    callCount t = S k ->
    (forall i, (k < i < k + S m)%nat -> exists e, out i = Rejected e /\ pred e = true) ->
    out (k + S m) = Resolved v ->
    (Z.of_nat (k + S m) <= maxR)%Z ->
    retryLoop traceSleep traceYield testMode (scripted out)
              (tracedOptions maxR delay factor pred) remaining (Z.of_nat k) last t
    = (Resolved v, t ++ rounds testMode delay factor (S k) (S m)).
Proof.
  induction m as [|m IH]; intros [|r] k last t v Hrem Hcount Hfail Hok Hmax; try lia.
  - rewrite RetryFacts.retryLoop_traced_round.
    set (t1 := if testMode then _ else _).
    assert (Hc1 : callCount t1 = S k).
    { subst t1. unfold traceYield, traceSleep, traceNotify.
      destruct testMode; rewrite !RetryFacts.callCount_app, Hcount;
        unfold callCount; simpl; lia. }
    unfold scripted at 1. rewrite Hc1.
    replace (k + 1)%nat with (S k) in Hok by lia. rewrite Hok.
    unfold rounds. cbn [seq map List.concat]. rewrite app_nil_r.
    f_equal. apply RetryFacts.round_trace.
  - rewrite RetryFacts.retryLoop_traced_round.
    set (t1 := if testMode then _ else _).
    assert (Hc1 : callCount t1 = S k).
    { subst t1. unfold traceYield, traceSleep, traceNotify.
      destruct testMode; rewrite !RetryFacts.callCount_app, Hcount;
        unfold callCount; simpl; lia. }
    unfold scripted at 1. rewrite Hc1.
    destruct (Hfail (S k) ltac:(lia)) as (e & He & Hp). rewrite He, Hp.
    cbn [negb]. rewrite orb_false_r.
    replace (Z.of_nat (S k) >=? maxR)%Z with false
      by (symmetry; rewrite Z.geb_leb; apply Z.leb_gt; lia).
    assert (Ht1 : t1 ++ [Call] = t ++ retryRound testMode delay factor (S k))
      by apply RetryFacts.round_trace.
    assert (Hnext : (S k + S m = k + S (S m))%nat) by lia.
    assert (Hc2 : callCount (t1 ++ [Call]) = S (S k))
      by (rewrite RetryFacts.callCount_app, Hc1; unfold callCount; simpl; lia).
    assert (Hfail' : forall i, (S k < i < S k + S m)%nat ->
                               exists e, out i = Rejected e /\ pred e = true)
      by (intros i Hi; apply Hfail; lia).
    assert (Hok' : out (S k + S m) = Resolved v) by (now rewrite Hnext).
    assert (Hmax' : (Z.of_nat (S k + S m) <= maxR)%Z) by (now rewrite Hnext).
    rewrite (IH r (S k) e (t1 ++ [Call]) v ltac:(lia) Hc2 Hfail' Hok' Hmax').
    rewrite Ht1. unfold rounds. cbn [seq map List.concat].
    now rewrite <- app_assoc.
Qed.
End Scripted.

(** X3.  An operation that fails with retryable errors on its first [j]
    calls and succeeds on the next one, with [j <= maxRetries], makes the
    executor resolve with that value after exactly [j] retries: [j + 1]
    calls, the delays being the first [j] of the backoff schedule. *)
Theorem executeWithRetry_eventual_success {T : Type} (testMode : bool)
    (out : nat -> Outcome T) (maxR delay factor : Z) (pred : Thrown -> bool)
    (j : nat) (v : T) :
  (forall i, (i < j)%nat -> exists e, out i = Rejected e /\ pred e = true) ->
  out j = Resolved v ->
  (Z.of_nat j <= maxR)%Z ->
  runTraced testMode (scripted out) maxR delay factor pred
  = (Resolved v, Call :: rounds testMode delay factor 1 j).
Proof.
  intros Hfail Hok Hmax. rewrite RetryFacts.runTraced_first_call.
  unfold scripted at 1. change (callCount []) with 0.
  destruct j as [|m].
  - now rewrite Hok.
  - destruct (Hfail 0 ltac:(lia)) as (e & He & Hp). rewrite He, Hp.
    cbn [negb]. rewrite orb_false_r.
    replace (maxR <=? 0)%Z with false by (symmetry; apply Z.leb_gt; lia).
    change 0%Z with (Z.of_nat 0).
    rewrite (retryLoop_until_success testMode out maxR delay factor pred m
               (Z.to_nat maxR) 0 e ([] ++ [Call]) v); try reflexivity; try lia.
    + intros i Hi. apply Hfail. lia.
    + exact Hok.
Qed.

Lemma executeWithRetry_eventual_success_witness :
  runTraced false (scripted failsTwice) 3 100 2 defaultIsRetryable
  = (Resolved 42%Z, Call :: rounds false 100 2 1 2).
Proof.
  apply (executeWithRetry_eventual_success false failsTwice 3 100 2
           defaultIsRetryable 2 42%Z).
  - intros i Hi. exists transientFailure.
    destruct i as [|[|i]]; [split; reflexivity | split; reflexivity | lia].
  - reflexivity.
  - lia.
Defined.

End RetryMoreFacts.

(** ** Merger: further properties *)

Module MergeMoreFacts.
Import Merge MergeMore.

Lemma get_set_other {A} (k k' : string) (v : A) (o : list (string * A)) :
  k <> k' -> Js.get k (Js.set k' v o) = Js.get k o.
Proof.
  intro Hne. induction o as [|[k0 v0] o IH]; simpl.
  - destruct (String.eqb_spec k k'); [contradiction|reflexivity].
  - destruct (String.eqb_spec k' k0) as [->|Hk0]; simpl.
    + destruct (String.eqb_spec k k0); [contradiction|reflexivity].
    + destruct (String.eqb_spec k k0); [reflexivity|exact IH].
Qed.

Lemma get_set_here {A} (k : string) (v : A) (o : list (string * A)) :
  Js.get k (Js.set k v o) = Some v.
Proof.
  induction o as [|[k0 v0] o IH]; simpl.
  - now rewrite String.eqb_refl.
  - destruct (String.eqb_spec k k0) as [->|Hk0]; simpl.
    + now rewrite String.eqb_refl.
    + destruct (String.eqb_spec k k0); [contradiction|exact IH].
Qed.

Lemma names_set_new {A} (k : string) (v : A) (o : list (string * A)) :
  Js.get k o = None -> map fst (Js.set k v o) = map fst o ++ [k].
Proof.
  induction o as [|[k0 v0] o IH]; simpl; intro H; [reflexivity|].
  destruct (String.eqb_spec k k0); [discriminate|]. cbn [map fst app].
  f_equal. now apply IH.
Qed.

Lemma get_in_names {A} (k : string) (o : list (string * A)) :
  In k (map fst o) -> exists v, Js.get k o = Some v.
Proof.
  induction o as [|[k0 v0] o IH]; simpl; [contradiction|].
  intros [->|H].
  - rewrite String.eqb_refl. now exists v0.
  - destruct (String.eqb_spec k k0); [now exists v0|now apply IH].
Qed.

(** An assignment under a name that [Object.prototype] does not define
    creates or updates the property. *)
Lemma assign_set {A} (k : string) (v : A) (o : list (string * A)) :
  Js.inherited k = false -> Js.assign k v o = Js.set k v o.
Proof.
  intro H. unfold Js.assign.
  destruct (String.eqb_spec k "__proto__") as [->|_]; [discriminate|reflexivity].
Qed.

(** Without array indices among its names, an object lists its keys in
    the order of their creation. *)
Lemma keys_plain {A} (o : list (string * A)) :
  Forall (fun k => Js.isArrayIndex k = false) (map fst o) -> Js.keys o = map fst o.
Proof.
  intro H. unfold Js.keys. rewrite MergeFacts.entries_plain; [reflexivity|].
  now apply Forall_map in H.
Qed.

Lemma ordinary_spec (k : string) :
  ordinary k = true -> Js.isArrayIndex k = false /\ Js.inherited k = false.
Proof.
  unfold ordinary. intro H. apply andb_prop in H. destruct H as [H1 H2].
  split; [now apply negb_true_iff in H1|now apply negb_true_iff in H2].
Qed.

Lemma NoDup_fold_addKey (ks : list string) :
  forall acc, NoDup acc -> NoDup (fold_left addKey ks acc).
Proof.
  induction ks as [|k ks IH]; intros acc Hacc; [exact Hacc|].
  simpl. apply IH. unfold addKey.
  destruct (existsb (String.eqb k) acc) eqn:E; [exact Hacc|].
  apply NoDup_app; [exact Hacc | repeat constructor; intros [] |].
  intros x Hx [Hk|[]]. subst x.
  assert (existsb (String.eqb k) acc = true)
    by (apply existsb_exists; exists k; split; [exact Hx|apply String.eqb_refl]).
  congruence.
Qed.

Lemma NoDup_allHeldKeys (tracks : list (string * Value)) : NoDup (allHeldKeys tracks).
Proof.
  unfold allHeldKeys. generalize (@nil string), (NoDup_nil string).
  induction tracks as [|t ts IH]; intros acc Hacc; [exact Hacc|].
  simpl. apply IH. now apply NoDup_fold_addKey.
Qed.

Lemma in_heldKeys_fold (tracks : list (string * Value)) :
  forall (acc : list string) (key : string),
    In key (fold_left (fun acc entry => fold_left addKey (heldKeys (snd entry)) acc)
                      tracks acc)
    <-> In key acc \/ exists entry, In entry tracks /\ In key (heldKeys (snd entry)).
Proof.
  induction tracks as [|t ts IH]; intros acc key; simpl.
  - split; [now left|]. intros [H|(e & [] & _)]. exact H.
  - rewrite IH, MergeFacts.in_fold_addKey. split.
    + intros [[H|H]|(e & He & Hk)].
      * now left.
      * right. exists t. split; [now left|exact H].
      * right. exists e. split; [now right|exact Hk].
    + intros [H|(e & [<-|He] & Hk)].
      * left. now left.
      * left. now right.
      * right. now exists e.
Qed.

Lemma allHeld_in (key : string) (tracks : list (string * Value)) :
  forall c, In c (allHeld key tracks) ->
            exists entry, In entry tracks /\ held key entry = Some c.
Proof.
  induction tracks as [|t ts IH]; intros c Hc; [contradiction|].
  cbn [allHeld] in Hc. destruct (held key t) as [c'|] eqn:E.
  - destruct Hc as [<-|Hc].
    + exists t. split; [now left|exact E].
    + destruct (IH c Hc) as (e & He & Hk). exists e. split; [now right|exact Hk].
  - destruct (IH c Hc) as (e & He & Hk). exists e. split; [now right|exact Hk].
Qed.

Lemma allHeld_app (key : string) (a b : list (string * Value)) :
  allHeld key (a ++ b) = allHeld key a ++ allHeld key b.
Proof.
  induction a as [|t ts IH]; [reflexivity|].
  cbn [app allHeld]. destruct (held key t); [|exact IH].
  simpl. now rewrite IH.
Qed.

Lemma allHeld_none (key : string) (tracks : list (string * Value)) :
  Forall (fun entry => held key entry = None) tracks ->
  allHeld key tracks = [].
Proof.
  induction 1 as [|t ts Ht _ IH]; [reflexivity|].
  cbn [allHeld]. now rewrite Ht.
Qed.

Lemma held_in_heldKeys (key : string) (entry : string * Value) :
  held key entry <> None <-> In key (heldKeys (snd entry)).
Proof.
  destruct entry as [name track]. unfold held, heldKeys. cbn [snd].
  destruct (Js.field "data" track) as [| | | | | |o|]; try (split; [congruence|intros []]).
  split.
  - destruct (Js.get key o) as [v|] eqn:Hg; [|congruence]. intros _.
    apply MergeFacts.get_in in Hg. apply in_map_iff. now exists (key, v).
  - intro H. destruct (get_in_names key o H) as (v & ->). discriminate.
Qed.

Lemma allHeld_in_allHeldKeys (tracks : list (string * Value)) (key : string) :
  allHeld key tracks <> [] <-> In key (allHeldKeys tracks).
Proof.
  unfold allHeldKeys. rewrite in_heldKeys_fold. split.
  - intro Hne. right.
    induction tracks as [|t ts IH]; [now contradiction Hne|].
    cbn [allHeld] in Hne. destruct (held key t) eqn:Hc.
    + exists t. split; [now left|]. apply held_in_heldKeys. congruence.
    + destruct (IH Hne) as (e & He & Hk). exists e. split; [now right|exact Hk].
  - intros [[]|(entry & He & Hk)].
    apply in_split in He. destruct He as (before & after & ->).
    rewrite allHeld_app. cbn [allHeld].
    apply held_in_heldKeys in Hk. destruct (held key entry); [|contradiction].
    intro E. apply app_eq_nil in E. destruct E as [_ E]. discriminate.
Qed.

(** *** Plain tracks: the merge collects what the tracks hold *)

Lemma plainTracks_spec (tracks : list (string * Value)) :
  plainTracks tracks = true ->
  Forall (fun e => Js.isArrayIndex (fst e) = false) tracks
  /\ Forall (fun e => plainTrack (snd e) = true) tracks.
Proof.
  unfold plainTracks. rewrite forallb_forall. intro H.
  split; apply Forall_forall; intros e He; specialize (H e He);
    apply andb_prop in H; destruct H as [H1 H2];
    [now apply negb_true_iff in H1|exact H2].
Qed.

Lemma plainTrack_data (track : Value) :
  plainTrack track = true ->
  MergeResults.nullish track = false /\ plainData (Js.field "data" track) = true.
Proof. destruct track; try discriminate; intro H; split; try reflexivity; exact H. Qed.

Lemma plainData_keys (data : Value) :
  plainData data = true ->
  (if Js.truthy data then Js.ownKeys data else [])
  = match data with VObj o => map fst o | _ => [] end
  /\ Forall (fun k => ordinary k = true)
            match data with VObj o => map fst o | _ => [] end.
Proof.
  destruct data as [| |b|n|s|items|o|k]; cbn [plainData Js.truthy negb];
    intro H; try (apply negb_true_iff in H; cbn [Js.truthy] in H; rewrite ?H);
    try (split; [reflexivity|constructor]); try discriminate.
  assert (Hord : Forall (fun k => ordinary k = true) (map fst o)).
  { apply Forall_map, Forall_forall. now apply forallb_forall. }
  split; [|exact Hord].
  unfold Js.ownKeys. cbn [Js.ownProperties]. apply keys_plain.
  eapply Forall_impl; [|exact Hord]. intros k Hk. now apply ordinary_spec.
Qed.

Lemma heldKeys_ordinary (track : Value) :
  plainTrack track = true -> Forall (fun k => ordinary k = true) (heldKeys track).
Proof.
  intro H. apply plainTrack_data in H. destruct H as [_ H].
  apply plainData_keys in H. exact (proj2 H).
Qed.

Lemma allHeldKeys_ordinary (tracks : list (string * Value)) :
  Forall (fun e => plainTrack (snd e) = true) tracks ->
  Forall (fun k => ordinary k = true) (allHeldKeys tracks).
Proof.
  intro H. apply Forall_forall. intros k Hk.
  unfold allHeldKeys in Hk. apply in_heldKeys_fold in Hk.
  destruct Hk as [[]|(entry & He & Hk)].
  rewrite Forall_forall in H.
  pose proof (heldKeys_ordinary _ (H entry He)) as Hord.
  rewrite Forall_forall in Hord. now apply Hord.
Qed.

Section Plain.
Variable exoticMember : string -> Value -> option Value.

Lemma allKeys_plain (tracks : list (string * Value)) :
  Forall (fun e => plainTrack (snd e) = true) tracks ->
  forall acc,
    allKeys tracks acc
    = Resolved (fold_left (fun acc entry => fold_left addKey (heldKeys (snd entry)) acc)
                          tracks acc).
Proof.
  induction 1 as [|[name track] ts Ht _ IH]; intro acc; [reflexivity|].
  cbn [snd] in Ht. apply plainTrack_data in Ht. destruct Ht as [Hobj Hdata].
  cbn [allKeys fold_left snd]. rewrite (MergeFacts.dataOf_resolved track Hobj).
  rewrite IH. f_equal. f_equal. unfold heldKeys.
  destruct (plainData_keys _ Hdata) as [Hkeys _]. rewrite <- Hkeys.
  now destruct (Js.truthy (Js.field "data" track)).
Qed.

Lemma contribution_plain (key : string) (entry : string * Value) :
  plainTrack (snd entry) = true ->
  Js.inherited key = false ->
  contribution exoticMember key entry = Resolved (held key entry).
Proof.
  destruct entry as [name track]. cbn [snd]. intros Ht Hkey.
  apply plainTrack_data in Ht. destruct Ht as [Hobj Hdata].
  unfold contribution, held. rewrite (MergeFacts.dataOf_resolved track Hobj).
  destruct (Js.field "data" track) as [| |b|n|s|items|o|k];
    cbn [plainData] in Hdata;
    try (apply negb_true_iff in Hdata; rewrite Hdata; reflexivity).
  cbn [Js.truthy memberOf]. unfold Js.hasProperty, Js.has, Js.lookup.
  rewrite Hkey. destruct (Js.get key o); reflexivity.
Qed.

Lemma contributions_plain (key : string) (tracks : list (string * Value)) :
  Forall (fun e => plainTrack (snd e) = true) tracks ->
  Js.inherited key = false ->
  contributions exoticMember key tracks = Resolved (allHeld key tracks).
Proof.
  intros H Hkey. induction H as [|entry ts Ht _ IH]; [reflexivity|].
  cbn [contributions allHeld]. rewrite (contribution_plain key entry Ht Hkey), IH.
  now destruct (held key entry).
Qed.
End Plain.

Section Keys.
Variable parseNumber : Value -> Num.
Variable exoticMember : string -> Value -> option Value.
Variable tracks : list (string * Value).
Variable options : ConflictResolutionOptions.
Hypothesis plain : Forall (fun e => plainTrack (snd e) = true) tracks.

Lemma mergeKeys_resolved (keys : list string) :
  forall merged0 merged,
    NoDup keys ->
    Forall (fun k => Js.inherited k = false) keys ->
    (forall k, In k keys -> Js.get k merged0 = None) ->
    mergeKeys parseNumber exoticMember keys tracks options merged0 = Resolved merged ->
    map fst merged = map fst merged0 ++ filter (wanted tracks) keys
    /\ (forall k, ~ In k keys -> Js.get k merged = Js.get k merged0)
    /\ (forall k, In k keys -> wanted tracks k = true ->
                  exists v, resolved parseNumber tracks options k = Resolved v /\ Js.get k merged = Some v)
    /\ (forall k, In k keys -> wanted tracks k = false -> Js.get k merged = None).
Proof.
  induction keys as [|key keys IH]; intros merged0 merged Hnd Hown Hfresh Hrun.
  - cbn [mergeKeys] in Hrun. injection Hrun as <-. cbn [filter].
    rewrite app_nil_r. repeat split; intros; try reflexivity; contradiction.
  - inversion Hnd as [|? ? Hnotin Hnd']; subst.
    inversion Hown as [|? ? Hkey Hown']; subst.
    cbn [mergeKeys] in Hrun. cbn [filter].
    rewrite (contributions_plain exoticMember key tracks plain Hkey) in Hrun.
    cbv beta iota in Hrun.
    assert (Hskip : wanted tracks key = false ->
              mergeKeys parseNumber exoticMember keys tracks options merged0
              = Resolved merged ->
              map fst merged = map fst merged0 ++ filter (wanted tracks) keys
              /\ (forall k, ~ In k (key :: keys) -> Js.get k merged = Js.get k merged0)
              /\ (forall k, In k (key :: keys) -> wanted tracks k = true ->
                    exists v, resolved parseNumber tracks options k = Resolved v /\ Js.get k merged = Some v)
              /\ (forall k, In k (key :: keys) -> wanted tracks k = false ->
                    Js.get k merged = None)).
    { intros Hw Hrun'.
      destruct (IH merged0 merged Hnd' Hown' (fun k Hk => Hfresh k (or_intror Hk)) Hrun')
        as (Hkeys & Hout & Hin & Hno).
      split; [exact Hkeys|]. split; [|split].
      - intros k Hk. apply Hout. intro. apply Hk. now right.
      - intros k [<-|Hk] Hwk; [congruence|now apply Hin].
      - intros k [<-|Hk] Hwk; [|now apply Hno].
        rewrite (Hout key Hnotin). apply Hfresh. now left. }
    unfold wanted at 1, merged_key.
    destruct (String.eqb key "tracks") eqn:Et.
    { cbn [negb andb]. apply Hskip; [|exact Hrun].
      unfold wanted, merged_key. now rewrite Et. }
    cbn [negb andb].
    destruct (allHeld key tracks) as [|c cs] eqn:Hc.
    { apply Hskip; [|exact Hrun]. unfold wanted, merged_key. now rewrite Et, Hc. }
    destruct (resolveConflict parseNumber (map fst (c :: cs)) (map snd (c :: cs)) options)
      as [v|e] eqn:Hres; [|discriminate].
    rewrite (assign_set key v merged0 Hkey) in Hrun.
    assert (Hfresh' : forall k, In k keys -> Js.get k (Js.set key v merged0) = None).
    { intros k Hk. rewrite get_set_other.
      - apply Hfresh. now right.
      - intros ->. contradiction. }
    destruct (IH _ merged Hnd' Hown' Hfresh' Hrun) as (Hkeys & Hout & Hin & Hno).
    split; [|split; [|split]].
    + rewrite Hkeys, names_set_new by (apply Hfresh; now left).
      now rewrite <- app_assoc.
    + intros k Hk. rewrite Hout by (intro; apply Hk; now right).
      apply get_set_other. intros ->. apply Hk. now left.
    + intros k [<-|Hk] Hwk; [|now apply Hin].
      exists v. split.
      * unfold resolved. rewrite Hc. exact Hres.
      * rewrite (Hout key Hnotin). apply get_set_here.
    + intros k [<-|Hk] Hwk; [|now apply Hno].
      unfold wanted, merged_key in Hwk. rewrite Et, Hc in Hwk. discriminate.
Qed.

Lemma mergeKeys_total (keys : list string) :
  Forall (fun k => Js.inherited k = false) keys ->
  (forall k, In k keys -> wanted tracks k = true -> exists v, resolved parseNumber tracks options k = Resolved v) ->
  forall merged0, exists merged,
    mergeKeys parseNumber exoticMember keys tracks options merged0 = Resolved merged.
Proof.
  induction keys as [|key keys IH]; intros Hown Hall merged0.
  - now exists merged0.
  - inversion Hown as [|? ? Hkey Hown']; subst. cbn [mergeKeys].
    rewrite (contributions_plain exoticMember key tracks plain Hkey).
    cbv beta iota.
    assert (Hall' : forall k, In k keys -> wanted tracks k = true ->
                              exists v, resolved parseNumber tracks options k = Resolved v)
      by (intros k Hk; apply Hall; now right).
    destruct (String.eqb key "tracks") eqn:Et; [now apply IH|].
    destruct (allHeld key tracks) as [|c cs] eqn:Hc; [now apply IH|].
    destruct (Hall key (or_introl eq_refl)) as (v & Hv).
    { unfold wanted, merged_key. now rewrite Et, Hc. }
    unfold resolved in Hv. rewrite Hc in Hv. rewrite Hv. now apply IH.
Qed.

Lemma wanted_allHeldKeys (key : string) :
  In key (allHeldKeys tracks) -> wanted tracks key = merged_key key.
Proof.
  intro Hin. apply allHeld_in_allHeldKeys in Hin. unfold wanted.
  destruct (allHeld key tracks); [contradiction|]. apply andb_true_r.
Qed.

Lemma allHeldKeys_own : Forall (fun k => Js.inherited k = false) (allHeldKeys tracks).
Proof.
  eapply Forall_impl; [|exact (allHeldKeys_ordinary tracks plain)].
  intros k Hk. now apply ordinary_spec.
Qed.

Hypothesis named : Forall (fun e => Js.isArrayIndex (fst e) = false) tracks.

Lemma mergeTrackData_unfold :
  mergeTrackData parseNumber exoticMember tracks options
  = mergeKeys parseNumber exoticMember (allHeldKeys tracks) tracks options [].
Proof.
  unfold mergeTrackData. rewrite (MergeFacts.entries_plain tracks named).
  now rewrite (allKeys_plain tracks plain []).
Qed.

(** What a finished merge of plain tracks holds, key by key. *)
Lemma mergeTrackData_resolved (merged : Obj) :
  mergeTrackData parseNumber exoticMember tracks options = Resolved merged ->
  Js.keys merged = filter merged_key (allHeldKeys tracks)
  /\ (forall k, k <> "tracks" -> allHeld k tracks <> [] ->
                exists v, resolved parseNumber tracks options k = Resolved v /\ Js.get k merged = Some v)
  /\ (forall k, k = "tracks" \/ allHeld k tracks = [] -> Js.get k merged = None).
Proof.
  intro Hrun. rewrite mergeTrackData_unfold in Hrun.
  destruct (mergeKeys_resolved (allHeldKeys tracks) [] merged (NoDup_allHeldKeys tracks)
              allHeldKeys_own (fun _ _ => eq_refl) Hrun) as (Hkeys & Hout & Hin & Hno).
  assert (Hnames : map fst merged = filter merged_key (allHeldKeys tracks)).
  { rewrite Hkeys. cbn [map app]. apply filter_ext_in.
    intros k Hk. now apply wanted_allHeldKeys. }
  split; [|split].
  - rewrite keys_plain; [exact Hnames|]. rewrite Hnames.
    apply Forall_forall. intros k Hk. apply filter_In in Hk. destruct Hk as [Hk _].
    pose proof (allHeldKeys_ordinary tracks plain) as Hord.
    rewrite Forall_forall in Hord. now apply ordinary_spec, Hord.
  - intros k Hne Hc. apply Hin.
    + now apply allHeld_in_allHeldKeys.
    + unfold wanted, merged_key.
      destruct (String.eqb_spec k "tracks"); [contradiction|].
      destruct (allHeld k tracks); [contradiction|reflexivity].
  - intros k Hk. destruct (in_dec string_dec k (allHeldKeys tracks)) as [Hka|Hka].
    + apply Hno; [exact Hka|]. unfold wanted, merged_key.
      destruct Hk as [->|Hc]; [reflexivity|]. rewrite Hc. apply andb_false_r.
    + now rewrite (Hout k Hka).
Qed.

Lemma mergeTrackData_total :
  (forall k, k <> "tracks" -> allHeld k tracks <> [] ->
             exists v, resolved parseNumber tracks options k = Resolved v) ->
  exists merged, mergeTrackData parseNumber exoticMember tracks options = Resolved merged.
Proof.
  intro Hall. rewrite mergeTrackData_unfold. apply mergeKeys_total; [exact allHeldKeys_own|].
  intros k _ Hw. unfold wanted, merged_key in Hw.
  apply andb_prop in Hw. destruct Hw as [Hk Hc]. apply Hall.
  - intros ->. discriminate.
  - intro E. rewrite E in Hc. discriminate.
Qed.
End Keys.

(** X4.  A merge of plain tracks (data keys that are neither array indices
    nor names of [Object.prototype], track names that are no array indices)
    that finishes holds exactly the data keys of the tracks, each once and
    in order of first appearance, except [tracks], which is never merged. *)
Theorem mergeTrackData_keys (parseNumber : Value -> Num)
    (exoticMember : string -> Value -> option Value)
    (tracks : list (string * Value)) (options : ConflictResolutionOptions)
    (merged : Obj) :
  plainTracks tracks = true ->
  mergeTrackData parseNumber exoticMember tracks options = Resolved merged ->
  Js.keys merged = filter merged_key (allHeldKeys tracks)
  /\ NoDup (Js.keys merged)
  /\ Js.get "tracks" merged = None.
Proof.
  intros Hplain Hrun. apply plainTracks_spec in Hplain. destruct Hplain as [Hn Hp].
  destruct (mergeTrackData_resolved parseNumber exoticMember tracks options Hp Hn
              merged Hrun) as (Hkeys & _ & Hno).
  split; [exact Hkeys|]. split.
  - rewrite Hkeys. apply NoDup_filter, NoDup_allHeldKeys.
  - apply Hno. now left.
Qed.

Lemma mergeTrackData_keys_witness :
  Js.keys [("key1", VStr "b"); ("key2", VStr "a"); ("key3", VStr "c")]
  = filter merged_key
      (allHeldKeys [("track1", trackResult "track1" []
                                 [("key1", VStr "a"); ("tracks", VNull); ("key2", VStr "a")]
                                 [] [] true);
                    ("track2", trackResult "track2" []
                                 [("key1", VStr "b"); ("key3", VStr "c")] [] [] true)]).
Proof.
  apply (mergeTrackData_keys noParse noExotic
           [("track1", trackResult "track1" []
                         [("key1", VStr "a"); ("tracks", VNull); ("key2", VStr "a")]
                         [] [] true);
            ("track2", trackResult "track2" []
                         [("key1", VStr "b"); ("key3", VStr "c")] [] [] true)]
           defaultDataOptions).
  - reflexivity.
  - reflexivity.
Defined.

Lemma last_in {A} (l : list A) (d : A) : l <> [] -> In (last l d) l.
Proof.
  induction l as [|x [|y l] IH]; intro H; [contradiction|now left|].
  right. apply IH. discriminate.
Qed.

Lemma in_insertSorted {A} (cmp : A -> A -> Num) (y : A) (l : list A) (x : A) :
  In x (insertSorted cmp y l) -> x = y \/ In x l.
Proof.
  induction l as [|h t IH]; simpl.
  - intros [<-|[]]. now left.
  - destruct (negative (cmp y h)); simpl.
    + intros [<-|H]; [now left|now right].
    + intros [<-|H]; [right; now left|]. destruct (IH H); [now left|right; now right].
Qed.

Lemma in_fold_insertSorted {A} (cmp : A -> A -> Num) (l : list A) :
  forall acc x,
    In x (fold_left (fun acc x => insertSorted cmp x acc) l acc) -> In x acc \/ In x l.
Proof.
  induction l as [|y l IH]; intros acc x H; simpl in *; [now left|].
  destruct (IH _ _ H) as [H'|H']; [|right; now right].
  destruct (in_insertSorted _ _ _ _ H') as [->|H'']; [right; now left|now left].
Qed.

Lemma insertSorted_cons {A} (cmp : A -> A -> Num) (x : A) (l : list A) :
  insertSorted cmp x l <> [].
Proof. destruct l as [|h t]; simpl; [|destruct (negative _)]; discriminate. Qed.

Lemma fold_insertSorted_cons {A} (cmp : A -> A -> Num) (l : list A) :
  forall acc, acc <> [] ->
              fold_left (fun acc x => insertSorted cmp x acc) l acc <> [].
Proof.
  induction l as [|y l IH]; intros acc H; simpl; [exact H|].
  apply IH, insertSorted_cons.
Qed.

(** The head of the sorted array: the running best, replaced only by a
    strictly smaller element of the order. *)
Lemma fold_insertSorted_hd {A} (cmp : A -> A -> Num) (l : list A) :
  forall h t, exists t',
    fold_left (fun acc x => insertSorted cmp x acc) l (h :: t)
    = fold_left (fun best x => if negative (cmp x best) then x else best) l h :: t'.
Proof.
  induction l as [|y l IH]; intros h t; [now exists t|].
  cbn [fold_left insertSorted]. destruct (negative (cmp y h)); apply IH.
Qed.

Lemma in_mapiFrom {A B} (f : A -> nat -> B) (l : list A) :
  forall s y, In y (mapiFrom s f l) ->
              exists a i, In a l /\ (s <= i < s + List.length l)%nat /\ y = f a i.
Proof.
  induction l as [|a l IH]; intros s y H; [contradiction|].
  destruct H as [<-|H].
  - exists a, s. split; [now left|]. split; [simpl; lia|reflexivity].
  - destruct (IH _ _ H) as (a' & i & Ha & Hi & ->).
    exists a', i. split; [now right|]. split; [simpl; lia|reflexivity].
Qed.

Lemma countValue_cons (v : Value) (counts : list (Value * nat)) :
  countValue v counts <> [].
Proof.
  destruct counts as [|[v' c] rest]; cbn [countValue];
    [|destruct (Js.sameJson v v')]; discriminate.
Qed.

Lemma countValue_good (vals : list Value) (v : Value) (counts : list (Value * nat)) :
  In v vals ->
  Forall (fun e => In (fst e) vals /\ (1 <= snd e)%nat) counts ->
  Forall (fun e => In (fst e) vals /\ (1 <= snd e)%nat) (countValue v counts).
Proof.
  intros Hv. induction 1 as [|[v' c] rest [Hin Hc] Hrest IH]; cbn [countValue].
  - repeat constructor. exact Hv.
  - destruct (Js.sameJson v v'); constructor; try assumption; simpl in *; split;
      try assumption; lia.
Qed.

Lemma counts_good (vals l : list Value) :
  forall counts,
    incl l vals ->
    Forall (fun e => In (fst e) vals /\ (1 <= snd e)%nat) counts ->
    Forall (fun e => In (fst e) vals /\ (1 <= snd e)%nat)
           (fold_left (fun acc v => countValue v acc) l counts).
Proof.
  induction l as [|v l IH]; intros counts Hincl Hgood; [exact Hgood|].
  simpl. apply IH.
  - intros x Hx. apply Hincl. now right.
  - apply countValue_good; [apply Hincl; now left|exact Hgood].
Qed.

Lemma counts_cons (l : list Value) :
  forall counts, counts <> [] ->
                 fold_left (fun acc v => countValue v acc) l counts <> [].
Proof.
  induction l as [|v l IH]; intros counts H; simpl; [exact H|].
  apply IH, countValue_cons.
Qed.

Lemma pick_good (vals : list Value) (counts : list (Value * nat)) :
  Forall (fun e => In (fst e) vals /\ (1 <= snd e)%nat) counts ->
  forall acc : nat * Value,
    In (snd acc) vals ->
    In (snd (fold_left
               (fun (acc : nat * Value) (entry : Value * nat) =>
                  if Nat.ltb (fst acc) (snd entry) then (snd entry, fst entry) else acc)
               counts acc)) vals.
Proof.
  induction 1 as [|e rest [Hin Hc] _ IH]; intros acc Hacc; [exact Hacc|].
  simpl. apply IH. now destruct (Nat.ltb (fst acc) (snd e)).
Qed.

Section Select.
Variable parseNumber : Value -> Num.

(** The four selecting strategies return one of the collected values. *)
Lemma resolveConflict_selects (values : list Value) (metadata : list Meta)
    (options : ConflictResolutionOptions) :
  selecting (strategy options) = true ->
  values <> [] ->
  List.length metadata = List.length values ->
  exists v, resolveConflict parseNumber values metadata options = Resolved v
            /\ In v values.
Proof.
  intros Hsel Hne Hlen. destruct values as [|v0 [|v1 vs]]; [contradiction| |].
  - exists v0. split; [reflexivity|now left].
  - unfold resolveConflict. destruct (strategy options); try discriminate.
    + exists v0. split; [reflexivity|now left].
    + eexists. split; [reflexivity|]. apply last_in. discriminate.
    + match goal with
      | |- context [sort ?cmp ?l] =>
          pose proof (in_fold_insertSorted cmp l []) as Hin;
          pose proof (fold_insertSorted_cons cmp) as Hcons;
          fold (sort cmp l) in Hin; destruct (sort cmp l) as [|best rest] eqn:Hs
      end.
      * exfalso. unfold sort in Hs. destruct metadata as [|m ms]; [discriminate|].
        unfold mapi in Hs. cbn [mapiFrom fold_left] in Hs.
        revert Hs. apply Hcons. apply insertSorted_cons.
      * exists (fst best). split; [reflexivity|].
        destruct (Hin best (or_introl eq_refl)) as [[]|Hb].
        apply in_mapiFrom in Hb. destruct Hb as (m & i & _ & Hi & ->).
        cbn [fst]. apply nth_In. lia.
    + eexists. split; [reflexivity|].
      set (vals := v0 :: v1 :: vs).
      assert (Hgood : Forall (fun e => In (fst e) vals /\ (1 <= snd e)%nat)
                        (fold_left (fun acc v => countValue v acc) vals []))
        by (apply counts_good; [apply incl_refl|constructor]).
      assert (Hcons : fold_left (fun acc v => countValue v acc) vals [] <> [])
        by (unfold vals; cbn [fold_left]; apply counts_cons, countValue_cons).
      destruct (fold_left (fun acc v => countValue v acc) vals []) as [|e rest];
        [contradiction|].
      inversion Hgood as [|? ? [Hin Hc] Hrest]; subst.
      cbn [fold_left fst snd].
      replace (Nat.ltb 0 (snd e)) with true by (symmetry; apply Nat.ltb_lt; lia).
      apply pick_good; [exact Hrest|exact Hin].
Qed.
End Select.

Lemma selecting_resolves (parseNumber : Value -> Num)
    (tracks : list (string * Value)) (options : ConflictResolutionOptions) :
  selecting (strategy options) = true ->
  forall k, allHeld k tracks <> [] ->
            exists v, resolved parseNumber tracks options k = Resolved v
                      /\ In v (map fst (allHeld k tracks)).
Proof.
  intros Hsel k Hc. apply resolveConflict_selects; [exact Hsel| |now rewrite !length_map].
  destruct (allHeld k tracks); [contradiction|discriminate].
Qed.

Lemma selecting_merge_total (parseNumber : Value -> Num)
    (exoticMember : string -> Value -> option Value)
    (tracks : list (string * Value)) (options : ConflictResolutionOptions) :
  plainTracks tracks = true ->
  selecting (strategy options) = true ->
  exists merged, mergeTrackData parseNumber exoticMember tracks options = Resolved merged.
Proof.
  intros Hplain Hsel. apply plainTracks_spec in Hplain. destruct Hplain as [Hn Hp].
  apply mergeTrackData_total; [exact Hp|exact Hn|]. intros k _ Hne.
  destruct (selecting_resolves parseNumber tracks options Hsel k Hne) as (x & Hx & _).
  now exists x.
Qed.



(** X6.  In a merge of plain tracks with strategy [first] a key takes the
    value of the first track that holds it, with strategy [last] (the
    default) the value of the last one: later tracks override earlier
    ones. *)
Theorem first_and_last_strategies (parseNumber : Value -> Num)
    (exoticMember : string -> Value -> option Value)
    (before after : list (string * Value)) (entry : string * Value)
    (options : ConflictResolutionOptions) (key : string) (v : Value) (m : Meta) :
  plainTracks (before ++ entry :: after) = true ->
  key <> "tracks" ->
  held key entry = Some (v, m) ->
  (strategy options = First /\ Forall (fun e => held key e = None) before)
  \/ (strategy options = Last /\ Forall (fun e => held key e = None) after) ->
  exists merged,
    mergeTrackData parseNumber exoticMember (before ++ entry :: after) options
    = Resolved merged
    /\ Js.get key merged = Some v.
Proof.
  intros Hplain Hk Hc Hside.
  assert (Hsel : selecting (strategy options) = true)
    by (destruct Hside as [[-> _]|[-> _]]; reflexivity).
  set (tracks := before ++ entry :: after) in *.
  destruct (selecting_merge_total parseNumber exoticMember tracks options Hplain Hsel)
    as (merged & Hrun).
  apply plainTracks_spec in Hplain. destruct Hplain as [Hn Hp].
  exists merged. split; [exact Hrun|].
  destruct (mergeTrackData_resolved parseNumber exoticMember tracks options Hp Hn
              merged Hrun) as (_ & Hin & _).
  assert (Hcs : allHeld key tracks
                = allHeld key before ++ (v, m) :: allHeld key after).
  { subst tracks. rewrite allHeld_app. cbn [allHeld]. now rewrite Hc. }
  destruct (Hin key Hk) as (x & Hx & Hget).
  { rewrite Hcs. intro E. apply app_eq_nil in E. destruct E as [_ E]. discriminate. }
  rewrite Hget. f_equal. unfold resolved in Hx. rewrite Hcs in Hx.
  destruct Hside as [[Hs Hnone]|[Hs Hnone]].
  - rewrite (allHeld_none _ _ Hnone) in Hx. cbn [app map fst] in Hx.
    unfold resolveConflict in Hx. rewrite Hs in Hx.
    destruct (map fst (allHeld key after)); congruence.
  - rewrite (allHeld_none _ _ Hnone) in Hx.
    rewrite !map_app in Hx. cbn [map fst snd] in Hx.
    assert (Hlast : forall l : list Value,
               resolveConflict parseNumber (l ++ [v])
                 (map snd (allHeld key before) ++ [m]) options
               = Resolved (last (l ++ [v]) VUndefined)).
    { intros [|a [|b l]]; [reflexivity| |];
        unfold resolveConflict; cbn [app]; rewrite Hs; reflexivity. }
    rewrite Hlast, last_last in Hx. congruence.
Qed.

Lemma first_and_last_strategies_witness :
  exists merged,
    mergeTrackData noParse noExotic ([labelTrack "track1" "first"] ++
                                     labelTrack "track2" "second" :: [])
      defaultDataOptions
    = Resolved merged
    /\ Js.get "key" merged = Some (VStr "second").
Proof.
  apply (first_and_last_strategies noParse noExotic [labelTrack "track1" "first"] []
           (labelTrack "track2" "second") defaultDataOptions "key" (VStr "second")
           (mkMeta "track2" (VNum (Fin (1 # 2))) VUndefined)).
  - reflexivity.
  - discriminate.
  - reflexivity.
  - right. split; [reflexivity|constructor].
Defined.

(** X7.  Plain tracks whose data keys are disjoint merge without conflict
    resolution: whatever the options, even a [weighted] strategy without
    weights or a [custom] one without resolver, the merge does not throw,
    and a key held by one track keeps that track's value. *)
Theorem disjoint_tracks_merge (parseNumber : Value -> Num)
    (exoticMember : string -> Value -> option Value)
    (tracks : list (string * Value)) (options : ConflictResolutionOptions) :
  plainTracks tracks = true ->
  (forall key, (List.length (allHeld key tracks) <= 1)%nat) ->
  exists merged,
    mergeTrackData parseNumber exoticMember tracks options = Resolved merged
    /\ forall key c,
         key <> "tracks" ->
         allHeld key tracks = [c] ->
         Js.get key merged = Some (fst c).
Proof.
  intros Hplain Hone. apply plainTracks_spec in Hplain. destruct Hplain as [Hn Hp].
  assert (Hres : forall k, allHeld k tracks <> [] ->
            exists c, allHeld k tracks = [c]
                      /\ resolved parseNumber tracks options k = Resolved (fst c)).
  { intros k Hne. specialize (Hone k). unfold resolved.
    destruct (allHeld k tracks) as [|c [|c' cs]];
      [contradiction| |simpl in Hone; lia].
    exists c. split; reflexivity. }
  destruct (mergeTrackData_total parseNumber exoticMember tracks options Hp Hn)
    as (merged & Hrun).
  { intros k _ Hne. destruct (Hres k Hne) as (c & _ & Hc). now exists (fst c). }
  exists merged. split; [exact Hrun|].
  intros key c Hk Hc.
  destruct (mergeTrackData_resolved parseNumber exoticMember tracks options Hp Hn
              merged Hrun) as (_ & Hin & _).
  destruct (Hin key Hk) as (x & Hx & Hget); [rewrite Hc; discriminate|].
  rewrite Hget. unfold resolved in Hx. rewrite Hc in Hx. simpl in Hx. congruence.
Qed.

Lemma disjoint_tracks_merge_witness :
  exists merged,
    mergeTrackData noParse noExotic
      [keyedTrack "web" "sources" "a"; keyedTrack "news" "headlines" "b"]
      (mkOptions Weighted None None None)
    = Resolved merged.
Proof.
  destruct (disjoint_tracks_merge noParse noExotic
              [keyedTrack "web" "sources" "a"; keyedTrack "news" "headlines" "b"]
              (mkOptions Weighted None None None)) as (merged & Hrun & _).
  - reflexivity.
  - intro key. cbn [allHeld held keyedTrack trackResult Js.field Js.get].
    cbn. destruct (String.eqb_spec key "sources") as [->|_]; simpl; [lia|].
    destruct (String.eqb key "headlines"); simpl; lia.
  - exists merged. exact Hrun.
Defined.

Lemma negative_sub (b x : Q) :
  negative (JsNum.sub (Fin b) (Fin x)) = true <-> (b < x)%Q.
Proof.
  unfold negative, JsNum.sub, JsNum.add, JsNum.neg, JsNum.sign, Qlt.
  cbn [Qnum Qden Qplus Qopp].
  destruct (Z.compare_spec (Qnum b * QDen x + - Qnum x * QDen b) 0);
    split; intro; try discriminate; try reflexivity; lia.
Qed.

Lemma better_keep (after : list (Value * Num)) (v : Value) (w : Q) :
  Forall (fun p => exists q, snd p = Fin q /\ (q <= w)%Q) after ->
  fold_left (fun best x => if negative (JsNum.sub (snd best) (snd x)) then x else best)
            after (v, Fin w)
  = (v, Fin w).
Proof.
  induction 1 as [|p after (q & Hp & Hq) _ IH]; [reflexivity|].
  cbn [fold_left snd]. rewrite Hp.
  destruct (negative (JsNum.sub (Fin w) (Fin q))) eqn:E; [|exact IH].
  apply negative_sub in E. exfalso. now apply (Qlt_not_le w q).
Qed.

Lemma better_below (before : list (Value * Num)) (w : Q) :
  forall best,
    (exists q, snd best = Fin q /\ (q < w)%Q) ->
    Forall (fun p => exists q, snd p = Fin q /\ (q < w)%Q) before ->
    exists q,
      snd (fold_left
             (fun best x => if negative (JsNum.sub (snd best) (snd x)) then x else best)
             before best) = Fin q
      /\ (q < w)%Q.
Proof.
  induction before as [|p before IH]; intros best Hbest Hall; [exact Hbest|].
  inversion Hall as [|? ? Hp Hrest]; subst. cbn [fold_left].
  apply IH; [|exact Hrest].
  now destruct (negative (JsNum.sub (snd best) (snd p))).
Qed.

(** The head of the array sorted by descending confidence is the first
    element whose confidence is the largest. *)
Lemma sort_first_max (before after : list (Value * Num)) (v : Value) (w : Q) :
  Forall (fun p => exists q, snd p = Fin q /\ (q < w)%Q) before ->
  Forall (fun p => exists q, snd p = Fin q /\ (q <= w)%Q) after ->
  exists rest,
    sort (fun a b => JsNum.sub (snd b) (snd a)) (before ++ (v, Fin w) :: after)
    = (v, Fin w) :: rest.
Proof.
  intros Hb Ha. unfold sort.
  destruct before as [|b bs]; cbn [app fold_left insertSorted].
  - destruct (fold_insertSorted_hd (fun a b : Value * Num => JsNum.sub (snd b) (snd a))
                after (v, Fin w) []) as (t' & ->).
    exists t'. f_equal. now apply better_keep.
  - destruct (fold_insertSorted_hd (fun a b : Value * Num => JsNum.sub (snd b) (snd a))
                (bs ++ (v, Fin w) :: after) b []) as (t' & ->).
    exists t'. f_equal. rewrite fold_left_app. cbn [fold_left].
    inversion Hb as [|? ? Hb0 Hbs]; subst.
    destruct (better_below bs w b Hb0 Hbs) as (q & Hq & Hlt).
    rewrite Hq. cbn [snd].
    replace (negative (JsNum.sub (Fin q) (Fin w))) with true
      by (symmetry; now apply negative_sub).
    now apply better_keep.
Qed.

Lemma mapiFrom_confidence (f : Meta -> Num) (cs : list (Value * Meta)) :
  forall pre : list (Value * Meta),
    mapiFrom (List.length pre)
      (fun m i => (nth i (map fst (pre ++ cs)) VUndefined, f m)) (map snd cs)
    = map (fun c => (fst c, f (snd c))) cs.
Proof.
  induction cs as [|c cs IH]; intro pre; [reflexivity|].
  cbn [map mapiFrom]. f_equal.
  - f_equal. rewrite map_app, app_nth2 by (rewrite length_map; lia).
    now rewrite length_map, Nat.sub_diag.
  - specialize (IH (pre ++ [c])). rewrite <- app_assoc in IH. cbn [app] in IH.
    rewrite length_app in IH. cbn [List.length] in IH.
    rewrite Nat.add_1_r in IH. exact IH.
Qed.

Section MostConfident.
Variable parseNumber : Value -> Num.

Lemma confidence_number (m : Meta) (q : Q) :
  confidence m = VNum (Fin q) ->
  exists q', Js.toNumber parseNumber (Js.or (confidence m) (VNum (Fin 0))) = Fin q'
             /\ (q' == q)%Q.
Proof.
  intros ->. unfold Js.or, Js.truthy, JsNum.truthy.
  destruct (Qeq_bool q 0) eqn:E; cbn [negb Js.toNumber].
  - exists 0%Q. split; [reflexivity|]. symmetry. now apply Qeq_bool_eq.
  - exists q. split; reflexivity.
Qed.

Lemma resolveConflict_mostConfident (cs : list (Value * Meta))
    (options : ConflictResolutionOptions) :
  strategy options = MostConfident ->
  confidenceExtractor options = None ->
  (2 <= List.length cs)%nat ->
  resolveConflict parseNumber (map fst cs) (map snd cs) options
  = match sort (fun a b => JsNum.sub (snd b) (snd a))
            (map (fun c => (fst c,
                            Js.toNumber parseNumber
                              (Js.or (confidence (snd c)) (VNum (Fin 0))))) cs) with
    | best :: _ => Resolved (fst best)
    | [] => Rejected (typeError "Cannot read properties of undefined")
    end.
Proof.
  intros Hs He Hlen.
  rewrite <- (mapiFrom_confidence
                (fun m => Js.toNumber parseNumber (Js.or (confidence m) (VNum (Fin 0))))
                cs []).
  destruct cs as [|c0 [|c1 cs]]; simpl in Hlen; try lia.
  unfold resolveConflict. cbn [map]. rewrite Hs, He. reflexivity.
Qed.
End MostConfident.

(** What the merger collects as the confidence of a track. *)
Lemma countsWith_collected (key : string) (entry : string * Value)
    (c : Value * Meta) (q : Q) :
  held key entry = Some c -> countsWith (snd entry) q -> confidenceIs c q.
Proof.
  destruct entry as [name track]. unfold held, countsWith, confidenceIs. cbn [snd].
  destruct (Js.field "data" track) as [| | | | | |o|]; try discriminate.
  destruct (Js.get key o) as [v|]; [|discriminate].
  intro H. injection H as <-. cbn [snd confidence].
  destruct (Js.field "confidence" (Js.field "metadata" track))
    as [| |b|[c0| | |]|s|items|o'|k]; try contradiction.
  - now intros ->.
  - unfold Js.or. cbn [Js.truthy JsNum.truthy].
    destruct (Qeq_bool c0 0); cbn [negb]; now intros ->.
Qed.

Lemma allHeld_confidence (key : string) (R : Q -> Prop) (tracks : list (string * Value)) :
  Forall (fun e => held key e = None \/ exists q, countsWith (snd e) q /\ R q) tracks ->
  Forall (fun c => exists q, confidenceIs c q /\ R q) (allHeld key tracks).
Proof.
  induction 1 as [|e ts He _ IH]; [constructor|].
  cbn [allHeld]. destruct (held key e) as [c|] eqn:Hc; [|exact IH].
  constructor; [|exact IH].
  destruct He as [He|(q & Hq & HR)]; [discriminate|].
  exists q. split; [|exact HR]. exact (countsWith_collected key e c q Hc Hq).
Qed.

(** X8.  With strategy [mostConfident] and no extractor, a key of plain
    tracks takes the value of the track that counts with the highest
    confidence among those that hold it, and of the first such track when
    several share that confidence.  A track counts with its own
    [metadata.confidence], or with 0.5 when it has none or puts it at 0. *)
Theorem mostConfident_strategy (parseNumber : Value -> Num)
    (exoticMember : string -> Value -> option Value)
    (before after : list (string * Value)) (entry : string * Value)
    (options : ConflictResolutionOptions) (key : string) (v : Value) (m : Meta)
    (w : Q) :
  plainTracks (before ++ entry :: after) = true ->
  key <> "tracks" ->
  strategy options = MostConfident ->
  confidenceExtractor options = None ->
  held key entry = Some (v, m) ->
  countsWith (snd entry) w ->
  Forall (fun e => held key e = None
                   \/ exists q, countsWith (snd e) q /\ (q < w)%Q) before ->
  Forall (fun e => held key e = None
                   \/ exists q, countsWith (snd e) q /\ (q <= w)%Q) after ->
  exists merged,
    mergeTrackData parseNumber exoticMember (before ++ entry :: after) options
    = Resolved merged
    /\ Js.get key merged = Some v.
Proof.
  intros Hplain Hk Hs He Hheld Hw Hbefore Hafter.
  set (tracks := before ++ entry :: after) in *.
  assert (Hsel : selecting (strategy options) = true) by (now rewrite Hs).
  destruct (selecting_merge_total parseNumber exoticMember tracks options Hplain Hsel)
    as (merged & Hrun).
  apply plainTracks_spec in Hplain. destruct Hplain as [Hn Hp].
  exists merged. split; [exact Hrun|].
  destruct (mergeTrackData_resolved parseNumber exoticMember tracks options Hp Hn
              merged Hrun) as (_ & Hin & _).
  assert (Hcs : allHeld key tracks
                = allHeld key before ++ (v, m) :: allHeld key after).
  { subst tracks. rewrite allHeld_app. cbn [allHeld]. now rewrite Hheld. }
  pose proof (countsWith_collected key entry (v, m) w Hheld Hw) as Hc.
  pose proof (allHeld_confidence key (fun q => (q < w)%Q) before Hbefore) as Hb.
  pose proof (allHeld_confidence key (fun q => (q <= w)%Q) after Hafter) as Ha.
  destruct (Hin key Hk) as (x & Hx & Hget).
  { rewrite Hcs. intro E. apply app_eq_nil in E. destruct E as [_ E]. discriminate. }
  rewrite Hget. f_equal. unfold resolved in Hx. rewrite Hcs in Hx.
  clear Hcs Hget. set (c := (v, m)) in *. change v with (fst c).
  revert Hx Hb Ha.
  generalize (allHeld key before) as cb, (allHeld key after) as ca.
  intros cb ca Hx Hb Ha.
  destruct (Nat.le_gt_cases 2 (List.length (cb ++ c :: ca))) as [Hlen|Hlen].
  - rewrite (resolveConflict_mostConfident parseNumber _ options Hs He Hlen) in Hx.
    rewrite map_app in Hx. cbn [map] in Hx.
    destruct (confidence_number parseNumber (snd c) w Hc) as (w' & Hw' & Hww).
    rewrite Hw' in Hx.
    destruct (sort_first_max
                (map (fun c => (fst c, Js.toNumber parseNumber
                                         (Js.or (confidence (snd c)) (VNum (Fin 0)))))
                     cb)
                (map (fun c => (fst c, Js.toNumber parseNumber
                                         (Js.or (confidence (snd c)) (VNum (Fin 0)))))
                     ca)
                (fst c) w') as (rest & Hsort).
    + apply Forall_map. eapply Forall_impl; [|exact Hb].
      intros c' (q & Hq & Hlt). cbn [snd].
      destruct (confidence_number parseNumber (snd c') q Hq) as (q' & Hq' & Hqq).
      exists q'. split; [exact Hq'|]. now rewrite Hqq, Hww.
    + apply Forall_map. eapply Forall_impl; [|exact Ha].
      intros c' (q & Hq & Hle). cbn [snd].
      destruct (confidence_number parseNumber (snd c') q Hq) as (q' & Hq' & Hqq).
      exists q'. split; [exact Hq'|]. now rewrite Hqq, Hww.
    + rewrite Hsort in Hx. cbn [fst] in Hx. congruence.
  - destruct cb as [|b [|b' bs]]; destruct ca as [|a ca];
      cbn [app List.length] in Hlen; try lia.
    subst c. cbn in Hx |- *. congruence.
Qed.

(** The theorem where a track that puts its confidence at 0 counts with
    0.5 and wins over a track with confidence 0.4. *)
Lemma mostConfident_strategy_witness :
  exists merged,
    mergeTrackData noParse noExotic
      ([confidentTrack "lowConf" "low confidence value" (4 # 10)]
       ++ unsureTrack "noConf" "zero confidence value" :: [])
      (mkOptions MostConfident None None None)
    = Resolved merged
    /\ Js.get "key" merged = Some (VStr "zero confidence value").
Proof.
  apply (mostConfident_strategy noParse noExotic
           [confidentTrack "lowConf" "low confidence value" (4 # 10)] []
           (unsureTrack "noConf" "zero confidence value")
           (mkOptions MostConfident None None None) "key"
           (VStr "zero confidence value")
           (mkMeta "noConf" (VNum (Fin (1 # 2))) VUndefined)
           (1 # 2)).
  - reflexivity.
  - discriminate.
  - reflexivity.
  - reflexivity.
  - reflexivity.
  - reflexivity.
  - constructor; [|constructor]. right. exists (4 # 10)%Q. split; reflexivity.
  - constructor.
Defined.

End MergeMoreFacts.

(** ** Pipeline executor: further properties *)

Module PipelineMoreFacts.
Import Pipeline PipelineMore.

Lemma readArray_alloc_old (xs : list Err) (w : World) (r : Ref) :
  (r < List.length (arrays w))%nat ->
  readArray r (snd (allocArray xs w)) = readArray r w.
Proof.
  intro H. unfold readArray, allocArray. cbn [snd arrays]. now rewrite app_nth1.
Qed.

(** One execution of a well-behaved step before the deadline. *)
Lemma executeStep_wellBehaved (step : ResearchStep) (state : ResearchState)
    (eng : Engine) :
  wellBehaved step ->
  (now (world eng) < deadline eng)%Z ->
  exists final eng' rec,
    executeStep step state eng = (Resolved (Some final), eng')
    /\ log eng' = log eng ++ [EvExecute (name step) state]
    /\ deadline eng' = deadline eng
    /\ now (world eng') = now (world eng)
    /\ stepHistory (metadata final) = stepHistory (metadata state) ++ [rec]
    /\ recordOf step (fst (execute step state (world eng))) rec
    /\ readArray (errors final) (world eng')
       = readArray (errors state) (world eng) ++ recordedErrors [rec]
    /\ (forall r, (r < List.length (arrays (world eng)))%nat ->
                  readArray r (world eng') = readArray r (world eng))
    /\ (List.length (arrays (world eng)) <= List.length (arrays (world eng')))%nat
    /\ match fst (execute step state (world eng)) with
       | Resolved s' => data final = data s' /\ results final = results s'
       | Rejected _ => data final = data state /\ results final = results state
       end.
Proof.
  intros Hwb Hnow. destruct (Hwb state (world eng)) as [Hw [Hkeep Hthrow]].
  unfold executeStep, awaitCall. cbn [emit world deadline].
  destruct (execute step state (world eng)) as [[s'|e] w'] eqn:E;
    cbn [fst snd] in *; subst w'.
  - destruct (Hkeep s' eq_refl) as [He Hh].
    replace (deadline eng <=? now (world eng))%Z with false
      by (symmetry; apply Z.leb_gt; lia).
    cbn [withWorld world recordStepExecution].
    eexists _, _, _. split; [reflexivity|].
    cbn [log deadline world metadata stepHistory errors data results].
    rewrite Hh, He. unfold recordOf, recordedErrors.
    cbn [stepName success error flat_map app].
    repeat split; simpl; rewrite ?app_nil_r; try reflexivity; lia.
  - clear Hkeep.
    replace (deadline eng <=? now (world eng))%Z with false
      by (symmetry; apply Z.leb_gt; lia).
    rewrite PipelineFacts.getFormattedMessage_normalised, (Hthrow e eq_refl).
    cbn [withWorld world recordStepExecution].
    unfold allocArray.
    eexists _, _, _. split; [reflexivity|].
    cbn [log deadline world metadata stepHistory errors data results now arrays].
    unfold recordOf, recordedErrors. cbn [stepName success error flat_map app].
    repeat split; try reflexivity.
    + unfold readArray at 1. simpl.
      rewrite app_nth2 by lia. now rewrite Nat.sub_diag.
    + intros r Hr. unfold readArray. simpl. now rewrite app_nth1.
    + simpl. rewrite length_app. lia.
Qed.

Section Loop.
Variable tm : bool.
Variable config : PipelineSettings.

(** The loop over well-behaved steps, without rollbacks: a prefix of the
    steps runs, each once; the history gains their records, the [errors]
    array of the state their errors; only the last record can be a
    failure when the policy halts, and no step is left out when it goes on. *)
Lemma executeSteps_wellBehaved (steps : list ResearchStep) :
  Forall (fun step => wellBehaved step /\ noRollbackFor config step) steps ->
  forall state eng,
    (now (world eng) < deadline eng)%Z ->
    exists final eng' records,
      executeSteps tm steps config state eng = (Resolved (Some final), eng')
      /\ executed (log eng') = executed (log eng) ++ map stepName records
      /\ stepHistory (metadata final) = stepHistory (metadata state) ++ records
      /\ map stepName records = firstn (List.length records) (map name steps)
      /\ readArray (errors final) (world eng')
         = readArray (errors state) (world eng) ++ recordedErrors records
      /\ (forall r, (r < List.length (arrays (world eng)))%nat ->
                    readArray r (world eng') = readArray r (world eng))
      /\ (halts config = false -> List.length records = List.length steps)
      /\ (halts config = true ->
          Forall (fun r => success r = true) (removelast records)
          /\ ((List.length records < List.length steps)%nat ->
              exists r, last records r = r /\ In r records /\ success r = false)).
Proof.
  induction 1 as [|step rest [Hwb Hnr] Hrest IH]; intros state eng Hnow.
  - exists state, eng, []. cbn [executeSteps]. split; [reflexivity|].
    cbn [map app firstn List.length recordedErrors flat_map removelast].
    rewrite !app_nil_r. repeat split; try reflexivity; try constructor.
    simpl. lia.
  - cbn [executeSteps].
    destruct (executeStep_wellBehaved step state eng Hwb Hnow)
      as (s1 & eng1 & rec & Hrun & Hlog & Hdl & Hnow1 & Hhist & Hrec & Herr & Hold
          & Hlen & _).
    rewrite (PipelineFacts.executeStepWithErrorHandling_resolved tm _ _ config _ _ _ Hrun).
    rewrite Hhist, rev_app_distr. cbn [rev app].
    assert (Hnow' : (now (world eng1) < deadline eng1)%Z) by (rewrite Hnow1, Hdl; lia).
    destruct (IH s1 eng1 Hnow')
      as (final & eng' & records & Hrun' & Hex' & Hhist' & Hnames' & Herr' & Hold'
          & Hall' & Hhalt').
    assert (Hgo :
      executeSteps tm rest config s1 eng1 = (Resolved (Some final), eng') ->
      exists final eng' records,
        executeSteps tm rest config s1 eng1 = (Resolved (Some final), eng')
        /\ executed (log eng') = executed (log eng) ++ map stepName records
        /\ stepHistory (metadata final) = stepHistory (metadata state) ++ records
        /\ map stepName records
           = firstn (List.length records) (map name (step :: rest))
        /\ readArray (errors final) (world eng')
           = readArray (errors state) (world eng) ++ recordedErrors records
        /\ (forall r, (r < List.length (arrays (world eng)))%nat ->
                      readArray r (world eng') = readArray r (world eng))
        /\ (halts config = false -> List.length records = List.length (step :: rest))
        /\ (halts config = true ->
            (success rec = true ->
             Forall (fun r => success r = true) (removelast records))
            /\ ((List.length records < List.length (step :: rest))%nat ->
                exists r, last records r = r /\ In r records /\ success r = false))).
    { intros _. exists final, eng', (rec :: records).
      split; [exact Hrun'|]. split; [|split; [|split; [|split; [|split; [|split]]]]].
      - rewrite Hex', Hlog, PipelineFacts.executed_app. cbn [executed map].
        destruct Hrec as [-> _]. now rewrite <- app_assoc.
      - rewrite Hhist', Hhist, <- app_assoc. reflexivity.
      - cbn [map List.length firstn]. f_equal; [apply Hrec|exact Hnames'].
      - rewrite Herr', Herr, <- app_assoc. unfold recordedErrors.
        cbn [flat_map]. now rewrite app_nil_r.
      - intros r Hr. rewrite Hold' by lia. now apply Hold.
      - intro Hh. cbn [List.length]. now rewrite (Hall' Hh).
      - intro Hh. destruct (Hhalt' Hh) as [Hok Hlast]. split.
        + intro Hs. destruct records as [|r0 records0]; [constructor|].
          change (removelast (rec :: r0 :: records0))
            with (rec :: removelast (r0 :: records0)).
          constructor; [exact Hs|exact Hok].
        + cbn [List.length]. intro Hlt.
          destruct Hlast as (r & Hl & Hin & Hs); [lia|].
          exists r. split; [|split; [now right|exact Hs]].
          destruct records as [|r0 records0]; [contradiction|]. exact Hl. }
    destruct (success rec) eqn:Hsucc.
    + destruct (Hgo Hrun') as (f & e' & rs & H1 & H2 & H3 & H4 & H5 & H6 & H7 & H8).
      exists f, e', rs. split; [exact H1|]. repeat (split; [assumption|]).
      intro Hh. destruct (H8 Hh) as [Hok Hlast]. split; [now apply Hok|exact Hlast].
    + fold (halts config). destruct (halts config) eqn:Hh.
      * exists s1, eng1, [rec]. split; [reflexivity|].
        split; [|split; [|split; [|split; [|split; [|split]]]]].
        -- rewrite Hlog, PipelineFacts.executed_app. cbn [executed map].
           now destruct Hrec as [-> _].
        -- exact Hhist.
        -- cbn [map List.length firstn]. f_equal. apply Hrec.
        -- exact Herr.
        -- exact Hold.
        -- discriminate.
        -- intros _. split; [constructor|]. intros _.
           exists rec. split; [reflexivity|]. split; [now left|exact Hsucc].
      * replace (if isStrategy (errorHandling config) Rollback
                 then rollback step else None) with (@None Async)
          by (destruct (isStrategy (errorHandling config) Rollback) eqn:Hr;
              [now rewrite (Hnr Hr)|reflexivity]).
        destruct (Hgo Hrun') as (f & e' & rs & H1 & H2 & H3 & H4 & H5 & H6 & H7 & H8).
        exists f, e', rs. split; [exact H1|]. repeat (split; [assumption|]).
        discriminate.
Qed.
End Loop.

(** The pipeline over well-behaved steps, without rollbacks and with a
    positive timeout. *)
Lemma executePipeline_wellBehaved (tm : bool) (initialState : ResearchState)
    (steps : list ResearchStep) (config : PipelineSettings) (w : World) :
  (0 < orElse (timeout (mergeConfig config)) 300000)%Z ->
  Forall (fun step => wellBehaved step /\ noRollbackFor (mergeConfig config) step)
         steps ->
  exists records,
    executed (log (snd (executePipeline tm initialState steps config w)))
    = map stepName records
    /\ stepHistory (metadata (fst (executePipeline tm initialState steps config w)))
       = stepHistory (metadata initialState) ++ records
    /\ map stepName records = firstn (List.length records) (map name steps)
    /\ readArray (errors (fst (executePipeline tm initialState steps config w)))
                 (world (snd (executePipeline tm initialState steps config w)))
       = readArray (errors initialState) w ++ recordedErrors records
    /\ (forall r, (r < List.length (arrays w))%nat ->
                  readArray r (world (snd (executePipeline tm initialState steps config w)))
                  = readArray r w)
    /\ (halts (mergeConfig config) = false -> List.length records = List.length steps)
    /\ (halts (mergeConfig config) = true ->
        Forall (fun r => success r = true) (removelast records)
        /\ ((List.length records < List.length steps)%nat ->
            exists r, last records r = r /\ In r records /\ success r = false)).
Proof.
  intros Hms Hwb. unfold executePipeline.
  set (full := mergeConfig config) in *.
  set (ms := orElse (timeout full) 300000) in *.
  set (start := startState initialState steps full w).
  set (eng0 := emit (EvSetTimeout ms) (mkEngine w (now w + ms)%Z [])).
  destruct (executeSteps_wellBehaved tm full steps Hwb start eng0)
    as (final & eng' & records & Hrun & Hex & Hhist & Hnames & Herr & Hold & Hall
        & Hhalt).
  { subst eng0. cbn [emit world deadline now]. lia. }
  rewrite Hrun. exists records. unfold finish.
  cbn [fst snd log emit world metadata stepHistory errors].
  split; [|split; [|split; [|split; [|split; [|split]]]]].
  - rewrite !PipelineFacts.executed_app, Hex. cbn [executed].
    now rewrite !app_nil_r.
  - exact Hhist.
  - exact Hnames.
  - exact Herr.
  - exact Hold.
  - exact Hall.
  - exact Hhalt.
Qed.

(** X9.  When the policy does not halt ([errorHandling] is ['continue'], or
    ['stop'] with [continueOnError], or ['rollback'] over steps that have no
    rollback, even without [continueOnError]) and the steps keep to their
    contract (what they throw included: no [Error] with a string [code]
    that is not a [BaseResearchError]), every step runs exactly once, in
    order, whether or not earlier
    steps failed; the history gains one record per step, the returned
    [errors] array holds what the caller's array held followed by the errors
    of the failed steps, and the caller's array itself is left as it was. *)
Theorem continue_policy_runs_every_step (tm : bool) (initialState : ResearchState)
    (steps : list ResearchStep) (config : PipelineSettings) (w : World) :
  halts (mergeConfig config) = false ->
  (0 < orElse (timeout (mergeConfig config)) 300000)%Z ->
  Forall (fun step => wellBehaved step /\ noRollbackFor (mergeConfig config) step)
         steps ->
  (errors initialState < List.length (arrays w))%nat ->
  let run := executePipeline tm initialState steps config w in
  executed (log (snd run)) = map name steps
  /\ (exists records,
         stepHistory (metadata (fst run)) = stepHistory (metadata initialState) ++ records
         /\ map stepName records = map name steps
         /\ readArray (errors (fst run)) (world (snd run))
            = readArray (errors initialState) w ++ recordedErrors records)
  /\ readArray (errors initialState) (world (snd run))
     = readArray (errors initialState) w.
Proof.
  intros Hgo Hms Hwb Hvalid run. subst run.
  destruct (executePipeline_wellBehaved tm initialState steps config w Hms Hwb)
    as (records & Hex & Hhist & Hnames & Herr & Hold & Hall & _).
  assert (Hfull : map stepName records = map name steps).
  { rewrite Hnames, (Hall Hgo), <- (length_map name). apply firstn_all. }
  split; [now rewrite Hex|]. split; [|now apply Hold].
  exists records. now repeat split.
Qed.

Lemma continue_policy_runs_every_step_witness :
  executed (log (snd (executePipeline false (initialState "q")
                        [okStep "a"; badStep "b"; okStep "c"]
                        continueSettings initialWorld)))
  = ["a"; "b"; "c"].
Proof.
  apply (continue_policy_runs_every_step false (initialState "q")
           [okStep "a"; badStep "b"; okStep "c"] continueSettings initialWorld).
  - reflexivity.
  - reflexivity.
  - repeat (apply Forall_cons;
            [split; [|intros _; reflexivity]; intros s w;
             (split; [reflexivity|split]); intros x H;
             try discriminate; injection H as <-; try split; reflexivity|]).
    apply Forall_nil.
  - simpl. lia.
Defined.

(** X10.  When the policy halts (['stop'] without [continueOnError], the
    default) and the steps keep to their contract (what they throw
    included), the steps run in order
    up to the first failure and no further: every record of the run but
    the last is a success, and if some step was left out the last record
    is a failure.  The returned [errors] array holds the caller's errors
    followed by the recorded ones, and the caller's array is left as it
    was. *)
Theorem stop_policy_halts_at_first_failure (tm : bool) (initialState : ResearchState)
    (steps : list ResearchStep) (config : PipelineSettings) (w : World) :
  halts (mergeConfig config) = true ->
  (0 < orElse (timeout (mergeConfig config)) 300000)%Z ->
  Forall wellBehaved steps ->
  (errors initialState < List.length (arrays w))%nat ->
  let run := executePipeline tm initialState steps config w in
  exists records,
    stepHistory (metadata (fst run)) = stepHistory (metadata initialState) ++ records
    /\ executed (log (snd run)) = map stepName records
    /\ map stepName records = firstn (List.length records) (map name steps)
    /\ Forall (fun r => success r = true) (removelast records)
    /\ ((List.length records < List.length steps)%nat ->
        exists r, last records r = r /\ In r records /\ success r = false)
    /\ readArray (errors (fst run)) (world (snd run))
       = readArray (errors initialState) w ++ recordedErrors records
    /\ readArray (errors initialState) (world (snd run))
       = readArray (errors initialState) w.
Proof.
  intros Hhalts Hms Hwb Hvalid run. subst run.
  assert (Hnr : isStrategy (errorHandling (mergeConfig config)) Rollback = false).
  { unfold halts in Hhalts. apply andb_prop in Hhalts. destruct Hhalts as [Hs _].
    now destruct (errorHandling (mergeConfig config)) as [[| |]|]. }
  assert (Hwb' : Forall (fun step => wellBehaved step
                                     /\ noRollbackFor (mergeConfig config) step) steps).
  { eapply Forall_impl; [|exact Hwb]. intros step H. split; [exact H|].
    unfold noRollbackFor. congruence. }
  destruct (executePipeline_wellBehaved tm initialState steps config w Hms Hwb')
    as (records & Hex & Hhist & Hnames & Herr & Hold & _ & Hhalt).
  destruct (Hhalt Hhalts) as [Hok Hlast].
  exists records. repeat split; try assumption. now apply Hold.
Qed.

Lemma stop_policy_halts_at_first_failure_witness :
  exists records,
    executed (log (snd (executePipeline false (initialState "q")
                          [okStep "a"; badStep "b"; okStep "c"]
                          noSettings initialWorld)))
    = map stepName records
    /\ map stepName records
       = firstn (List.length records) ["a"; "b"; "c"]
    /\ Forall (fun r => success r = true) (removelast records).
Proof.
  destruct (stop_policy_halts_at_first_failure false (initialState "q")
              [okStep "a"; badStep "b"; okStep "c"] noSettings initialWorld)
    as (records & _ & Hex & Hnames & Hok & _).
  - reflexivity.
  - reflexivity.
  - repeat (apply Forall_cons;
            [intros s w; (split; [reflexivity|split]); intros x H;
             try discriminate; injection H as <-; try split; reflexivity|]).
    apply Forall_nil.
  - simpl. lia.
  - exists records. split; [exact Hex|]. split; [exact Hnames|exact Hok].
Defined.

(** A state [executeStepWithErrorHandling] resolves with has a latest
    record, unless the step threw a foreign research error. *)
Lemma executeStepWithErrorHandling_history tm (step : ResearchStep)
    (state : ResearchState) (config : PipelineSettings) (eng : Engine) :
  (forall e w', execute step state (world eng) = (Rejected e, w') ->
                foreignResearchError e = false) ->
  exists r eng',
    executeStepWithErrorHandling tm step state config eng = (Resolved r, eng')
    /\ forall s', r = Some s' -> stepHistory (metadata s') <> [].
Proof.
  intro Hthrow.
  assert (H : exists r eng',
             executeStep step state eng = (Resolved r, eng')
             /\ forall s', r = Some s' -> stepHistory (metadata s') <> []).
  { unfold executeStep, awaitCall. cbn [emit world deadline].
    destruct (execute step state (world eng)) as [[u|e] w'] eqn:E;
      destruct (deadline eng <=? now w')%Z.
    - eexists _, _. split; [reflexivity|]. discriminate.
    - unfold recordStepExecution. eexists _, _. split; [reflexivity|].
      intros s' H. injection H as <-. cbn [metadata stepHistory].
      intro C. now apply app_eq_nil in C.
    - eexists _, _. split; [reflexivity|]. discriminate.
    - rewrite PipelineFacts.getFormattedMessage_normalised, (Hthrow e w' eq_refl).
      unfold recordStepExecution, allocArray. eexists _, _. split; [reflexivity|].
      intros s' H. injection H as <-. cbn [metadata stepHistory].
      intro C. now apply app_eq_nil in C. }
  destruct H as (r & eng' & Hrun & Hhist). exists r, eng'. split; [|exact Hhist].
  now apply PipelineFacts.executeStepWithErrorHandling_resolved.
Qed.

(** X11.  The step loop rejects only with one of two [TypeError]s, both
    caused by a step that threw a foreign research error (an [Error] with a
    string [code] that is not a [BaseResearchError]): the one of the log
    line that cannot be built, or, behind the retry executor, the one of
    reading the latest record of a history that is still empty.  When no
    step throws such an error the loop never rejects, whatever the steps
    and their rollbacks do or throw and whatever the configuration: the
    failures are recorded in the state. *)
Theorem executeSteps_rejects_only_on_foreign_errors (tm : bool)
    (config : PipelineSettings) (steps : list ResearchStep) (state : ResearchState)
    (eng : Engine) :
  match fst (executeSteps tm steps config state eng) with
  | Resolved _ => True
  | Rejected e =>
      e = notAFunction "researchError.getFormattedMessage" \/ e = noLatestExecution
  end
  /\ (recordableFailures steps ->
      exists r, fst (executeSteps tm steps config state eng) = Resolved r).
Proof.
  split.
  - revert state eng. induction steps as [|step rest IH]; intros state eng.
    + exact I.
    + cbn [executeSteps].
      destruct (PipelineFacts.executeStepWithErrorHandling_settles tm step state config eng)
        as ([[s1|]|e] & eng1 & Hrun & _ & _ & He); rewrite Hrun; cbn [fst].
      2:{ exact I. }
      2:{ now left. }
      destruct (rev (stepHistory (metadata s1))) as [|rec hist]; [now right|].
      destruct (success rec); [apply IH|].
      destruct (_ && _); [exact I|].
      destruct (if isStrategy (errorHandling config) Rollback then rollback step else None)
        as [rb|]; [|apply IH].
      destruct (awaitCall rb s1 _) as [[[rolled|]|e] eng3].
      * destruct (negb _); [exact I|apply IH].
      * exact I.
      * destruct (negb _); [exact I|apply IH].
  - revert state eng. induction steps as [|step rest IH]; intros state eng Hsteps.
    + now eexists.
    + cbn [executeSteps].
      assert (Hrest : recordableFailures rest)
        by (intros x Hx; apply Hsteps; now right).
      destruct (executeStepWithErrorHandling_history tm step state config eng)
        as (r & eng1 & Hrun & Hhist).
      { intros e w' H. exact (Hsteps step (or_introl eq_refl) _ _ _ _ H). }
      rewrite Hrun. destruct r as [s1|]; [|now eexists].
      specialize (Hhist s1 eq_refl).
      destruct (rev (stepHistory (metadata s1))) as [|rec hist] eqn:Erev.
      { exfalso. apply Hhist. apply (f_equal (@rev _)) in Erev.
        now rewrite rev_involutive in Erev. }
      destruct (success rec); [now apply IH|].
      destruct (_ && _); [now eexists|].
      destruct (if isStrategy (errorHandling config) Rollback then rollback step else None)
        as [rb|]; [|now apply IH].
      destruct (awaitCall rb s1 _) as [[[rolled|]|e] eng3].
      * destruct (negb _); [now eexists|now apply IH].
      * now eexists.
      * destruct (negb _); [now eexists|now apply IH].
Qed.

(** A pipeline whose second step throws a plain [Error] and whose third
    has a rollback that throws one. *)
Lemma executeSteps_rejects_only_on_foreign_errors_witness :
  exists r,
    fst (executeSteps false [okStep "a"; badStep "b"; brokenRollbackStep "c"]
           (mergeConfig (rollbackSettings true))
           (initialState "q") (mkEngine initialWorld 300000 []))
    = Resolved r.
Proof.
  apply (executeSteps_rejects_only_on_foreign_errors false
           (mergeConfig (rollbackSettings true))
           [okStep "a"; badStep "b"; brokenRollbackStep "c"]
           (initialState "q") (mkEngine initialWorld 300000 [])).
  intros step [<-|[<-|[<-|[]]]] s w e w' H; try discriminate;
    injection H as <- _; reflexivity.
Defined.

End PipelineMoreFacts.

(** ** Created and wrapped steps: further properties *)

Module StepsMoreFacts.
Import Steps StepsMore.

Lemma toResearchError_research (n : string) (t : Thrown) :
  isResearchError (ThrownError (toResearchError n t)) = true.
Proof.
  destruct t as [e|v]; cbn [toResearchError]; [|reflexivity].
  destruct (isResearchError (ThrownError e)) eqn:E; [exact E|reflexivity].
Qed.

Lemma toResearchError_idem (n n' : string) (t : Thrown) :
  toResearchError n (ThrownError (toResearchError n' t)) = toResearchError n' t.
Proof.
  cbn [toResearchError]. now rewrite toResearchError_research.
Qed.

Lemma toResearchError_not_retried (n : string) (t : Thrown) :
  retriedError t = false ->
  Retry.defaultIsRetryable (ThrownError (toResearchError n t)) = false.
Proof.
  unfold retriedError. destruct t as [e|v]; cbn [toResearchError]; [|reflexivity].
  destruct (isResearchError (ThrownError e)); [|reflexivity].
  now cbn [andb].
Qed.

Lemma set_set {A} (k : string) (v v' : A) (o : list (string * A)) :
  Js.set k v (Js.set k v' o) = Js.set k v o.
Proof.
  induction o as [|[k0 v0] o IH]; simpl.
  - now rewrite String.eqb_refl.
  - destruct (String.eqb k k0) eqn:E; simpl.
    + now rewrite String.eqb_refl.
    + now rewrite E, IH.
Qed.

Lemma withMeta_withMeta (k : string) (v v' : Value) (s : ResearchState) :
  withMeta k v (withMeta k v' s) = withMeta k v s.
Proof. unfold withMeta. cbn [query data results errors metadata]. now rewrite set_set. Qed.

Lemma formattedMessage_normalised (n : string) (t : Thrown) :
  getFormattedMessage (toResearchError n t)
  = if foreignResearchError t
    then Rejected (notAFunction "researchError.getFormattedMessage")
    else Resolved tt.
Proof.
  destruct t as [e|v]; [|reflexivity].
  unfold toResearchError, isResearchError, foreignResearchError, getFormattedMessage.
  destruct (code e); [|reflexivity].
  now destruct (instanceOf (cls e) BaseResearchError).
Qed.

(** An instance of [BaseResearchError] is no foreign research error. *)
Lemma instance_not_foreign (t : Thrown) :
  thrownInstanceOf t BaseResearchError = true -> foreignResearchError t = false.
Proof.
  destruct t as [e|v]; [|reflexivity]. cbn [thrownInstanceOf foreignResearchError].
  intros ->. apply andb_false_r.
Qed.

Lemma rethrown_not_retried (n : string) (t : Thrown) :
  retriedError t = false -> Retry.defaultIsRetryable (rethrown n t) = false.
Proof.
  intro H. unfold rethrown. destruct (foreignResearchError t); [reflexivity|].
  now apply toResearchError_not_retried.
Qed.

Section Created.
Context {W : Type}.
Variable testMode : bool.

(** What [executeFunc] makes of a rejection of the executor. *)
Lemma executeFunc_rejected (stepName : string) (executor : Executor W)
    (state : ResearchState) (eng eng' : Engine W) (e : Thrown) :
  executor (withMeta "currentStep" (VStr stepName) state) eng = (Rejected e, eng') ->
  executeFunc stepName executor state eng = (Rejected (rethrown stepName e), eng').
Proof.
  intro H. unfold executeFunc, rethrown. rewrite H, formattedMessage_normalised.
  now destruct (foreignResearchError e).
Qed.

(** The retry wrapper of a created step settles as one call of
    [executeFunc] did: its callbacks only write to the logger. *)
Lemma createStepRun_call (stepName : string) (executor : Executor W)
    (creationOptions : StepCreationOptions) (state : ResearchState) (eng : Engine W) :
  exists eng1,
    executeFunc stepName executor state eng1
    = createStepRun testMode stepName executor creationOptions state eng.
Proof.
  unfold createStepRun. destruct (optFlag _); [|now exists eng].
  unfold Retry.executeWithRetry.
  destruct (executeFunc stepName executor state eng) as [[v|e] eng1] eqn:E.
  - exists eng. exact E.
  - destruct (Retry.givesUp _ _ e) as [[|]|thrown] eqn:Eg.
    + exists eng. exact E.
    + match goal with
      | |- context [Retry.retryLoop ?sl ?yi ?tm ?fn ?op ?n ?a ?l ?w] =>
          destruct (RetryMoreFacts.retryLoop_outcome_of_fn sl yi tm fn op n a l w)
            as [[Hr _]|[Hex|Hcb]]
      end.
      * rewrite Hr. exists eng. exact E.
      * exact Hex.
      * exfalso.
        destruct Hcb as [(pred & e0 & t & Hp & _)
                        |(note & a & e0 & d & w & t & Hn & Hcall & _)].
        -- discriminate Hp.
        -- cbn [Retry.onRetry] in Hn. injection Hn as <-.
           unfold Retry.notifying in Hcall. discriminate Hcall.
    + exfalso. unfold Retry.givesUp in Eg. cbn [Retry.orDefault Retry.retryableErrors] in Eg.
      unfold Retry.returning in Eg. destruct (_ <=? 0)%Z; discriminate Eg.
Qed.

End Created.

(** X12.  A step made by [createStep] resolves only with a state its
    executor returned for the input stamped with [metadata.currentStep],
    and rejects only with what its [catch] makes of an error the executor
    threw: the [TypeError] of a log line that cannot be built when that
    error is an [Error] with a string [code] but no [BaseResearchError];
    otherwise a research error, the executor's own when it was one, else a
    [BaseResearchError] that names the step.  This holds with and without
    retries. *)
Theorem createStep_settles_as_executor {W : Type} (testMode : bool)
    (stepName : string) (executor : Executor W)
    (creationOptions : StepCreationOptions) (state : ResearchState) (eng : Engine W) :
  match fst (createStepRun testMode stepName executor creationOptions state eng) with
  | Resolved result =>
      exists eng1 eng2,
        executor (withMeta "currentStep" (VStr stepName) state) eng1
        = (Resolved result, eng2)
  | Rejected t =>
      exists e eng1 eng2,
        executor (withMeta "currentStep" (VStr stepName) state) eng1
        = (Rejected e, eng2)
        /\ (foreignResearchError e = true ->
            t = notAFunction "researchError.getFormattedMessage")
        /\ (foreignResearchError e = false ->
            t = ThrownError (toResearchError stepName e)
            /\ isResearchError t = true
            /\ (isResearchError e = true -> t = e))
  end.
Proof.
  destruct (createStepRun_call testMode stepName executor creationOptions state eng)
    as (eng1 & <-).
  destruct (executor (withMeta "currentStep" (VStr stepName) state) eng1)
    as [[result|e] eng2] eqn:E.
  - unfold executeFunc. rewrite E. cbn [fst]. now exists eng1, eng2.
  - rewrite (executeFunc_rejected _ _ _ _ _ _ E). cbn [fst]. unfold rethrown.
    exists e, eng1, eng2. split; [exact E|].
    destruct (foreignResearchError e); (split; [intro H|intro H]);
      try discriminate H; try reflexivity.
    split; [reflexivity|]. split; [apply toResearchError_research|].
    intro Hr. destruct e as [err|v]; [|discriminate].
    cbn [toResearchError]. now rewrite Hr.
Qed.

(** X13.  A created step never retries an error that is not a research
    error with [retry === true]: a plain [Error], a thrown value or an
    [Error] that merely carries a [code] ends the run at the first call,
    even when the step is marked retryable, because the error is normalised
    before the retry wrapper sees it.  The run rejects with what the
    [catch] made of the error, and nothing is slept or announced: the
    engine is the one the executor left. *)
Theorem createStep_retries_only_retry_errors {W : Type} (testMode : bool)
    (stepName : string) (executor : Executor W)
    (creationOptions : StepCreationOptions) (state : ResearchState)
    (eng eng1 : Engine W) (e : Thrown) :
  executor (withMeta "currentStep" (VStr stepName) state) eng = (Rejected e, eng1) ->
  retriedError e = false ->
  createStepRun testMode stepName executor creationOptions state eng
  = (Rejected (if foreignResearchError e
               then notAFunction "researchError.getFormattedMessage"
               else ThrownError (toResearchError stepName e)), eng1).
Proof.
  intros Hcall Hno. fold (rethrown stepName e).
  pose proof (executeFunc_rejected stepName executor state eng eng1 e Hcall) as Hf.
  unfold createStepRun. destruct (optFlag _); [|exact Hf].
  apply (RetryFacts.executeWithRetry_not_retried _ _ _ _ _ _ _ _ Hf); [reflexivity|].
  now apply rethrown_not_retried.
Qed.

Lemma createStep_retries_only_retry_errors_witness :
  createStepRun false "fetch" throwingExecutor retryableCreation plainState
                (mkEngine tt [])
  = (Rejected (ThrownError
                 (newBaseResearchError "boom" "step_execution_error" (Some "fetch") None)),
     mkEngine tt []).
Proof.
  apply (createStep_retries_only_retry_errors false "fetch" throwingExecutor
           retryableCreation plainState (mkEngine tt []) (mkEngine tt [])
           (ThrownError (newError "boom"))); reflexivity.
Defined.

(** X14.  Wrapping a step made by [createStep] changes nothing about its
    execution when neither is retryable and the executor throws no [Error]
    that carries a string [code] without being a [BaseResearchError]: the
    state is stamped with the same [currentStep], a resolved state passes
    through, and the research error of the inner step is rethrown as it
    is, not wrapped again.  The rollback is the step's own. *)
Theorem wrap_created_step_is_transparent {W : Type} (testMode : bool)
    (stepName : string) (executor : Executor W)
    (inner outer : StepCreationOptions) (state : ResearchState) (w : W) :
  optFlag (c_retryable inner) = false ->
  Retry.orDefault (c_retryable outer) false = false ->
  throwsRecordable executor (withMeta "currentStep" (VStr stepName) state)
                   (mkEngine w []) ->
  let created := createStep testMode stepName executor inner in
  execute (wrapStepWithErrorHandling testMode created outer) state w
  = execute created state w
  /\ rollback (wrapStepWithErrorHandling testMode created outer) = rollback created
  /\ name (wrapStepWithErrorHandling testMode created outer) = stepName.
Proof.
  intros Hin Hout Hthrow created. subst created. split; [|split; reflexivity].
  cbn [wrapStepWithErrorHandling execute]. unfold wrapStepRun, wrappedRetryable.
  cbn [createStep retryable name]. rewrite Hin, Hout.
  unfold executeFunc at 1, runStep. cbn [execute world createStep].
  unfold createStepRun. rewrite Hin. unfold executeFunc.
  rewrite withMeta_withMeta.
  destruct (executor (withMeta "currentStep" (VStr stepName) state) (mkEngine w []))
    as [[result|e] eng'] eqn:E; [reflexivity|].
  rewrite formattedMessage_normalised, (Hthrow e eng' E).
  cbn [world]. rewrite toResearchError_idem.
  now rewrite formattedMessage_normalised, (Hthrow e eng' E).
Qed.

Lemma wrap_created_step_is_transparent_witness :
  execute (wrapStepWithErrorHandling false
             (createStep false "fetch" throwingExecutor plainCreation) plainCreation)
          plainState tt
  = execute (createStep false "fetch" throwingExecutor plainCreation) plainState tt.
Proof.
  apply (wrap_created_step_is_transparent false "fetch" throwingExecutor
           plainCreation plainCreation plainState tt); try reflexivity.
  intros e eng' H. injection H as <- _. reflexivity.
Defined.

End StepsMoreFacts.

(** ** Track runner: further properties *)

Module TrackMoreFacts.
Import Steps Track TrackMore.

Lemma strOr_strOr (a b : string) : strOr a (strOr a b) = strOr a b.
Proof. unfold strOr. now destruct (String.eqb a EmptyString). Qed.

Lemma currentStep_stamped (n fallback : string) (s : ResearchState) :
  currentStepOr (withMeta "currentStep" (VStr n) s) (strOr n fallback) = strOr n fallback.
Proof.
  unfold currentStepOr, withMeta. cbn [metadata].
  rewrite RunnerFacts.field_set_same. apply strOr_strOr.
Qed.

Section Loop.
Context {W : Type}.
Variable trackName : string.
Variable continueOnError : bool.

(** The loop over the steps of a track: the steps are called in order,
    each once; with [continueOnError] every step is called, without it the
    first failure ends the loop with the track's error. *)
Lemma runTrackSteps_log (steps : list (ResearchStep W)) :
  forall (cur : ResearchState) (eng : Engine W),
  exists delta k,
    log (snd (runTrackSteps trackName continueOnError steps cur eng))
    = log eng ++ delta
    /\ map fst (FlowControl.calls delta) = firstn k (map name steps)
    /\ match fst (fst (runTrackSteps trackName continueOnError steps cur eng)) with
       | Resolved _ =>
           k = List.length steps
           /\ (continueOnError = false -> FlowControl.thrownIn delta = [])
       | Rejected t =>
           continueOnError = false
           /\ exists pre bad post e,
                steps = pre ++ bad :: post
                /\ k = S (List.length pre)
                /\ FlowControl.thrownIn delta = [e]
                /\ t = trackFailure trackName (name bad) e
       end.
Proof.
  induction steps as [|step rest IH]; intros cur eng.
  - exists [], 0. cbn. rewrite app_nil_r. repeat split.
  - cbn [runTrackSteps].
    pose proof (FlowFacts.runStep_log step (withMeta "currentStep" (VStr (name step)) cur)
                  eng) as Hlog.
    destruct (runStep step (withMeta "currentStep" (VStr (name step)) cur) eng)
      as [[next|stepError] eng1]; cbn [fst snd] in Hlog.
    + destruct (IH next eng1) as (delta & k & Hl & Hc & Hr).
      exists (EvCall (name step) (withMeta "currentStep" (VStr (name step)) cur) :: delta),
             (S k).
      split; [now rewrite Hl, Hlog, <- app_assoc|].
      split; [cbn [FlowControl.calls map fst firstn]; now rewrite Hc|].
      destruct (fst (fst (runTrackSteps trackName continueOnError rest next eng1))).
      * destruct Hr as [-> Hr]. split; [reflexivity|exact Hr].
      * destruct Hr as (Hcoe & pre & bad & post & e0 & -> & -> & Ht & ->).
        split; [exact Hcoe|]. exists (step :: pre), bad, post, e0.
        repeat split. exact Ht.
    + destruct continueOnError eqn:Hcoe; cbn [negb].
      * destruct (IH (withError (asError stepError)
                        (withMeta "currentStep" (VStr (name step)) cur)) eng1)
          as (delta & k & Hl & Hc & Hr).
        exists (EvCall (name step) (withMeta "currentStep" (VStr (name step)) cur)
                  :: EvThrew (name step) stepError :: delta), (S k).
        split; [now rewrite Hl, Hlog, <- app_assoc|].
        split; [cbn [FlowControl.calls map fst firstn]; now rewrite Hc|].
        destruct (fst (fst (runTrackSteps trackName true rest _ eng1))).
        -- destruct Hr as [-> _]. split; [reflexivity|discriminate].
        -- destruct Hr as [Hr _]. discriminate.
      * exists [EvCall (name step) (withMeta "currentStep" (VStr (name step)) cur);
                EvThrew (name step) stepError], 1.
        cbn [fst snd]. split; [exact Hlog|]. split; [reflexivity|].
        split; [reflexivity|]. exists [], step, rest, stepError.
        repeat split. unfold trackFailure.
        now rewrite currentStep_stamped.
Qed.

(** Steps that keep the [errors] they are given leave in it exactly the
    errors thrown during the loop. *)
Lemma runTrackSteps_errors (steps : list (ResearchStep W)) :
  Forall keepsErrors steps ->
  forall (cur : ResearchState) (eng : Engine W) delta,
    log (snd (runTrackSteps trackName continueOnError steps cur eng)) = log eng ++ delta ->
    errors (snd (fst (runTrackSteps trackName continueOnError steps cur eng)))
    = errors cur ++ map asError (FlowControl.thrownIn delta).
Proof.
  induction 1 as [|step rest Hkeep _ IH]; intros cur eng delta Hdelta.
  - cbn in *. rewrite <- (app_nil_r (log eng)) in Hdelta at 1.
    apply app_inv_head in Hdelta. subst delta. cbn. now rewrite app_nil_r.
  - cbn [runTrackSteps] in *.
    pose proof (FlowFacts.runStep_log step (withMeta "currentStep" (VStr (name step)) cur)
                  eng) as Hlog.
    unfold runStep in *.
    destruct (execute step (withMeta "currentStep" (VStr (name step)) cur) (world eng))
      as [[next|stepError] w1] eqn:E; cbn [fst snd log] in *.
    + set (eng1 := mkEngine w1 _) in *.
      destruct (runTrackSteps_log rest next eng1) as (d & _ & Hd & _).
      rewrite Hd in Hdelta. subst eng1. cbn [log] in Hdelta, Hd.
      rewrite <- app_assoc in Hdelta. apply app_inv_head in Hdelta. subst delta.
      rewrite (IH next _ d Hd). cbn [app FlowControl.thrownIn].
      now rewrite (Hkeep _ _ _ _ E).
    + destruct (negb continueOnError); cbn [fst snd log] in *.
      * apply app_inv_head in Hdelta. subst delta. reflexivity.
      * set (eng1 := mkEngine w1 _) in *.
        set (cur1 := withError _ _) in *.
        destruct (runTrackSteps_log rest cur1 eng1) as (d & _ & Hd & _).
        rewrite Hd in Hdelta. subst eng1. cbn [log] in Hdelta, Hd.
        rewrite <- app_assoc in Hdelta. apply app_inv_head in Hdelta. subst delta.
        rewrite (IH cur1 _ d Hd). subst cur1. cbn [withError withMeta errors app].
        cbn [FlowControl.thrownIn map]. now rewrite <- app_assoc.
Qed.
End Loop.

Lemma field_tracksWith_same (state : ResearchState) (n : string) (tr : Value) :
  Js.field n (tracksWith state n tr) = tr.
Proof. unfold tracksWith. apply RunnerFacts.field_set_same. Qed.

Lemma field_tracksWith_other (state : ResearchState) (n other : string) (tr : Value) :
  other <> n ->
  Js.field other (tracksWith state n tr) = trackEntry other state.
Proof.
  intro Hne. unfold tracksWith, trackEntry.
  generalize (Js.field "tracks" (VObj (data state))). intro t.
  cbn [Js.field]. rewrite MergeMoreFacts.get_set_other by exact Hne.
  unfold Js.or.
  destruct t as [| |b|x|x|x|o|x]; cbn; try reflexivity;
    match goal with |- context [if ?c then _ else _] => now destruct c end.
Qed.

Lemma message_asError (t : Thrown) : message (asError t) = errorMessageOf t.
Proof. now destruct t. Qed.

(** A track that goes on after failures resolves with the errors it was
    given and at most one more result. *)
Lemma executeTrackStep_tolerant {W : Type} (isoNow : W -> string)
    (state : ResearchState) (options : TrackOptions W) (eng : Engine W) :
  t_name options <> EmptyString ->
  t_steps options <> [] ->
  continueOnError options = Some true ->
  exists final eng',
    executeTrackStep isoNow state options eng = (Resolved final, eng')
    /\ errors final = errors state
    /\ List.length (results final)
       = List.length (results state)
         + (if defaultTrue (includeInResults options) then 1 else 0).
Proof.
  intros Hname Hsteps Hcoe. unfold executeTrackStep. rewrite Hcoe. cbn [optFlag].
  destruct (String.eqb_spec (t_name options) EmptyString) as [E|_]; [contradiction|].
  destruct (t_steps options) as [|step0 rest] eqn:Est; [contradiction|].
  destruct (runTrackSteps_log (t_name options) true (step0 :: rest)
              (trackState state options) eng) as (delta & k & _ & _ & Hr).
  destruct (runTrackSteps (t_name options) true (step0 :: rest)
              (trackState state options) eng) as [[[u|t] cur] eng'];
    cbn [fst snd] in *.
  2:{ destruct Hr as [Hr _]. discriminate. }
  eexists _, eng'. split; [reflexivity|]. split; [reflexivity|].
  cbn [results]. destruct (defaultTrue (includeInResults options)).
  - rewrite length_app. reflexivity.
  - lia.
Qed.

(** X15.  With [continueOnError], a track with a name and steps always
    resolves, whatever its steps do, and calls every step exactly once, in
    order.  The parent's [errors] are left alone; when the steps keep the
    [errors] they are given, the track result lists one error per failed
    step, with its message, and [completed] tells whether there was none. *)
Theorem track_continues_on_error {W : Type} (isoNow : W -> string)
    (state : ResearchState) (options : TrackOptions W) (eng : Engine W) :
  t_name options <> EmptyString ->
  t_steps options <> [] ->
  continueOnError options = Some true ->
  exists final eng' delta,
    executeTrackStep isoNow state options eng = (Resolved final, eng')
    /\ log eng' = log eng ++ delta
    /\ map fst (FlowControl.calls delta) = map name (t_steps options)
    /\ errors final = errors state
    /\ (Forall keepsErrors (t_steps options) ->
        Js.field "completed" (trackEntry (t_name options) final)
        = VBool (Nat.eqb (List.length (FlowControl.thrownIn delta)) 0)
        /\ exists errs,
             Js.field "errors" (trackEntry (t_name options) final) = VArr errs
             /\ map (Js.field "message") errs
                = map (fun e => VStr (errorMessageOf e)) (FlowControl.thrownIn delta)).
Proof.
  intros Hname Hsteps Hcoe. unfold executeTrackStep. rewrite Hcoe. cbn [optFlag].
  destruct (String.eqb_spec (t_name options) EmptyString) as [E|_]; [contradiction|].
  destruct (t_steps options) as [|step0 rest] eqn:Est; [contradiction|].
  destruct (runTrackSteps_log (t_name options) true (step0 :: rest)
              (trackState state options) eng) as (delta & k & Hl & Hc & Hr).
  pose proof (fun H => runTrackSteps_errors (t_name options) true (step0 :: rest) H
                         (trackState state options) eng delta Hl) as Herr.
  destruct (runTrackSteps (t_name options) true (step0 :: rest)
              (trackState state options) eng) as [[[u|t] cur] eng'];
    cbn [fst snd] in *.
  2:{ destruct Hr as [Hr _]. discriminate. }
  destruct Hr as [-> _].
  eexists _, eng', delta. split; [reflexivity|]. split; [exact Hl|].
  split; [rewrite Hc, <- (length_map name); apply firstn_all|].
  split; [reflexivity|].
  intro Hkeep. unfold trackEntry. cbn [data].
  rewrite RunnerFacts.field_set_same, field_tracksWith_same.
  unfold completedTrackResult. cbn [Js.field Js.get String.eqb Ascii.eqb Bool.eqb].
  rewrite (Herr Hkeep). unfold trackState. cbn [errors app].
  rewrite length_map. split; [reflexivity|].
  eexists. split; [reflexivity|].
  rewrite !map_map. apply map_ext. intro e. unfold errorSummary.
  cbn [Js.field Js.get String.eqb Ascii.eqb Bool.eqb]. now rewrite message_asError.
Qed.

Lemma track_continues_on_error_witness :
  exists final eng' delta,
    executeTrackStep (fun _ : unit => "now") parentState (sampleTrack true false)
                     (mkEngine tt [])
    = (Resolved final, eng')
    /\ map fst (FlowControl.calls delta) = ["search"; "extract"; "rank"].
Proof.
  destruct (track_continues_on_error (fun _ : unit => "now") parentState
              (sampleTrack true false) (mkEngine tt []))
    as (final & eng' & delta & Hrun & _ & Hcalls & _).
  - discriminate.
  - discriminate.
  - reflexivity.
  - exists final, eng', delta. split; [exact Hrun|exact Hcalls].
Defined.

(** X16.  Without [continueOnError] and without a track-level retry, a
    track with a name and steps calls its steps in order up to the first
    one that throws and no further.  If none throws it resolves; otherwise
    it rejects with a [ProcessingError] that names the track and the failed
    step and quotes the message of what was thrown. *)
Theorem track_fails_fast {W : Type} (isoNow : W -> string)
    (state : ResearchState) (options : TrackOptions W) (eng : Engine W) :
  t_name options <> EmptyString ->
  t_steps options <> [] ->
  optFlag (continueOnError options) = false ->
  retryEnabled (t_retry options) = false ->
  exists delta k,
    log (snd (executeTrackStep isoNow state options eng)) = log eng ++ delta
    /\ map fst (FlowControl.calls delta) = firstn k (map name (t_steps options))
    /\ match fst (executeTrackStep isoNow state options eng) with
       | Resolved _ =>
           k = List.length (t_steps options) /\ FlowControl.thrownIn delta = []
       | Rejected t =>
           exists pre bad post e,
             t_steps options = pre ++ bad :: post
             /\ k = S (List.length pre)
             /\ FlowControl.thrownIn delta = [e]
             /\ t = trackFailure (t_name options) (name bad) e
             /\ thrownInstanceOf t ProcessingError = true
       end.
Proof.
  intros Hname Hsteps Hcoe Hretry. unfold executeTrackStep. rewrite Hcoe, Hretry.
  destruct (String.eqb_spec (t_name options) EmptyString) as [E|_]; [contradiction|].
  destruct (t_steps options) as [|step0 rest] eqn:Est; [contradiction|].
  destruct (runTrackSteps_log (t_name options) false (step0 :: rest)
              (trackState state options) eng) as (delta & k & Hl & Hc & Hr).
  destruct (runTrackSteps (t_name options) false (step0 :: rest)
              (trackState state options) eng) as [[[u|t] cur] eng'];
    cbn [fst snd] in *.
  - exists delta, k. split; [exact Hl|]. split; [exact Hc|].
    destruct Hr as [-> Hr]. split; [reflexivity|now apply Hr].
  - destruct Hr as (_ & pre & bad & post & e & Hsplit & -> & Ht & ->).
    exists delta, (S (List.length pre)). cbn [trackFailure thrownInstanceOf].
    replace (instanceOf _ ValidationError || instanceOf _ ConfigurationError
             || instanceOf _ ProcessingError) with true by reflexivity.
    cbn [fst snd]. split; [exact Hl|]. split; [exact Hc|].
    exists pre, bad, post, e. repeat split; assumption.
Qed.

Lemma track_fails_fast_witness :
  exists delta k,
    log (snd (executeTrackStep (fun _ : unit => "now") parentState
                (sampleTrack false false) (mkEngine tt [])))
    = [] ++ delta
    /\ map fst (FlowControl.calls delta)
       = firstn k ["search"; "extract"; "rank"].
Proof.
  destruct (track_fails_fast (fun _ : unit => "now") parentState
              (sampleTrack false false) (mkEngine tt []))
    as (delta & k & Hl & Hc & _).
  - discriminate.
  - discriminate.
  - reflexivity.
  - reflexivity.
  - exists delta, k. split; [exact Hl|exact Hc].
Defined.

(** X17.  A track that resolves hands back the parent's state with the
    track added: the query and the [errors] are the parent's (the errors of
    the steps stay inside the track result), the metadata is the parent's
    apart from the two keys of a track-level retry, the results are the
    parent's plus one [{track}] entry unless [includeInResults] is off, the
    entries of other tracks under [data.tracks] are kept, and with
    [isolate] no data key but [tracks] is changed. *)
Theorem track_keeps_parent_state {W : Type} (isoNow : W -> string)
    (state : ResearchState) (options : TrackOptions W) (eng : Engine W)
    (final : ResearchState) (eng' : Engine W) :
  executeTrackStep isoNow state options eng = (Resolved final, eng') ->
  query final = query state
  /\ errors final = errors state
  /\ (forall k, retryKey k = false ->
                Js.get k (metadata final) = Js.get k (metadata state))
  /\ (retryEnabled (t_retry options) = false -> metadata final = metadata state)
  /\ results final
     = results state
       ++ (if defaultTrue (includeInResults options)
           then [VObj [("track", trackEntry (t_name options) final)]] else [])
  /\ Js.field "name" (trackEntry (t_name options) final) = VStr (t_name options)
  /\ (forall other, other <> t_name options ->
                    trackEntry other final = trackEntry other state)
  /\ (optFlag (isolate options) = true ->
      forall k, k <> "tracks" -> Js.get k (data final) = Js.get k (data state)).
Proof.
  unfold executeTrackStep.
  destruct (String.eqb (t_name options) EmptyString); [discriminate|].
  destruct (t_steps options) as [|step0 rest]; [discriminate|].
  destruct (runTrackSteps (t_name options) (optFlag (continueOnError options))
              (step0 :: rest) (trackState state options) eng)
    as [[[u|t] cur] eng1].
  - intro H. injection H as <- <-. unfold trackEntry. cbn [query errors metadata results data].
    rewrite RunnerFacts.field_set_same, field_tracksWith_same.
    split; [reflexivity|]. split; [reflexivity|]. split; [reflexivity|].
    split; [reflexivity|]. split.
    { destruct (defaultTrue (includeInResults options)); [reflexivity|].
      now rewrite app_nil_r. }
    split; [reflexivity|]. split.
    + intros other Hne. now apply field_tracksWith_other.
    + intros Hiso k Hk. rewrite Hiso. now apply MergeMoreFacts.get_set_other.
  - destruct (retryEnabled (t_retry options)); [|discriminate].
    intro H. injection H as <- <-. unfold trackEntry, failedTrackState, withMeta.
    cbn [query errors metadata results data].
    rewrite RunnerFacts.field_set_same, field_tracksWith_same.
    split; [reflexivity|]. split; [reflexivity|]. split.
    { intros k Hk. unfold retryKey in Hk. apply orb_false_elim in Hk.
      destruct Hk as [Hk1 Hk2].
      rewrite !MergeMoreFacts.get_set_other; [reflexivity| |].
      - intros ->. discriminate.
      - intros ->. discriminate. }
    split; [discriminate|]. split.
    { destruct (defaultTrue (includeInResults options)); [reflexivity|].
      now rewrite app_nil_r. }
    split; [reflexivity|]. split.
    + intros other Hne. now apply field_tracksWith_other.
    + intros _ k Hk. now apply MergeMoreFacts.get_set_other.
Qed.

Lemma track_keeps_parent_state_witness :
  exists final,
    fst (executeTrackStep (fun _ : unit => "now") parentState (sampleTrack true true)
           (mkEngine tt [])) = Resolved final
    /\ errors final = errors parentState
    /\ Js.get "topic" (data final) = Some (VStr "energy").
Proof.
  eexists. split; [reflexivity|].
  destruct (track_keeps_parent_state (fun _ : unit => "now") parentState
              (sampleTrack true true) (mkEngine tt []) _ _ eq_refl)
    as (_ & He & _ & _ & _ & _ & _ & Hiso).
  split; [exact He|]. now rewrite (Hiso eq_refl "topic").
Defined.

End TrackMoreFacts.

(** ** Parallel runner: further properties *)

Module ParallelMoreFacts.
Import Steps Parallel ParallelMore.

Section Runner.
Context {W : Type}.
Variable isoNow : W -> string.
Variable testMode : bool.

Lemma runTrack_log (coe : bool) (state : ResearchState) (index : nat)
    (track : ResearchStep W) (eng : Engine W) :
  exists delta,
    log (snd (runTrack testMode coe state index track eng)) = log eng ++ delta
    /\ FlowControl.calls delta = [dispatch state track].
Proof.
  unfold runTrack. pose proof (FlowFacts.runStep_log track state eng) as Hlog.
  destruct (runStep track state eng) as [[s|e] eng1]; cbn [fst snd] in *.
  - eexists. split; [exact Hlog|reflexivity].
  - exists [EvCall (name track) state; EvThrew (name track) e].
    split; [|reflexivity].
    destruct (testMode && negb coe); [exact Hlog|]. destruct coe; exact Hlog.
Qed.

(** Every track is started, each once, on the state the runner was given. *)
Lemma runTracks_calls (coe : bool) (state : ResearchState)
    (tracks : list (ResearchStep W)) :
  forall (index : nat) (eng : Engine W),
  exists delta,
    log (snd (runTracks testMode coe state index tracks eng)) = log eng ++ delta
    /\ FlowControl.calls delta = map (dispatch state) tracks.
Proof.
  induction tracks as [|track rest IH]; intros index eng.
  - exists []. cbn. now rewrite app_nil_r.
  - cbn [runTracks].
    destruct (runTrack_log coe state index track eng) as (d1 & Hl1 & Hc1).
    destruct (runTrack testMode coe state index track eng) as [r eng1].
    destruct (IH (S index) eng1) as (d2 & Hl2 & Hc2).
    destruct (runTracks testMode coe state (S index) rest eng1) as [rs eng2].
    cbn [snd] in *. exists (d1 ++ d2). split.
    + destruct r as [x|e]; [destruct rs as [xs|e]|]; cbn [snd];
        now rewrite Hl2, Hl1, <- app_assoc.
    + rewrite FlowFacts.calls_app, Hc1, Hc2. reflexivity.
Qed.

Lemma executeParallelStep_engine (timerFirst : bool) (state : ResearchState)
    (options : ParallelOptions W) (eng : Engine W) :
  tracks options <> [] ->
  (0 < effectiveTimeout options)%Z ->
  snd (executeParallelStep isoNow testMode timerFirst state options eng)
  = snd (runTracks testMode (Track.defaultTrue (continueOnError options)) state 0
           (tracks options) eng).
Proof.
  intros Htracks Htimeout. unfold executeParallelStep, effectiveTimeout in *.
  destruct (tracks options) as [|t0 rest]; [contradiction|].
  replace (_ <=? 0)%Z with false by (symmetry; apply Z.leb_gt; exact Htimeout).
  destruct (runTracks testMode _ state 0 (t0 :: rest) eng) as [settled eng'].
  cbn [snd].
  destruct (if timerFirst then _ else settled) as [ss|e]; [reflexivity|].
  now destruct (testMode && _).
Qed.
End Runner.

(** X18.  With at least one track and a positive timeout, the runner
    starts every track exactly once, in array order, and each on the state
    the runner itself was given: no track sees what another one did.  This
    holds whatever the tracks do, in and out of test mode, and whether or
    not the timer ends the race. *)
Theorem parallel_dispatches_every_track {W : Type} (isoNow : W -> string)
    (testMode timerFirst : bool) (state : ResearchState)
    (options : ParallelOptions W) (eng : Engine W) :
  tracks options <> [] ->
  (0 < effectiveTimeout options)%Z ->
  exists delta,
    log (snd (executeParallelStep isoNow testMode timerFirst state options eng))
    = log eng ++ delta
    /\ FlowControl.calls delta = map (dispatch state) (tracks options).
Proof.
  intros Htracks Htimeout.
  rewrite (executeParallelStep_engine isoNow testMode timerFirst state options eng
             Htracks Htimeout).
  apply runTracks_calls.
Qed.

Lemma parallel_dispatches_every_track_witness :
  exists delta,
    log (snd (executeParallelStep clock false false emptyState threeTracks
                (mkEngine tt [])))
    = [] ++ delta
    /\ FlowControl.calls delta = map (dispatch emptyState) (tracks threeTracks).
Proof.
  apply (parallel_dispatches_every_track clock false false emptyState threeTracks
           (mkEngine tt [])).
  - discriminate.
  - reflexivity.
Defined.

(** X19.  Outside the fail-fast of the test environment (test mode with
    [continueOnError] off), the runner rejects only for invalid options: no
    tracks, or a timeout that is not positive; then it throws a
    [ValidationError] before any track is started.  Otherwise it resolves,
    with the query it was given.  When the timer ends the race the parent's
    data and results are returned as they were, and the [TimeoutError] is
    added to the errors. *)
Theorem parallel_rejects_only_invalid_options {W : Type} (isoNow : W -> string)
    (testMode timerFirst : bool) (state : ResearchState)
    (options : ParallelOptions W) (eng : Engine W) :
  failsFast testMode options = false ->
  match fst (executeParallelStep isoNow testMode timerFirst state options eng) with
  | Rejected t =>
      (tracks options = [] \/ (effectiveTimeout options <= 0)%Z)
      /\ thrownInstanceOf t ValidationError = true
      /\ snd (executeParallelStep isoNow testMode timerFirst state options eng) = eng
  | Resolved final =>
      tracks options <> []
      /\ (0 < effectiveTimeout options)%Z
      /\ query final = query state
      /\ (timerFirst = true ->
          data final = data state
          /\ results final = results state
          /\ errors final = errors state ++ [timeoutError (effectiveTimeout options)])
  end.
Proof.
  unfold failsFast, executeParallelStep, effectiveTimeout. intro Hff.
  destruct (tracks options) as [|t0 rest].
  { cbn. split; [now left|]. split; reflexivity. }
  destruct (Z.leb_spec (match timeout options with Some t => t | None => 300000 end) 0)
    as [Hle|Hgt].
  { cbn. split; [now right|]. split; reflexivity. }
  destruct (runTracks testMode _ state 0 (t0 :: rest) eng) as [settled eng'].
  rewrite Hff. destruct timerFirst.
  - cbn [fst query data results errors]. split; [discriminate|]. split; [exact Hgt|].
    split; [reflexivity|]. intros _. repeat split.
  - destruct settled as [ss|e]; cbn [fst].
    + split; [discriminate|]. split; [exact Hgt|]. split; [|discriminate].
      unfold mergeSettled.
      destruct (match mergeFunction options with
                | Some f => _ | None => _ end); reflexivity.
    + cbn [query]. split; [discriminate|]. split; [exact Hgt|].
      split; [reflexivity|discriminate].
Qed.

Lemma parallel_rejects_only_invalid_options_witness :
  exists final,
    fst (executeParallelStep clock false true emptyState threeTracks (mkEngine tt []))
    = Resolved final
    /\ errors final = errors emptyState ++ [timeoutError 300000].
Proof.
  pose proof (parallel_rejects_only_invalid_options clock false true emptyState
                threeTracks (mkEngine tt []) eq_refl) as H.
  destruct (fst (executeParallelStep clock false true emptyState threeTracks
                   (mkEngine tt []))) as [final|t].
  - exists final. split; [reflexivity|].
    destruct H as (_ & _ & _ & H). now destruct (H eq_refl) as (_ & _ & He).
  - destruct H as ([H|H] & _); [discriminate H|].
    exfalso. revert H. unfold effectiveTimeout. cbn. lia.
Defined.

Lemma collect_errors (trackStates : list ResearchState) :
  forall acc,
    allErrors (fold_left collect trackStates acc)
    = allErrors acc ++ flat_map errors trackStates.
Proof.
  induction trackStates as [|s ss IH]; intro acc; cbn [fold_left flat_map].
  - now rewrite app_nil_r.
  - rewrite IH. cbn [collect allErrors]. now rewrite <- app_assoc.
Qed.

Lemma collect_results (trackStates : list ResearchState) :
  forall acc,
    allResults (fold_left collect trackStates acc)
    = allResults acc ++ flat_map results trackStates.
Proof.
  induction trackStates as [|s ss IH]; intro acc; cbn [fold_left flat_map].
  - now rewrite app_nil_r.
  - rewrite IH. cbn [collect allResults]. now rewrite <- app_assoc.
Qed.

(** The state returned once all tracks have settled. *)
Lemma mergeSettled_shape {W : Type} (isoNow : W -> string) (state : ResearchState)
    (options : ParallelOptions W) (trackStates : list ResearchState) (w : W) :
  let final := mergeSettled isoNow state options trackStates w in
  let c := collected state trackStates in
  match mergeOutcome options state trackStates with
  | Resolved mergedResult =>
      errors final = errors state ++ flat_map errors trackStates
      /\ results final
         = results state ++ flat_map results trackStates
           ++ (if Track.defaultTrue (includeInResults options) && Js.truthy mergedResult
               then [VObj [("parallel",
                            VObj (Js.spread [("tracks", keysValue (trackResults c))]
                                    (entriesOf (Js.field "results" mergedResult))))]]
               else [])
      /\ Js.get "parallelMerged" (data final) = Some mergedResult
  | Rejected error =>
      errors final
      = errors state ++ flat_map errors trackStates
        ++ [mergeFailure (List.length (trackResults c)) error]
      /\ results final = results state ++ flat_map results trackStates
      /\ Js.get "parallelMerged" (data final) = Some VUndefined
      /\ Js.get "tracks" (data final) = Some (VObj (trackResults c))
  end.
Proof.
  intros final c. subst final. unfold mergeSettled, mergeOutcome.
  fold (collected state trackStates). fold c.
  assert (He : allErrors c = errors state ++ flat_map errors trackStates)
    by (unfold c, collected; now rewrite collect_errors).
  assert (Hr : allResults c = results state ++ flat_map results trackStates)
    by (unfold c, collected; now rewrite collect_results).
  destruct (match mergeFunction options with
            | Some f => f (trackResults c) state
            | None => Resolved (defaultMergeFunction (trackResults c))
            end) as [mergedResult|error];
    cbn [errors results data].
  - rewrite He, MergeMoreFacts.get_set_here. split; [reflexivity|]. split; [|reflexivity].
    destruct (Track.defaultTrue (includeInResults options) && Js.truthy mergedResult).
    + now rewrite Hr, <- app_assoc.
    + now rewrite Hr, app_nil_r.
  - rewrite He, Hr, MergeMoreFacts.get_set_here, <- app_assoc.
    repeat split.
    rewrite MergeMoreFacts.get_set_other by discriminate.
    apply MergeMoreFacts.get_set_here.
Qed.

Lemma executeParallelStep_settled {W : Type} (isoNow : W -> string) (testMode : bool)
    (state : ResearchState) (options : ParallelOptions W) (eng eng' : Engine W)
    (trackStates : list ResearchState) :
  tracks options <> [] ->
  (0 < effectiveTimeout options)%Z ->
  runTracks testMode (Track.defaultTrue (continueOnError options)) state 0
            (tracks options) eng
  = (Resolved trackStates, eng') ->
  executeParallelStep isoNow testMode false state options eng
  = (Resolved (mergeSettled isoNow state options trackStates (world eng')), eng').
Proof.
  intros Htracks Htimeout Hrun. unfold executeParallelStep, effectiveTimeout in *.
  destruct (tracks options) as [|t0 rest]; [contradiction|].
  replace (_ <=? 0)%Z with false by (symmetry; apply Z.leb_gt; exact Htimeout).
  now rewrite Hrun.
Qed.





Section Tolerant.
Context {W : Type}.
Variable isoNow : W -> string.
Variable testMode : bool.

(** A tolerant track made by [track()] resolves with the errors of the
    state it was given and at most one more result. *)
Lemma runStep_tolerant_track (o : Track.TrackOptions W) (state : ResearchState)
    (eng : Engine W) :
  tolerant o ->
  exists s eng1,
    runStep (Track.track isoNow testMode o) state eng = (Resolved s, eng1)
    /\ errors s = errors state
    /\ List.length (results s)
       = List.length (results state)
         + (if Track.defaultTrue (Track.includeInResults o) then 1 else 0).
Proof.
  intros (Hname & Hsteps & Hcoe). unfold runStep, Track.track.
  cbn [execute createStep name].
  match goal with
  | |- context [createStepRun testMode "Track" ?ex ?co state ?e0] =>
      destruct (StepsMoreFacts.createStepRun_call testMode "Track" ex co state e0)
        as (eng0 & Hcall);
      destruct (createStepRun testMode "Track" ex co state e0) as [r eng2]
  end.
  unfold executeFunc in Hcall.
  destruct (TrackMoreFacts.executeTrackStep_tolerant isoNow
              (withMeta "currentStep" (VStr "Track") state) o eng0 Hname Hsteps Hcoe)
    as (final & eng3 & Hrun & He & Hr).
  rewrite Hrun in Hcall. injection Hcall as <- <-.
  eexists _, _. split; [reflexivity|]. split; [exact He|exact Hr].
Qed.

Lemma runTracks_tolerant (coe : bool) (state : ResearchState)
    (trackOptions : list (Track.TrackOptions W)) :
  Forall tolerant trackOptions ->
  forall (index : nat) (eng : Engine W),
  exists trackStates eng',
    runTracks testMode coe state index (map (Track.track isoNow testMode) trackOptions)
              eng
    = (Resolved trackStates, eng')
    /\ flat_map errors trackStates
       = List.concat (repeat (errors state) (List.length trackOptions))
    /\ List.length (flat_map results trackStates)
       = List.length trackOptions * List.length (results state)
         + includedTracks trackOptions.
Proof.
  induction 1 as [|o os Ho _ IH]; intros index eng.
  - exists [], eng. repeat split.
  - cbn [map runTracks]. unfold runTrack.
    destruct (runStep_tolerant_track o state eng Ho) as (s & eng1 & Hrun & He & Hr).
    rewrite Hrun.
    destruct (IH (S index) eng1) as (ss & eng2 & Hrest & Hes & Hrs).
    rewrite Hrest. exists (s :: ss), eng2. split; [reflexivity|].
    cbn [flat_map List.length repeat List.concat]. split.
    + now rewrite He, Hes.
    + rewrite length_app, Hr, Hrs. unfold includedTracks. cbn [filter].
      destruct (Track.defaultTrue (Track.includeInResults o)); cbn [List.length]; lia.
Qed.
End Tolerant.



End ParallelMoreFacts.

(** ** Flow-control loop: further properties *)

Module FlowMoreFacts.
Import Steps FlowControl.

Section Loop.
Context {W : Type}.
Variable conditionStep : ResearchStep W.
Variable stepsToRepeat : list (ResearchStep W).
Variable continueOnError : bool.

(** The steps of an iteration announce no iteration. *)
Lemma runRepeated_silent (iterations : Z) (steps : list (ResearchStep W))
    (conditionState : ResearchState) :
  forall current errs (eng : Engine W),
  exists delta,
    log (snd (runRepeated continueOnError iterations steps conditionState current errs
                eng))
    = log eng ++ delta
    /\ announced delta = [].
Proof.
  induction steps as [|step rest IH]; intros current errs eng; cbn [runRepeated].
  - exists []. rewrite app_nil_r. now split.
  - pose proof (FlowFacts.runStep_log step conditionState eng) as Hl.
    destruct (runStep step conditionState eng) as [[next|e] eng'] eqn:E;
      cbn [fst snd] in Hl.
    + destruct (IH next errs eng') as (delta & Hd & Ha).
      exists (EvCall (name step) conditionState :: delta).
      rewrite Hd, Hl, <- app_assoc. split; [reflexivity|exact Ha].
    + destruct (negb continueOnError).
      * exists [EvCall (name step) conditionState; EvThrew (name step) e].
        split; [exact Hl|reflexivity].
      * destruct (IH current (errs ++ [asError e]) eng') as (delta & Hd & Ha).
        exists (EvCall (name step) conditionState :: EvThrew (name step) e :: delta).
        rewrite Hd, Hl, <- app_assoc. split; [reflexivity|exact Ha].
Qed.

(** The [while] loop, whatever the steps do: iterations are announced one
    by one, never more than the loop has left; a loop that ends without the
    condition met has used them all, and one that ends with the condition
    met ends on the call of the condition step. *)
Lemma loop_invariants (remaining : nat) :
  forall (st : LoopState) (eng : Engine W),
    conditionMet st = false ->
    exists delta k,
      log (snd (loop conditionStep stepsToRepeat continueOnError remaining st eng))
      = log eng ++ delta
      /\ (k <= remaining)%nat
      /\ announced delta = map (fun i => (iterations st + Z.of_nat i)%Z) (seq 1 k)
      /\ match fst (loop conditionStep stepsToRepeat continueOnError remaining st eng) with
         | Resolved st' =>
             iterations st' = (iterations st + Z.of_nat k)%Z
             /\ (conditionMet st' = false -> k = remaining)
             /\ (conditionMet st' = true ->
                 conditionPassed (currentState st') = true
                 /\ exists pre input,
                      delta = pre ++ [EvCall (name conditionStep) input])
         | Rejected _ => (1 <= k)%nat
         end.
Proof.
  induction remaining as [|r IH]; intros st eng Hmet.
  - exists [], 0. cbn. rewrite app_nil_r, Z.add_0_r.
    split; [reflexivity|]. split; [lia|]. split; [reflexivity|].
    split; [reflexivity|]. split; [reflexivity|].
    intro H. rewrite Hmet in H. discriminate.
  - cbn [loop].
    set (eng0 := emit (EvIteration (iterations st + 1)) eng).
    pose proof (FlowFacts.runStep_log conditionStep (currentState st) eng0) as Hl.
    destruct (runStep conditionStep (currentState st) eng0)
      as [[conditionState|e] eng1] eqn:E; cbn [fst snd] in Hl.
    + destruct (conditionPassed conditionState) eqn:Hpass.
      * exists [EvIteration (iterations st + 1);
                EvCall (name conditionStep) (currentState st)], 1.
        cbn [fst snd]. split; [rewrite Hl; subst eng0; cbn; now rewrite <- app_assoc|].
        split; [lia|]. split; [reflexivity|].
        cbn [iterations conditionMet currentState]. split; [reflexivity|].
        split; [discriminate|]. intros _. split; [exact Hpass|].
        now exists [EvIteration (iterations st + 1)], (currentState st).
      * destruct (runRepeated_silent (iterations st + 1) stepsToRepeat conditionState
                    (currentState st) (iterationErrors st) eng1) as (d2 & Hl2 & Ha2).
        destruct (runRepeated continueOnError (iterations st + 1) stepsToRepeat
                    conditionState (currentState st) (iterationErrors st) eng1)
          as [[[[u|err] current] errs] eng2]; cbn [snd] in Hl2.
        -- destruct (IH (mkLoop current (iterations st + 1) false errs) eng2 eq_refl)
             as (d3 & k & Hl3 & Hk & Ha3 & Hr).
           exists ([EvIteration (iterations st + 1);
                    EvCall (name conditionStep) (currentState st)] ++ d2 ++ d3), (S k).
           split.
           { rewrite Hl3, Hl2, Hl. subst eng0. cbn. now rewrite <- !app_assoc. }
           split; [lia|]. split.
           { rewrite !FlowFacts.announced_app, Ha2, Ha3. cbn [announced app].
             now rewrite FlowFacts.seq_offsets. }
           cbn [iterations] in Hr.
           destruct (fst (loop conditionStep stepsToRepeat continueOnError r _ eng2));
             [|lia].
           destruct Hr as (Hit & Hno & Hyes). split; [lia|]. split.
           ++ intro H. now rewrite (Hno H).
           ++ intro H. destruct (Hyes H) as (Hp & pre & input & ->).
              split; [exact Hp|].
              exists ([EvIteration (iterations st + 1);
                       EvCall (name conditionStep) (currentState st)] ++ d2 ++ pre), input.
              now rewrite <- !app_assoc.
        -- destruct (negb continueOnError).
           ++ exists ([EvIteration (iterations st + 1);
                       EvCall (name conditionStep) (currentState st)] ++ d2), 1.
              cbn [fst snd]. split.
              { rewrite Hl2, Hl. subst eng0. cbn. now rewrite <- !app_assoc. }
              split; [lia|]. split; [|lia].
              rewrite FlowFacts.announced_app, Ha2. reflexivity.
           ++ destruct (IH (mkLoop current (iterations st + 1) false
                                   (errs ++ [asError err])) eng2 eq_refl)
                as (d3 & k & Hl3 & Hk & Ha3 & Hr).
              exists ([EvIteration (iterations st + 1);
                       EvCall (name conditionStep) (currentState st)] ++ d2 ++ d3), (S k).
              split.
              { rewrite Hl3, Hl2, Hl. subst eng0. cbn. now rewrite <- !app_assoc. }
              split; [lia|]. split.
              { rewrite !FlowFacts.announced_app, Ha2, Ha3. cbn [announced app].
                now rewrite FlowFacts.seq_offsets. }
              cbn [iterations] in Hr.
              destruct (fst (loop conditionStep stepsToRepeat continueOnError r _ eng2));
                [|lia].
              destruct Hr as (Hit & Hno & Hyes). split; [lia|]. split.
              ** intro H. now rewrite (Hno H).
              ** intro H. destruct (Hyes H) as (Hp & pre & input & ->).
                 split; [exact Hp|].
                 exists ([EvIteration (iterations st + 1);
                          EvCall (name conditionStep) (currentState st)] ++ d2 ++ pre),
                        input.
                 now rewrite <- !app_assoc.
    + destruct (negb continueOnError).
      * exists [EvIteration (iterations st + 1);
                EvCall (name conditionStep) (currentState st);
                EvThrew (name conditionStep) e], 1.
        cbn [fst snd]. split; [rewrite Hl; subst eng0; cbn; now rewrite <- app_assoc|].
        split; [lia|]. split; [reflexivity|lia].
      * destruct (IH (mkLoop (currentState st) (iterations st + 1) false
                             (iterationErrors st ++ [asError e])) eng1 eq_refl)
          as (d3 & k & Hl3 & Hk & Ha3 & Hr).
        exists ([EvIteration (iterations st + 1);
                 EvCall (name conditionStep) (currentState st);
                 EvThrew (name conditionStep) e] ++ d3), (S k).
        split.
        { rewrite Hl3, Hl. subst eng0. cbn. now rewrite <- !app_assoc. }
        split; [lia|]. split.
        { rewrite !FlowFacts.announced_app, Ha3. cbn [announced app].
          now rewrite FlowFacts.seq_offsets. }
        cbn [iterations] in Hr.
        destruct (fst (loop conditionStep stepsToRepeat continueOnError r _ eng1));
          [|lia].
        destruct Hr as (Hit & Hno & Hyes). split; [lia|]. split.
        -- intro H. now rewrite (Hno H).
        -- intro H. destruct (Hyes H) as (Hp & pre & input & ->).
           split; [exact Hp|].
           exists ([EvIteration (iterations st + 1);
                    EvCall (name conditionStep) (currentState st);
                    EvThrew (name conditionStep) e] ++ pre), input.
           now rewrite <- !app_assoc.
Qed.
End Loop.

(** X23.  One run of the body of [repeatUntil], whatever the steps do:
    the iterations are numbered 1, 2, ... and there are never more than
    [maxIterations]; the count is what the returned state reports.  A run
    that resolves without the condition met has used every iteration; one
    that resolves with the condition met ends on the call of the condition
    step, so the steps to repeat are not run once the condition holds. *)
Theorem repeatUntil_iterations_bounded {W : Type} (conditionStep : ResearchStep W)
    (stepsToRepeat : list (ResearchStep W)) (maxIterations : Z)
    (throwOnMaxIterations continueOnError : bool)
    (state : ResearchState) (eng : Engine W) :
  exists delta k,
    log (snd (repeatUntilBody conditionStep stepsToRepeat maxIterations
                throwOnMaxIterations continueOnError state eng))
    = log eng ++ delta
    /\ (k <= Z.to_nat maxIterations)%nat
    /\ announced delta = map Z.of_nat (seq 1 k)
    /\ match fst (repeatUntilBody conditionStep stepsToRepeat maxIterations
                    throwOnMaxIterations continueOnError state eng) with
       | Resolved final =>
           Js.field "repeatUntilIterations" (VObj (metadata final))
           = VNum (Fin (inject_Z (Z.of_nat k)))
           /\ (Js.field "repeatUntilConditionMet" (VObj (metadata final)) = VBool false ->
               k = Z.to_nat maxIterations)
           /\ (Js.field "repeatUntilConditionMet" (VObj (metadata final)) = VBool true ->
               exists pre input, delta = pre ++ [EvCall (name conditionStep) input])
       | Rejected _ => True
       end.
Proof.
  unfold repeatUntilBody.
  destruct (loop_invariants conditionStep stepsToRepeat continueOnError
              (Z.to_nat maxIterations) (mkLoop state 0 false []) eng eq_refl)
    as (delta & k & Hl & Hk & Ha & Hr).
  exists delta, k.
  destruct (loop conditionStep stepsToRepeat continueOnError (Z.to_nat maxIterations)
              (mkLoop state 0 false []) eng) as [[st'|e] eng']; cbn [fst snd] in *.
  - assert (Hshape : log eng' = log eng ++ delta
                     /\ (k <= Z.to_nat maxIterations)%nat
                     /\ announced delta = map Z.of_nat (seq 1 k)).
    { split; [exact Hl|]. split; [exact Hk|]. rewrite Ha. apply map_ext.
      intro i. cbn [iterations]. lia. }
    destruct Hshape as (H1 & H2 & H3).
    destruct (negb (conditionMet st') && throwOnMaxIterations); cbn [fst snd].
    + now repeat split.
    + split; [exact H1|]. split; [exact H2|]. split; [exact H3|].
      destruct Hr as (Hit & Hno & Hyes). unfold finalState. cbn [metadata].
      rewrite RunnerFacts.field_set_same. cbn [Js.field].
      rewrite MergeMoreFacts.get_set_other by discriminate.
      rewrite MergeMoreFacts.get_set_here. cbn [iterations] in Hit.
      split; [now rewrite Hit|]. split.
      * intro H. apply Hno. now injection H.
      * intro H. apply Hyes. now injection H.
  - destruct (_ || _); cbn [fst snd];
      (split; [exact Hl|]; split; [exact Hk|]; split; [|exact I];
       rewrite Ha; apply map_ext; intro i; cbn [iterations]; lia).
Qed.

End FlowMoreFacts.

(** ** Evaluation step *)

Module EvaluateFacts.
Import Steps Evaluate.

(** Defining a property whose name is no array index leaves the indexed
    properties as they are. *)
Lemma indexed_set {A} (k : string) (v : A) (o : list (string * A)) :
  Js.isArrayIndex k = false ->
  forall acc : list (N * (string * A)),
    fold_left (fun acc kv =>
                 match Js.arrayIndex (fst kv) with
                 | Some i => Js.insertIndexed i kv acc
                 | None => acc
                 end) (Js.set k v o) acc
    = fold_left (fun acc kv =>
                   match Js.arrayIndex (fst kv) with
                   | Some i => Js.insertIndexed i kv acc
                   | None => acc
                   end) o acc.
Proof.
  unfold Js.isArrayIndex. intro Hk.
  induction o as [|[k0 v0] o IH]; intro acc; cbn [Js.set].
  - cbn [fold_left fst]. now destruct (Js.arrayIndex k).
  - destruct (String.eqb_spec k k0) as [<-|_]; cbn [fold_left fst].
    + now destruct (Js.arrayIndex k).
    + apply IH.
Qed.

Lemma named_set {A} (k : string) (v : A) (o : list (string * A)) :
  Js.isArrayIndex k = false ->
  map fst (filter (fun kv => negb (Js.isArrayIndex (fst kv))) (Js.set k v o))
  = map fst (filter (fun kv => negb (Js.isArrayIndex (fst kv))) o)
    ++ match Js.get k o with Some _ => [] | None => [k] end.
Proof.
  intro Hk. induction o as [|[k0 v0] o IH]; cbn [Js.set Js.get filter].
  - cbn [fst]. now rewrite Hk.
  - destruct (String.eqb_spec k k0) as [<-|_]; cbn [filter fst].
    + rewrite Hk. cbn [negb map fst]. now rewrite app_nil_r.
    + destruct (negb (Js.isArrayIndex k0)); [|exact IH].
      cbn [map fst app]. f_equal. exact IH.
Qed.

(** [Object.keys] after the definition of a property whose name is no
    array index: the name goes last when it is new and keeps its place
    otherwise. *)
Lemma keys_set {A} (k : string) (v : A) (o : list (string * A)) :
  Js.isArrayIndex k = false ->
  Js.keys (Js.set k v o)
  = Js.keys o ++ match Js.get k o with Some _ => [] | None => [k] end.
Proof.
  intro Hk. unfold Js.keys, Js.entries.
  rewrite (indexed_set k v o Hk), !map_app, (named_set k v o Hk).
  now rewrite app_assoc.
Qed.

(** The key [repeatUntil] reads is the one just written when its name is
    no array index and it is new or was the last one already. *)
Lemma latest_key_after_set (k : string) (v : Value) (o : Obj) :
  Js.isArrayIndex k = false ->
  Js.get k o = None \/ hd_error (rev (Js.keys o)) = Some k ->
  exists rest, rev (Js.keys (Js.set k v o)) = k :: rest.
Proof.
  intros Hk Hlatest. rewrite (keys_set k v o Hk).
  destruct (Js.get k o) as [x|] eqn:Hg.
  - destruct Hlatest as [Hnew|Hlast]; [discriminate|].
    rewrite app_nil_r. destruct (rev (Js.keys o)) as [|k' rest]; [discriminate|].
    injection Hlast as ->. now eexists.
  - rewrite rev_app_distr. now eexists.
Qed.

Section Stored.
Context {W : Type}.
Variable isoNow : W -> string.
Variable parseNumber : Value -> Num.

Lemma conditionPassed_storedState (state : ResearchState) (criteriaName : string)
    (result : bool) (score : Num) (w : W) :
  criteriaName <> EmptyString ->
  Js.isArrayIndex criteriaName = false ->
  Js.get criteriaName (evaluationsOf state) = None
  \/ hd_error (rev (Js.keys (evaluationsOf state))) = Some criteriaName ->
  FlowControl.conditionPassed
    (storedState isoNow parseNumber state criteriaName result score w)
  = result.
Proof.
  intros Hname Hindex Hkey. unfold FlowControl.conditionPassed, storedState. cbn [data].
  rewrite RunnerFacts.field_set_same.
  cbn [Js.or Js.truthy Js.ownProperties]. unfold Js.ownKeys.
  cbn [Js.ownProperties].
  destruct (latest_key_after_set criteriaName
              (evaluationResult isoNow criteriaName result score w)
              (evaluationsOf state) Hindex Hkey) as (rest & ->).
  destruct (String.eqb_spec criteriaName EmptyString) as [E|_]; [contradiction|].
  rewrite MergeMoreFacts.get_set_here. unfold evaluationResult.
  cbn. now destruct result.
Qed.
End Stored.

(** X24.  An evaluation whose criteria function returns the boolean [b]
    stores a result that the loop of [repeatUntil] reads back as [b],
    provided the criteria name is not empty, is no array index (those come
    first in [Object.keys]) and is new among [data.evaluations] or was its
    last key already; an older entry under the same name keeps its place,
    and the loop reads the last one.  The query, results and errors are
    those of the input. *)
Theorem evaluate_records_condition {W : Type} (isoNow : W -> string)
    (parseNumber : Value -> Num) (showNum : Num -> string)
    (state : ResearchState) (options : EvaluateOptions W) (eng : Engine W)
    (fn : ResearchState -> W -> Outcome Value * W) (b : bool) (w' : W) :
  criteriaFn options = Some fn ->
  thresholdOutOfRange options = false ->
  Track.defaultTrue (storeResult options) = true ->
  fn state (world eng) = (Resolved (VBool b), w') ->
  effectiveName options <> EmptyString ->
  Js.isArrayIndex (effectiveName options) = false ->
  Js.get (effectiveName options) (evaluationsOf state) = None
  \/ hd_error (rev (Js.keys (evaluationsOf state))) = Some (effectiveName options) ->
  exists final,
    executeEvaluateStep isoNow parseNumber showNum state options eng
    = (Resolved final, mkEngine w' (log eng))
    /\ FlowControl.conditionPassed final = b
    /\ Js.field "passed" (Js.field (effectiveName options)
                            (Js.field "evaluations" (VObj (data final))))
       = VBool b
    /\ Js.field "lastEvaluationResult" (VObj (metadata final)) = VBool b
    /\ query final = query state
    /\ results final = results state
    /\ errors final = errors state.
Proof.
  intros Hfn Hrange Hstore Hcall Hname Hindex Hkey. unfold executeEvaluateStep.
  rewrite Hfn, Hrange, Hcall, Hstore. eexists. split; [reflexivity|].
  split; [now apply conditionPassed_storedState|].
  unfold storedState. cbn [data metadata query results errors].
  rewrite !RunnerFacts.field_set_same. cbn [Js.field].
  rewrite MergeMoreFacts.get_set_other by discriminate.
  rewrite MergeMoreFacts.get_set_here. repeat split.
Qed.

Lemma evaluate_records_condition_witness :
  exists final,
    executeEvaluateStep (fun _ : unit => "now") Merge.noParse showAny
      (mkState "q" [] [VStr "r1"; VStr "r2"] [] []) (criteriaOptions (enoughResults 2))
      (mkEngine tt [])
    = (Resolved final, mkEngine tt [])
    /\ FlowControl.conditionPassed final = true.
Proof.
  destruct (evaluate_records_condition (fun _ : unit => "now") Merge.noParse showAny
              (mkState "q" [] [VStr "r1"; VStr "r2"] [] [])
              (criteriaOptions (enoughResults 2)) (mkEngine tt [])
              (enoughResults 2) true tt)
    as (final & Hrun & Hpassed & _).
  - reflexivity.
  - reflexivity.
  - reflexivity.
  - reflexivity.
  - discriminate.
  - reflexivity.
  - left. reflexivity.
  - exists final. split; [exact Hrun|exact Hpassed].
Defined.

Lemma mathMax_finite (p s : Q) :
  exists m, mathMax (Fin p) (Fin s) = Fin m /\ (p <= m)%Q /\ (s <= m)%Q.
Proof.
  unfold mathMax, JsNum.gt. destruct (Qcompare s p) eqn:E.
  - exists p. split; [reflexivity|]. apply Qeq_alt in E. split; lra.
  - exists p. split; [reflexivity|]. apply Qlt_alt in E. split; lra.
  - exists s. split; [reflexivity|]. apply Qgt_alt in E. split; lra.
Qed.



(** X26.  Whatever goes wrong in the criteria function is reported as a
    [ProcessingError] marked [retry: true] that quotes the criteria name
    and the cause: what the function threw, or, for a result that is not a
    boolean, the complaint naming its type.  The state is not changed.  The
    step made by [evaluate] rejects with that very error after this one
    call: the step is not retryable, whatever [options.retry] says. *)
Theorem evaluate_wraps_criteria_failure {W : Type} (isoNow : W -> string)
    (parseNumber : Value -> Num) (showNum : Num -> string) (testMode : bool)
    (state : ResearchState) (options : EvaluateOptions W) (w w' : W)
    (fn : ResearchState -> W -> Outcome Value * W) (settled : Outcome Value)
    (cause : Thrown) :
  criteriaFn options = Some fn ->
  thresholdOutOfRange options = false ->
  fn (withMeta "currentStep" (VStr "Evaluate") state) w = (settled, w') ->
  causeOf settled = Some cause ->
  execute (evaluate isoNow parseNumber showNum testMode options) state w
  = (Rejected (criteriaFailure (effectiveName options) cause), w')
  /\ thrownInstanceOf (criteriaFailure (effectiveName options) cause) ProcessingError
     = true
  /\ Retry.defaultIsRetryable (criteriaFailure (effectiveName options) cause) = true.
Proof.
  intros Hfn Hrange Hcall Hcause. split; [|split; reflexivity].
  unfold evaluate. cbn [execute createStep]. unfold createStepRun.
  cbn [c_retryable optFlag]. unfold executeFunc, executeEvaluateStep.
  rewrite Hfn, Hrange. cbn [world]. rewrite Hcall.
  destruct settled as [[| |b|n|x|items|fields|k]|error]; cbn [causeOf] in Hcause;
    try discriminate; injection Hcause as <-; reflexivity.
Qed.

Lemma evaluate_wraps_criteria_failure_witness :
  execute (evaluate (fun _ : unit => "now") Merge.noParse showAny false
             (criteriaOptions countingCriteria))
          (mkState "q" [] [] [] []) tt
  = (Rejected (criteriaFailure "CustomEvaluation" (notBoolean (VNum (Fin 1)))), tt).
Proof.
  apply (evaluate_wraps_criteria_failure (fun _ : unit => "now") Merge.noParse showAny false
           (mkState "q" [] [] [] []) (criteriaOptions countingCriteria) tt tt
           countingCriteria (Resolved (VNum (Fin 1))) (notBoolean (VNum (Fin 1))));
    reflexivity.
Defined.

End EvaluateFacts.

(** ** Merging track results *)

Module MergeResultsFacts.
Import Merge MergeMore MergeResults.

Lemma pushTo_nil {A} (type : string) (x : A) : pushTo type x [] = [(type, [x])].
Proof. reflexivity. Qed.

Lemma pushTo_cons {A} (type k : string) (x : A) (l : list A)
    (o : list (string * list A)) :
  pushTo type x ((k, l) :: o)
  = if String.eqb type k then (type, l ++ [x]) :: o else (k, l) :: pushTo type x o.
Proof.
  unfold pushTo. cbn [Js.get]. destruct (String.eqb type k) eqn:E.
  - cbn [Js.set]. now rewrite E.
  - destruct (Js.get type o); cbn [Js.set]; now rewrite E.
Qed.

(** What a collection holds after a push. *)
Lemma pushTo_get {A} (type k : string) (x : A) (o : list (string * list A)) :
  Js.get k (pushTo type x o)
  = if String.eqb k type
    then Some (match Js.get type o with Some l => l | None => [] end ++ [x])
    else Js.get k o.
Proof.
  unfold pushTo. destruct (String.eqb_spec k type) as [->|Hne].
  - destruct (Js.get type o); now rewrite MergeMoreFacts.get_set_here.
  - destruct (Js.get type o); now rewrite MergeMoreFacts.get_set_other.
Qed.

Lemma pushTo_lengths {A B} (type : string) (x : A) (y : B)
    (o1 : list (string * list A)) :
  forall o2 : list (string * list B),
    map (fun e => (fst e, List.length (snd e))) o1
    = map (fun e => (fst e, List.length (snd e))) o2 ->
    map (fun e => (fst e, List.length (snd e))) (pushTo type x o1)
    = map (fun e => (fst e, List.length (snd e))) (pushTo type y o2).
Proof.
  induction o1 as [|[k1 l1] o1 IH]; intros [|[k2 l2] o2] H; try discriminate.
  - reflexivity.
  - cbn [map fst snd] in H. injection H as Hk Hl Hrest. subst k2.
    rewrite !pushTo_cons. destruct (String.eqb type k1).
    + cbn [map fst snd]. rewrite !length_app, Hl. cbn [List.length].
      f_equal. exact Hrest.
    + cbn [map fst snd]. rewrite Hl. f_equal. now apply IH.
Qed.

Lemma aligned_get (byType : ByType) (type : string) (values : list Value) :
  aligned byType ->
  Js.get type (resultsByType byType) = Some values ->
  exists metadata,
    Js.get type (metadataByType byType) = Some metadata
    /\ List.length metadata = List.length values.
Proof.
  unfold aligned. generalize (resultsByType byType), (metadataByType byType).
  induction l as [|[k1 l1] o1 IH]; intros [|[k2 l2] o2] H Hg; try discriminate.
  cbn [map fst snd] in H. injection H as Hk Hl Hrest. subst k2.
  cbn [Js.get] in *. destruct (String.eqb type k1).
  - injection Hg as <-. now exists l2.
  - now apply IH.
Qed.

Lemma populated_get (byType : ByType) (type : string) (values : list Value) :
  populated byType ->
  Js.get type (resultsByType byType) = Some values ->
  values <> [].
Proof.
  unfold populated. generalize (resultsByType byType).
  induction l as [|[k l0] o IH]; intros Hall Hg; [discriminate|].
  inversion Hall as [|? ? Hne Hrest]; subst. cbn [Js.get] in Hg.
  destruct (String.eqb type k); [injection Hg as <-; exact Hne|now apply IH].
Qed.

Lemma populated_pushTo (type : string) (x : Value) (o : list (string * list Value)) :
  Forall (fun e => snd e <> []) o ->
  Forall (fun e => snd e <> []) (pushTo type x o).
Proof.
  induction 1 as [|[k l] o Hne Ho IH].
  - repeat constructor. discriminate.
  - rewrite pushTo_cons. destruct (String.eqb type k); constructor; try assumption.
    cbn [snd]. intro E. apply app_eq_nil in E. destruct E as [_ E]. discriminate.
Qed.

Lemma ownTypes_pushTo (type : string) (x : Value) (o : list (string * list Value)) :
  Js.inherited type = false ->
  Forall (fun e => Js.inherited (fst e) = false) o ->
  Forall (fun e => Js.inherited (fst e) = false) (pushTo type x o).
Proof.
  intro Ht. induction 1 as [|[k l] o Hk Ho IH].
  - repeat constructor. exact Ht.
  - rewrite pushTo_cons. destruct (String.eqb type k); constructor; assumption.
Qed.

Section Categorize.
Variable tracks : list (string * Value).

Lemma categorize_invariants (entry : string * Value) (items : list Value) :
  In entry tracks ->
  Js.field "results" (snd entry) = VArr items ->
  forall results acc,
    incl results items ->
    Forall (fun r => ownType r = true) results ->
    aligned acc -> populated acc -> ownTypes acc -> fromTracks tracks acc ->
    exists acc',
      categorize (fst entry) (snd entry) results acc = Resolved acc'
      /\ aligned acc' /\ populated acc' /\ ownTypes acc' /\ fromTracks tracks acc'.
Proof.
  intros Hentry Hitems. induction results as [|result rest IH];
    intros acc Hincl Hok Hal Hpop Hown Hfrom.
  - exists acc. now repeat split.
  - inversion Hok as [|? ? Hr Hrest]; subst. cbn [categorize].
    unfold ownType in Hr.
    destruct (resultType result) as [type|] eqn:Htype; [|discriminate].
    apply negb_true_iff in Hr. rewrite Hr.
    apply IH.
    + intros x Hx. apply Hincl. now right.
    + exact Hrest.
    + unfold aligned. cbn [resultsByType metadataByType]. now apply pushTo_lengths.
    + unfold populated. cbn [resultsByType]. now apply populated_pushTo.
    + unfold ownTypes. cbn [resultsByType]. now apply ownTypes_pushTo.
    + intros type' values v Hg Hin. cbn [resultsByType] in Hg.
      rewrite pushTo_get in Hg.
      destruct (String.eqb_spec type' type) as [->|Hne].
      * injection Hg as <-. apply in_app_or in Hin. destruct Hin as [Hin|[<-|[]]].
        -- destruct (Js.get type (resultsByType acc)) as [l|] eqn:Hl; [|contradiction].
           now apply (Hfrom type l v).
        -- exists entry, items, result. repeat split; try assumption.
           apply Hincl. now left.
      * now apply (Hfrom type' values v).
Qed.

Lemma walked_wellFormed (parseNumber : Value -> Num) (track : Value)
    (items : list Value) :
  nullish track = false ->
  Js.field "results" track = VArr items ->
  walked parseNumber track = Resolved items.
Proof.
  intros Hn Hr. unfold walked. rewrite Hr. now destruct track.
Qed.

Lemma categorizeTracks_invariants (parseNumber : Value -> Num)
    (rest : list (string * Value)) :
  incl rest tracks ->
  Forall (fun e => wellFormedTrack (snd e)) rest ->
  forall acc,
    aligned acc -> populated acc -> ownTypes acc -> fromTracks tracks acc ->
    exists acc',
      categorizeTracks parseNumber rest acc = Resolved acc'
      /\ aligned acc' /\ populated acc' /\ ownTypes acc' /\ fromTracks tracks acc'.
Proof.
  induction rest as [|[trackName track] rest IH];
    intros Hincl Hwf acc Hal Hpop Hown Hfrom.
  - exists acc. now repeat split.
  - inversion Hwf as [|? ? (Hn & items & Hitems & Hok) Hrest]; subst.
    cbn [categorizeTracks snd] in *.
    rewrite (walked_wellFormed parseNumber track items Hn Hitems).
    destruct (categorize_invariants (trackName, track) items
                (Hincl _ (or_introl eq_refl)) Hitems items acc (incl_refl _) Hok
                Hal Hpop Hown Hfrom) as (acc1 & Hrun & Hal1 & Hpop1 & Hown1 & Hfrom1).
    cbn [fst snd] in Hrun. rewrite Hrun. apply IH; try assumption.
    intros x Hx. apply Hincl. now right.
Qed.

(** The tracks as [Object.entries] lists them. *)
Lemma categorize_entries (parseNumber : Value -> Num) :
  Forall (fun e => wellFormedTrack (snd e)) tracks ->
  exists byType,
    categorizeTracks parseNumber (Js.entries tracks) (mkByType [] []) = Resolved byType
    /\ aligned byType /\ populated byType /\ ownTypes byType
    /\ fromTracks tracks byType.
Proof.
  intro Hwf. pose proof (MergeFacts.entries_permutation tracks) as Hperm.
  apply categorizeTracks_invariants.
  - intros x Hx. exact (Permutation_in x Hperm Hx).
  - exact (Permutation_Forall (Permutation_sym Hperm) Hwf).
  - reflexivity.
  - constructor.
  - constructor.
  - intros type values v Hg. discriminate.
Qed.
End Categorize.

Section ResolveTypes.
Variable parseNumber : Value -> Num.
Variable options : ConflictResolutionOptions.
Variable byType : ByType.
Hypothesis chooses : selecting (strategy options) = true.
Hypothesis lockstep : aligned byType.
Hypothesis nonempty : populated byType.
Hypothesis own : ownTypes byType.

Lemma resolveTypes_selecting (types : list string) :
  (forall type, In type types -> In type (map fst (resultsByType byType))) ->
  forall merged0,
  exists merged,
    resolveTypes parseNumber types byType options merged0 = Resolved merged
    /\ forall type v,
         Js.get type merged = Some v ->
         Js.get type merged0 = Some v
         \/ exists values,
              Js.get type (resultsByType byType) = Some values /\ In v values.
Proof.
  induction types as [|type rest IH]; intros Hin merged0.
  - exists merged0. split; [reflexivity|]. intros. now left.
  - cbn [resolveTypes].
    assert (Htype : Js.inherited type = false).
    { pose proof (Hin type (or_introl eq_refl)) as Ht.
      apply in_map_iff in Ht. destruct Ht as (e & <- & He).
      unfold ownTypes in own. rewrite Forall_forall in own. now apply own. }
    destruct (MergeMoreFacts.get_in_names type (resultsByType byType)
                (Hin type (or_introl eq_refl))) as (values & Hv).
    rewrite Hv.
    pose proof (populated_get byType type values nonempty Hv) as Hne.
    destruct (aligned_get byType type values lockstep Hv) as (metadata & Hm & Hlen).
    rewrite Hm.
    assert (Hnext : forall v, In v values ->
              exists merged,
                resolveTypes parseNumber rest byType options (Js.assign type v merged0)
                = Resolved merged
                /\ forall type' v',
                     Js.get type' merged = Some v' ->
                     Js.get type' merged0 = Some v'
                     \/ exists values',
                          Js.get type' (resultsByType byType) = Some values'
                          /\ In v' values').
    { intros v Hvin. rewrite (MergeMoreFacts.assign_set type v merged0 Htype).
      destruct (IH (fun t Ht => Hin t (or_intror Ht)) (Js.set type v merged0))
        as (merged & Hrun & Hget).
      exists merged. split; [exact Hrun|].
      intros type' v' Hg. destruct (Hget type' v' Hg) as [Hold|Hnew]; [|now right].
      destruct (String.eqb_spec type' type) as [->|Hdiff].
      - rewrite MergeMoreFacts.get_set_here in Hold. injection Hold as <-.
        right. now exists values.
      - rewrite MergeMoreFacts.get_set_other in Hold by exact Hdiff. now left. }
    destruct values as [|v0 [|v1 vs]]; [contradiction| |].
    + apply Hnext. now left.
    + destruct (MergeMoreFacts.resolveConflict_selects parseNumber (v0 :: v1 :: vs)
                  metadata options chooses Hne Hlen) as (v & Hres & Hvin).
      rewrite Hres. now apply Hnext.
Qed.
End ResolveTypes.

(** The two passes of [mergeTrackResults]: the collection by type, and
    the resolution of each type among its collected values. *)
Lemma mergeTrackResults_passes (parseNumber : Value -> Num)
    (tracks : list (string * Value)) (options : ConflictResolutionOptions) :
  selecting (strategy options) = true ->
  Forall (fun e => wellFormedTrack (snd e)) tracks ->
  exists byType merged,
    categorizeTracks parseNumber (Js.entries tracks) (mkByType [] []) = Resolved byType
    /\ fromTracks tracks byType
    /\ mergeTrackResults parseNumber tracks options = Resolved merged
    /\ forall type v,
         Js.get type merged = Some v ->
         exists values, Js.get type (resultsByType byType) = Some values /\ In v values.
Proof.
  intros Hsel Hwf. unfold mergeTrackResults.
  destruct (categorize_entries tracks parseNumber Hwf)
    as (byType & -> & Hal & Hpop & Hown & Hfrom).
  destruct (resolveTypes_selecting parseNumber options byType Hsel Hal Hpop Hown
              (Js.keys (resultsByType byType))
              (fun t H => proj1 (MergeFacts.keys_in t _) H) [])
    as (merged & Hrun & Hget).
  exists byType, merged. split; [reflexivity|]. split; [exact Hfrom|].
  split; [exact Hrun|].
  intros type v Hg. destruct (Hget type v Hg) as [Hold|Hnew]; [discriminate|exact Hnew].
Qed.





End MergeResultsFacts.

(** ** Runners put together *)

Module ComposeFacts.
Import Steps Parallel ParallelMore Compose.

Lemma weightedMerge_requires_weights (parseNumber : Value -> Num)
    (exoticMember : string -> Value -> option Value) (mergedAt : string)
    (tracks : Obj) (state : ResearchState) (key : string) :
  Forall (fun e => MergeResults.nullish (snd e) = false) tracks ->
  Forall (fun e => MergeMore.primitiveData (snd e) = false) tracks ->
  key <> "tracks" ->
  (2 <= List.length (MergeMore.allHeld key tracks))%nat ->
  weightedMerge parseNumber exoticMember mergedAt tracks state
  = Rejected Merge.weightsRequired.
Proof.
  intros Hobj Hprim Hkey Hlen. unfold weightedMerge, MergeResults.createMergeFunction.
  now rewrite (MergeFacts.mergeTrackData_requires_weights exoticMember parseNumber
                 tracks key None None Hobj Hprim Hkey Hlen).
Qed.

(** X29.  A parallel step whose merge function is made by
    [createMergeFunction] with the [weighted] strategy and no weights does
    not fail when two collected tracks hold the same data key: the merge
    throws, the runner resolves, and the errors end with the
    [ParallelError] whose message quotes the missing weights.  The
    collected tracks are objects, and none has a truthy primitive for data
    (on which the [in] operator would throw first). *)
Theorem parallel_contains_missing_weights {W : Type} (isoNow : W -> string)
    (testMode : bool) (parseNumber : Value -> Num)
    (exoticMember : string -> Value -> option Value) (mergedAt : string)
    (state : ResearchState) (options : ParallelOptions W) (eng eng' : Engine W)
    (trackStates : list ResearchState) (key : string) :
  tracks options <> [] ->
  (0 < effectiveTimeout options)%Z ->
  mergeFunction options = Some (weightedMerge parseNumber exoticMember mergedAt) ->
  runTracks testMode (Track.defaultTrue (continueOnError options)) state 0
            (tracks options) eng
  = (Resolved trackStates, eng') ->
  Forall (fun e => MergeResults.nullish (snd e) = false)
         (trackResults (collected state trackStates)) ->
  Forall (fun e => MergeMore.primitiveData (snd e) = false)
         (trackResults (collected state trackStates)) ->
  key <> "tracks" ->
  (2 <= List.length (MergeMore.allHeld key
                       (trackResults (collected state trackStates))))%nat ->
  exists final failure,
    executeParallelStep isoNow testMode false state options eng = (Resolved final, eng')
    /\ errors final = errors state ++ flat_map errors trackStates ++ [failure]
    /\ cls failure = ParallelError
    /\ step failure = Some "ParallelMerge"
    /\ message failure
       = ("Failed to merge parallel results: "
          ++ "Weights required for weighted conflict resolution strategy")%string
    /\ Js.get "parallelMerged" (data final) = Some VUndefined.
Proof.
  intros Htracks Htimeout Hmerge Hrun Hobj Hprim Hkey Hlen.
  eexists _, _. split;
    [exact (ParallelMoreFacts.executeParallelStep_settled isoNow testMode state options
              eng eng' trackStates Htracks Htimeout Hrun)|].
  pose proof (ParallelMoreFacts.mergeSettled_shape isoNow state options trackStates
                (world eng')) as H.
  cbv zeta in H. unfold mergeOutcome in H. rewrite Hmerge in H.
  rewrite (weightedMerge_requires_weights parseNumber exoticMember mergedAt _ state key
             Hobj Hprim Hkey Hlen) in H.
  destruct H as (He & _ & Hm & _).
  split; [exact He|]. repeat split. exact Hm.
Qed.

Lemma parallel_contains_missing_weights_witness :
  exists final,
    fst (executeParallelStep clock false false emptyState clashingTracks
           (mkEngine tt []))
    = Resolved final
    /\ Js.get "parallelMerged" (data final) = Some VUndefined.
Proof.
  destruct (runTracks false true emptyState 0 (tracks clashingTracks) (mkEngine tt []))
    as [[trackStates|e] eng'] eqn:Hrun; [|vm_compute in Hrun; discriminate Hrun].
  pose proof Hrun as Hval. vm_compute in Hval. injection Hval as Hstates _.
  destruct (parallel_contains_missing_weights clock false Merge.noParse Merge.noExotic
              "now" emptyState clashingTracks (mkEngine tt []) eng' trackStates "x")
    as (final & failure & Hfinal & _ & _ & _ & _ & Hm).
  - discriminate.
  - reflexivity.
  - reflexivity.
  - exact Hrun.
  - rewrite <- Hstates. vm_compute. repeat constructor.
  - rewrite <- Hstates. vm_compute. repeat constructor.
  - discriminate.
  - rewrite <- Hstates. vm_compute. lia.
  - exists final. split; [now rewrite Hfinal|exact Hm].
Defined.

(** What a track rejects with is never an error that is retried. *)
Lemma executeTrackStep_rejection_not_retried {W : Type} (isoNow : W -> string)
    (state : ResearchState) (options : Track.TrackOptions W) (eng eng' : Engine W)
    (t : Thrown) :
  Track.executeTrackStep isoNow state options eng = (Rejected t, eng') ->
  Retry.defaultIsRetryable t = false.
Proof.
  unfold Track.executeTrackStep.
  destruct (String.eqb (Track.t_name options) EmptyString).
  { intro H. injection H as <- _. reflexivity. }
  destruct (Track.t_steps options) as [|step0 rest].
  { intro H. injection H as <- _. reflexivity. }
  pose proof (TrackMoreFacts.runTrackSteps_log (Track.t_name options)
                (optFlag (Track.continueOnError options)) (step0 :: rest)
                (Track.trackState state options) eng) as (delta & k & _ & _ & Hr).
  destruct (Track.runTrackSteps (Track.t_name options)
              (optFlag (Track.continueOnError options)) (step0 :: rest)
              (Track.trackState state options) eng) as [[[u|error] cur] eng1];
    cbn [fst] in Hr; [discriminate|].
  destruct Hr as (_ & pre & bad & post & e & _ & _ & _ & ->).
  destruct (Track.retryEnabled (Track.t_retry options)); [discriminate|].
  intro H. injection H as <- _. reflexivity.
Qed.

(** X30.  A step made by [track()] runs its track exactly once, whatever
    its [retry] option: with retries on, a failing track returns its state
    instead of throwing, so the retry wrapper sees a success; and what a
    track does throw (a validation error, or the [ProcessingError] of a
    failed step) is not marked for retry.  Nothing is slept or announced. *)
Theorem track_runs_once {W : Type} (isoNow : W -> string) (testMode : bool)
    (options : Track.TrackOptions W) (state : ResearchState) (eng : Engine W) :
  Track.track isoNow testMode options
  = createStep testMode "Track"
      (fun state eng => Track.executeTrackStep isoNow state options eng)
      (trackCreation options)
  /\ createStepRun testMode "Track"
       (fun state eng => Track.executeTrackStep isoNow state options eng)
       (trackCreation options) state eng
     = executeFunc "Track"
         (fun state eng => Track.executeTrackStep isoNow state options eng) state eng.
Proof.
  split; [reflexivity|]. unfold createStepRun.
  destruct (optFlag (c_retryable (trackCreation options))); [|reflexivity].
  destruct (Track.executeTrackStep isoNow (withMeta "currentStep" (VStr "Track") state)
              options eng) as [[final|t] eng1] eqn:E.
  - assert (Hf : executeFunc "Track"
                   (fun state eng => Track.executeTrackStep isoNow state options eng)
                   state eng = (Resolved final, eng1))
      by (unfold executeFunc; now rewrite E).
    rewrite Hf. now apply RetryFacts.executeWithRetry_resolved.
  - pose proof (executeTrackStep_rejection_not_retried isoNow _ options eng eng1 t E)
      as Hno.
    rewrite (StepsMoreFacts.executeFunc_rejected "Track"
               (fun state eng => Track.executeTrackStep isoNow state options eng)
               state eng eng1 t E).
    apply RetryFacts.executeWithRetry_not_retried; [|reflexivity|].
    + exact (StepsMoreFacts.executeFunc_rejected "Track"
               (fun state eng => Track.executeTrackStep isoNow state options eng)
               state eng eng1 t E).
    + apply StepsMoreFacts.rethrown_not_retried.
      unfold StepsMore.retriedError. rewrite Hno. apply andb_false_r.
Qed.

End ComposeFacts.
